(** * cf4ocl profiler: a shallow embedding of [src/lib/profiler.c]

    The profiling engine ingests the events of the registered command
    queues, computes per-name aggregate times, and sweeps over the event
    instants to build an overlap matrix.  Every function of [profiler.c]
    that takes part in these computations is transcribed below, C statement
    by C statement, into Gallina:

    - [cl_ulong] and [guint] values are integers of [Z] with the wrap-around
      written out ([u64], [u32]);
    - pointers that may be [NULL] are [option]s;
    - GLib hash tables are finite maps ([gmap]), GLib lists are lists, and
      [g_list_sort_with_data] is GLib's top-down stable merge sort;
    - a dereference of [NULL] (undefined behaviour in C) is the result
      [None] of the function that performs it;
    - doubles are IEEE-754 binary64 values of [SpecFloat].

    Not transcribed: [cl4_prof_destroy], [cl4_prof_export_info_file] and the
    accessors of the export options (the options are an argument of the
    export). *)

From Stdlib Require Import ZArith String Ascii List Lia DecimalString.
From Stdlib Require Import Floats.SpecFloat.
From stdpp Require Import gmap strings list fin_maps sorting.

Open Scope Z_scope.

(** ** Machine integers and doubles *)

Definition cl_ulong := Z.
Definition guint := Z.
Definition cl_bool := bool.
Definition CL_TRUE : cl_bool := true.
Definition CL_FALSE : cl_bool := false.

Definition CL_ULONG_MAX : cl_ulong := 2 ^ 64 - 1.

(** Reduction of an integer to the range of [cl_ulong] (64 bits). *)
Definition u64 (z : Z) : cl_ulong := z mod 2 ^ 64.
(** Reduction of an integer to the range of [guint] (32 bits). *)
Definition u32 (z : Z) : guint := z mod 2 ^ 32.

Definition double := spec_float.
(** The C conversion [(double) x] of an unsigned 64-bit integer: round to
    nearest, ties to even. *)
Definition double_of_ulong (x : cl_ulong) : double :=
  binary_normalize 53 1024 x 0 false.
(** The C division of two doubles. *)
Definition double_div (x y : double) : double := SFdiv 53 1024 x y.

(** ** The part of GLib that [profiler.c] calls *)

Module GLib.

(** [GError]: an error domain, a code and a message. *)
Record GError := { domain : string; code : Z; message : string }.

Section hash_table.
Context {K : Type} `{Countable K} {V : Type}.

(** A [GHashTable*] is [NULL] or a table.  On a [NULL] table every GLib
    function trips its guard and returns its neutral value. *)
Definition g_hash_table_contains (t : option (gmap K V)) (k : K) : bool :=
  match t with
  | Some m => bool_decide (is_Some (m !! k))
  | None => false
  end.

Definition g_hash_table_size (t : option (gmap K V)) : guint :=
  match t with
  | Some m => Z.of_nat (size m)
  | None => 0
  end.

Definition g_hash_table_insert (t : option (gmap K V)) (k : K) (v : V)
  : option (gmap K V) :=
  match t with
  | Some m => Some (<[k := v]> m)
  | None => None
  end.

(** [g_hash_table_lookup] returns the stored pointer, [NULL] when the key is
    absent or the table is [NULL]. *)
Definition g_hash_table_lookup (t : option (gmap K V)) (k : K) : option V :=
  match t with
  | Some m => m !! k
  | None => None
  end.

End hash_table.

Section list_sort.
Context {A : Type}.

(** "[a] may stay before [b]": the comparison function returns [<= 0]. *)
Definition cmp_le (compare_func : A → A → Z) : relation A :=
  λ a b, compare_func a b <= 0.

#[global] Instance cmp_le_dec compare_func a b : Decision (cmp_le compare_func a b).
Proof. unfold cmp_le. apply _. Defined.

(** [g_list_sort_merge]: the head of the first list is taken when the
    comparison is [<= 0], the head of the second one otherwise. *)
Definition g_list_sort_merge (compare_func : A → A → Z) : list A → list A → list A :=
  list_merge (cmp_le compare_func).

(** [g_list_sort_real]: a list of two or more elements is cut after its
    first [n / 2] elements, both parts are sorted and merged.  The recursion
    is on [fuel]; [length l] is always enough. *)
Fixpoint g_list_sort_real (fuel : nat) (compare_func : A → A → Z) (l : list A)
  : list A :=
  match fuel with
  | O => l
  | S fuel' =>
      match l with
      | [] => []
      | [x] => [x]
      | _ =>
          let h := (length l / 2)%nat in
          g_list_sort_merge compare_func
            (g_list_sort_real fuel' compare_func (take h l))
            (g_list_sort_real fuel' compare_func (drop h l))
      end
  end.

Definition g_list_sort_with_data (l : list A) (compare_func : A → A → Z) : list A :=
  g_list_sort_real (length l) compare_func l.

End list_sort.

(** [g_new0 (cl_ulong, n)]: [NULL] when [n] is zero, else [n] zeroes. *)
Definition g_new0 (n : Z) : option (list cl_ulong) :=
  if n =? 0 then None else Some (replicate (Z.to_nat n) 0).

(** [GTimer]: monotonic microsecond readings. *)
Record GTimer := { tm_start : Z; tm_end : Z; tm_active : bool }.

Definition g_timer_new (now : Z) : GTimer :=
  {| tm_start := now; tm_end := now; tm_active := true |}.

Definition g_timer_stop (now : Z) (t : GTimer) : GTimer :=
  {| tm_start := tm_start t; tm_end := now; tm_active := false |}.

(** [g_timer_elapsed] reads the clock when the timer is running and returns
    the seconds between the two readings. *)
Definition g_timer_elapsed (now : Z) (t : GTimer) : double :=
  let e := if tm_active t then now else tm_end t in
  double_div (double_of_ulong (e - tm_start t)) (double_of_ulong 1000000).

(** [g_strcmp0] on two non-[NULL] strings. *)
Definition g_strcmp0 (s1 s2 : string) : Z :=
  match String.compare s1 s2 with
  | Lt => -1
  | Eq => 0
  | Gt => 1
  end.

End GLib.
Import GLib.

(** ** Data of the profiler

    The types [CL4ProfEventAgg], [CL4ProfEvent], [CL4ProfExportOptions] and
    the sort enumerations are declared in [profiler.h]; they are given here
    with the fields and values that [profiler.c] uses. *)

(** [CL4_PROF_CMP(x, y)], as the macro is written. *)
Definition CL4_PROF_CMP (x y : Z) : Z :=
  if x <? y then 1 else if x >? y then -1 else 0.

Inductive CL4ProfEventInstType :=
| CL4_PROF_EV_START
| CL4_PROF_EV_END.

Global Instance CL4ProfEventInstType_eq_dec : EqDecision CL4ProfEventInstType.
Proof. solve_decision. Defined.

Record CL4ProfEventInst := {
  inst_event_name : string;
  inst_queue_name : string;
  inst_id : guint;
  instant : cl_ulong;
  inst_type : CL4ProfEventInstType
}.

Inductive CL4ProfEventInstSort :=
| CL4_PROF_EVENTINST_SORT_INSTANT
| CL4_PROF_EVENTINST_SORT_ID.

Record CL4ProfEventAgg := {
  agg_event_name : string;
  absolute_time : cl_ulong;
  (** [None]: not yet written ([cl4_prof_eventagg_new] leaves it
      uninitialised). *)
  relative_time : option double
}.

Inductive CL4ProfEventAggSort :=
| CL4_PROF_EVENTAGG_SORT_NAME
| CL4_PROF_EVENTAGG_SORT_TIME.

Record CL4ProfEvent := {
  ev_event_name : string;
  ev_queue_name : string;
  t_queued : cl_ulong;
  t_submit : cl_ulong;
  t_start : cl_ulong;
  t_end : cl_ulong
}.

Inductive CL4ProfEventSort :=
| CL4_PROF_EVENT_SORT_NAME_EVENT
| CL4_PROF_EVENT_SORT_NAME_QUEUE
| CL4_PROF_EVENT_SORT_T_QUEUED
| CL4_PROF_EVENT_SORT_T_SUBMIT
| CL4_PROF_EVENT_SORT_T_START
| CL4_PROF_EVENT_SORT_T_END.

Record CL4ProfExportOptions := {
  separator : string;
  newline : string;
  queue_delim : string;
  evname_delim : string;
  zero_start : cl_bool
}.

Definition tab : string := String (ascii_of_nat 9) EmptyString.
Definition lf : string := String (ascii_of_nat 10) EmptyString.

(** The initial value of the static [export_options]. *)
Definition export_options : CL4ProfExportOptions :=
  {| separator := tab;
     newline := lf;
     queue_delim := EmptyString;
     evname_delim := EmptyString;
     zero_start := CL_TRUE |}.

(** *** The collaborators: event and queue wrappers *)

Inductive cl_profiling_info :=
| CL_PROFILING_COMMAND_QUEUED
| CL_PROFILING_COMMAND_SUBMIT
| CL_PROFILING_COMMAND_START
| CL_PROFILING_COMMAND_END.

(** An event wrapper: its final name, and for each profiling query either
    the error it sets or the instant it returns. *)
Record CL4Event := {
  cl4_event_get_final_name : string;
  cl4_event_get_profiling_info : cl_profiling_info → GError + cl_ulong
}.

(** A command queue wrapper is what its event iterator yields, in order. *)
Definition CL4CQueue := list CL4Event.

(** *** The profile object *)

Record CL4Prof := {
  event_names : option (gmap string guint);
  event_name_ids : option (gmap guint string);
  (** The table of queues, in the order in which [g_hash_table_iter_next]
      yields its entries. *)
  cqueues : option (list (string * CL4CQueue));
  event_instants : list CL4ProfEventInst;
  num_events : guint;
  events : list CL4ProfEvent;
  aggregate : option (gmap string CL4ProfEventAgg);
  overmat : option (list cl_ulong);
  total_events_time : cl_ulong;
  total_events_eff_time : cl_ulong;
  start_time : cl_ulong;
  timer : option GTimer
}.

(** ** Comparison functions *)

Definition cl4_prof_eventinst_new (event_name queue_name : string) (id : guint)
  (inst : cl_ulong) (type : CL4ProfEventInstType) : CL4ProfEventInst :=
  {| inst_event_name := event_name;
     inst_queue_name := queue_name;
     inst_id := id;
     instant := inst;
     inst_type := type |}.

(** The comparison functions take the sort key first.  In
    [cl4_prof_eventinst_comp] the two values of the type make the sort by id
    return before the end of the function is reached. *)
Definition cl4_prof_eventinst_comp (userdata : CL4ProfEventInstSort)
  (ev_inst1 ev_inst2 : CL4ProfEventInst) : Z :=
  match userdata with
  | CL4_PROF_EVENTINST_SORT_INSTANT =>
      CL4_PROF_CMP (instant ev_inst1) (instant ev_inst2)
  | CL4_PROF_EVENTINST_SORT_ID =>
      if inst_id ev_inst1 >? inst_id ev_inst2 then 1
      else if inst_id ev_inst1 <? inst_id ev_inst2 then -1
      else match inst_type ev_inst1 with
           | CL4_PROF_EV_END => 1
           | CL4_PROF_EV_START => -1
           end
  end.

(** [cl4_prof_eventagg_new] writes the name only.  Its one caller,
    [cl4_prof_calc_agg], sets [absolute_time] to zero right after the call:
    the entry is created here with that zero. *)
Definition cl4_prof_eventagg_new (event_name : string) : CL4ProfEventAgg :=
  {| agg_event_name := event_name; absolute_time := 0; relative_time := None |}.

Definition cl4_prof_eventagg_comp (userdata : CL4ProfEventAggSort)
  (ev_agg1 ev_agg2 : CL4ProfEventAgg) : Z :=
  match userdata with
  | CL4_PROF_EVENTAGG_SORT_NAME =>
      g_strcmp0 (agg_event_name ev_agg1) (agg_event_name ev_agg2)
  | CL4_PROF_EVENTAGG_SORT_TIME =>
      CL4_PROF_CMP (absolute_time ev_agg1) (absolute_time ev_agg2)
  end.

Definition cl4_prof_event_new (event_name queue_name : string)
  (tq tsub ts te : cl_ulong) : CL4ProfEvent :=
  {| ev_event_name := event_name;
     ev_queue_name := queue_name;
     t_queued := tq;
     t_submit := tsub;
     t_start := ts;
     t_end := te |}.

Definition cl4_prof_event_comp (userdata : CL4ProfEventSort)
  (ev1 ev2 : CL4ProfEvent) : Z :=
  match userdata with
  | CL4_PROF_EVENT_SORT_NAME_EVENT =>
      g_strcmp0 (ev_event_name ev1) (ev_event_name ev2)
  | CL4_PROF_EVENT_SORT_NAME_QUEUE =>
      g_strcmp0 (ev_queue_name ev1) (ev_queue_name ev2)
  | CL4_PROF_EVENT_SORT_T_QUEUED => CL4_PROF_CMP (t_queued ev1) (t_queued ev2)
  | CL4_PROF_EVENT_SORT_T_SUBMIT => CL4_PROF_CMP (t_submit ev1) (t_submit ev2)
  | CL4_PROF_EVENT_SORT_T_START => CL4_PROF_CMP (t_start ev1) (t_start ev2)
  | CL4_PROF_EVENT_SORT_T_END => CL4_PROF_CMP (t_end ev1) (t_end ev2)
  end.

(** ** Field updates of the profile object *)

Definition set_event_names (v : option (gmap string guint)) (p : CL4Prof) : CL4Prof :=
  {| event_names := v; event_name_ids := event_name_ids p; cqueues := cqueues p;
     event_instants := event_instants p; num_events := num_events p;
     events := events p; aggregate := aggregate p; overmat := overmat p;
     total_events_time := total_events_time p;
     total_events_eff_time := total_events_eff_time p;
     start_time := start_time p; timer := timer p |}.

Definition set_event_name_ids (v : option (gmap guint string)) (p : CL4Prof) : CL4Prof :=
  {| event_names := event_names p; event_name_ids := v; cqueues := cqueues p;
     event_instants := event_instants p; num_events := num_events p;
     events := events p; aggregate := aggregate p; overmat := overmat p;
     total_events_time := total_events_time p;
     total_events_eff_time := total_events_eff_time p;
     start_time := start_time p; timer := timer p |}.

Definition set_cqueues (v : option (list (string * CL4CQueue))) (p : CL4Prof) : CL4Prof :=
  {| event_names := event_names p; event_name_ids := event_name_ids p; cqueues := v;
     event_instants := event_instants p; num_events := num_events p;
     events := events p; aggregate := aggregate p; overmat := overmat p;
     total_events_time := total_events_time p;
     total_events_eff_time := total_events_eff_time p;
     start_time := start_time p; timer := timer p |}.

Definition set_event_instants (v : list CL4ProfEventInst) (p : CL4Prof) : CL4Prof :=
  {| event_names := event_names p; event_name_ids := event_name_ids p;
     cqueues := cqueues p; event_instants := v; num_events := num_events p;
     events := events p; aggregate := aggregate p; overmat := overmat p;
     total_events_time := total_events_time p;
     total_events_eff_time := total_events_eff_time p;
     start_time := start_time p; timer := timer p |}.

Definition set_num_events (v : guint) (p : CL4Prof) : CL4Prof :=
  {| event_names := event_names p; event_name_ids := event_name_ids p;
     cqueues := cqueues p; event_instants := event_instants p; num_events := v;
     events := events p; aggregate := aggregate p; overmat := overmat p;
     total_events_time := total_events_time p;
     total_events_eff_time := total_events_eff_time p;
     start_time := start_time p; timer := timer p |}.

Definition set_events (v : list CL4ProfEvent) (p : CL4Prof) : CL4Prof :=
  {| event_names := event_names p; event_name_ids := event_name_ids p;
     cqueues := cqueues p; event_instants := event_instants p;
     num_events := num_events p; events := v; aggregate := aggregate p;
     overmat := overmat p; total_events_time := total_events_time p;
     total_events_eff_time := total_events_eff_time p;
     start_time := start_time p; timer := timer p |}.

Definition set_aggregate (v : option (gmap string CL4ProfEventAgg)) (p : CL4Prof) : CL4Prof :=
  {| event_names := event_names p; event_name_ids := event_name_ids p;
     cqueues := cqueues p; event_instants := event_instants p;
     num_events := num_events p; events := events p; aggregate := v;
     overmat := overmat p; total_events_time := total_events_time p;
     total_events_eff_time := total_events_eff_time p;
     start_time := start_time p; timer := timer p |}.

Definition set_overmat (v : option (list cl_ulong)) (p : CL4Prof) : CL4Prof :=
  {| event_names := event_names p; event_name_ids := event_name_ids p;
     cqueues := cqueues p; event_instants := event_instants p;
     num_events := num_events p; events := events p; aggregate := aggregate p;
     overmat := v; total_events_time := total_events_time p;
     total_events_eff_time := total_events_eff_time p;
     start_time := start_time p; timer := timer p |}.

Definition set_total_events_time (v : cl_ulong) (p : CL4Prof) : CL4Prof :=
  {| event_names := event_names p; event_name_ids := event_name_ids p;
     cqueues := cqueues p; event_instants := event_instants p;
     num_events := num_events p; events := events p; aggregate := aggregate p;
     overmat := overmat p; total_events_time := v;
     total_events_eff_time := total_events_eff_time p;
     start_time := start_time p; timer := timer p |}.

Definition set_total_events_eff_time (v : cl_ulong) (p : CL4Prof) : CL4Prof :=
  {| event_names := event_names p; event_name_ids := event_name_ids p;
     cqueues := cqueues p; event_instants := event_instants p;
     num_events := num_events p; events := events p; aggregate := aggregate p;
     overmat := overmat p; total_events_time := total_events_time p;
     total_events_eff_time := v;
     start_time := start_time p; timer := timer p |}.

Definition set_start_time (v : cl_ulong) (p : CL4Prof) : CL4Prof :=
  {| event_names := event_names p; event_name_ids := event_name_ids p;
     cqueues := cqueues p; event_instants := event_instants p;
     num_events := num_events p; events := events p; aggregate := aggregate p;
     overmat := overmat p; total_events_time := total_events_time p;
     total_events_eff_time := total_events_eff_time p;
     start_time := v; timer := timer p |}.

Definition set_timer (v : option GTimer) (p : CL4Prof) : CL4Prof :=
  {| event_names := event_names p; event_name_ids := event_name_ids p;
     cqueues := cqueues p; event_instants := event_instants p;
     num_events := num_events p; events := events p; aggregate := aggregate p;
     overmat := overmat p; total_events_time := total_events_time p;
     total_events_eff_time := total_events_eff_time p;
     start_time := start_time p; timer := v |}.

(** ** Ingest: a state monad in which an error leaves the state reached

    [cl4_prof_add_event] writes to the profile as it goes and returns as
    soon as a query sets the error; the writes made so far stay. *)

Definition ProfM (A : Type) : Type := CL4Prof → (GError + A) * CL4Prof.

Definition ret {A} (a : A) : ProfM A := λ p, (inr a, p).

Definition bind {A B} (m : ProfM A) (k : A → ProfM B) : ProfM B :=
  λ p, match m p with
       | (inl e, p') => (inl e, p')
       | (inr a, p') => k a p'
       end.

Definition get : ProfM CL4Prof := λ p, (inr p, p).

Definition modify (f : CL4Prof → CL4Prof) : ProfM unit := λ p, (inr tt, f p).

(** A profiling query does not touch the profile. *)
Definition query (evt : CL4Event) (kind : cl_profiling_info) : ProfM cl_ulong :=
  λ p, (cl4_event_get_profiling_info evt kind, p).

#[global] Instance ProfM_ret : MRet ProfM := @ret.
#[global] Instance ProfM_bind : MBind ProfM := λ A B k m, bind m k.

Definition cl4_prof_add_event (cq_name : string) (evt : CL4Event) : ProfM unit :=
  (* Get event name. *)
  let event_name := cl4_event_get_final_name evt in
  (* event_id = ++prof->num_events *)
  modify (λ p, set_num_events (u32 (num_events p + 1)) p) ;;
  p0 ← get;
  let event_id := num_events p0 in
  (* 1 - Check event against table of event names. *)
  modify (λ p,
    if g_hash_table_contains (event_names p) event_name then p
    else set_event_names
           (g_hash_table_insert (event_names p) event_name
              (g_hash_table_size (event_names p))) p) ;;
  (* 2 - Check event against list of event instants. *)
  inst ← query evt CL_PROFILING_COMMAND_START;
  modify (λ p, if inst <? start_time p then set_start_time inst p else p) ;;
  let evinst_start :=
    cl4_prof_eventinst_new event_name cq_name event_id inst CL4_PROF_EV_START in
  modify (λ p, set_event_instants (evinst_start :: event_instants p) p) ;;
  inst' ← query evt CL_PROFILING_COMMAND_END;
  let evinst_end :=
    cl4_prof_eventinst_new event_name cq_name event_id inst' CL4_PROF_EV_END in
  modify (λ p, set_event_instants (evinst_end :: event_instants p) p) ;;
  (* 3 - Check event against list of events. *)
  tq ← query evt CL_PROFILING_COMMAND_QUEUED;
  tsub ← query evt CL_PROFILING_COMMAND_SUBMIT;
  modify (λ p, set_events
    (cl4_prof_event_new event_name cq_name tq tsub
       (instant evinst_start) (instant evinst_end) :: events p) p).

(** The inner loop of [cl4_prof_process_queues]: the events of one queue. *)
Fixpoint process_queue_events (cq_name : string) (evts : CL4CQueue) : ProfM unit :=
  match evts with
  | [] => ret tt
  | evt :: rest =>
      cl4_prof_add_event cq_name evt ;; process_queue_events cq_name rest
  end.

(** The outer loop of [cl4_prof_process_queues]: the queues of the table. *)
Fixpoint process_queue_table (qs : list (string * CL4CQueue)) : ProfM unit :=
  match qs with
  | [] => ret tt
  | (cq_name, cq) :: rest =>
      process_queue_events cq_name cq ;; process_queue_table rest
  end.

(** The table [event_name_ids]: [event_names] with keys and values
    swapped. *)
Definition reverse_event_names (names : gmap string guint) : gmap guint string :=
  foldl (λ ids kv, <[kv.2 := kv.1]> ids) ∅ (map_to_list names).

(** [cl4_prof_process_queues].  Iterating a [NULL] table
    ([g_hash_table_iter_init] returns at its guard and leaves the iterator
    uninitialised) is undefined: the result is [None]. *)
Definition cl4_prof_process_queues (prof : CL4Prof)
  : option ((GError + unit) * CL4Prof) :=
  match cqueues prof with
  | None => None
  | Some qs =>
      match process_queue_table qs prof with
      | (inl e, p') => Some (inl e, p')
      | (inr _, p') =>
          match event_names p' with
          | None => None
          | Some names =>
              Some (inr tt, set_event_name_ids (Some (reverse_event_names names)) p')
          end
      end
  end.

(** ** Aggregate statistics *)

(** The first loop of [cl4_prof_calc_agg]: a zeroed entry per event name. *)
Definition init_aggregate (names : gmap string guint)
  (agg : option (gmap string CL4ProfEventAgg)) : option (gmap string CL4ProfEventAgg) :=
  foldl (λ t kv, g_hash_table_insert t kv.1 (cl4_prof_eventagg_new kv.1))
    agg (map_to_list names).

Definition add_absolute_time (d : cl_ulong) (a : CL4ProfEventAgg) : CL4ProfEventAgg :=
  {| agg_event_name := agg_event_name a;
     absolute_time := u64 (absolute_time a + d);
     relative_time := relative_time a |}.

(** The second loop: the instants are read two by two, a START and the
    element after it.  Reading the element after the last one, or the entry
    of a name that has none, dereferences [NULL]. *)
Fixpoint agg_intervals (l : list CL4ProfEventInst)
  (agg : option (gmap string CL4ProfEventAgg)) (total : cl_ulong)
  : option (option (gmap string CL4ProfEventAgg) * cl_ulong) :=
  match l with
  | [] => Some (agg, total)
  | [_] => None
  | s :: e :: rest =>
      let start_inst := instant s in
      let end_inst := instant e in
      match g_hash_table_lookup agg (inst_event_name e) with
      | None => None
      | Some curr_agg =>
          agg_intervals rest
            (g_hash_table_insert agg (inst_event_name e)
               (add_absolute_time (u64 (end_inst - start_inst)) curr_agg))
            (u64 (total + u64 (end_inst - start_inst)))
      end
  end.

Definition set_relative_time (total : cl_ulong) (a : CL4ProfEventAgg) : CL4ProfEventAgg :=
  {| agg_event_name := agg_event_name a;
     absolute_time := absolute_time a;
     relative_time :=
       Some (double_div (double_of_ulong (absolute_time a)) (double_of_ulong total)) |}.

Definition cl4_prof_calc_agg (prof : CL4Prof) : option CL4Prof :=
  match event_names prof with
  | None => None
  | Some names =>
      (* Initalize table, and set aggregate values to zero. *)
      let agg0 := init_aggregate names (aggregate prof) in
      (* Sort event instants by eid, and then by START, END order. *)
      let insts := g_list_sort_with_data (event_instants prof)
                     (cl4_prof_eventinst_comp CL4_PROF_EVENTINST_SORT_ID) in
      (* Iterate through all event instants and determine total times. *)
      match agg_intervals insts agg0 (total_events_time prof) with
      | None => None
      | Some (agg1, total) =>
          (* Determine relative times. *)
          match agg1 with
          | None => None
          | Some m =>
              Some (set_aggregate (Some (set_relative_time total <$> m))
                     (set_total_events_time total
                        (set_event_instants insts prof)))
          end
      end
  end.

(** ** Overlap matrix *)

(** The locals of [cl4_prof_calc_overmat] that live across the sweep. *)
Record Sweep := {
  overlap_matrix : option (list cl_ulong);
  total_overlap : cl_ulong;
  overlaps : gmap guint (gmap guint cl_ulong);
  occurring_events : gmap guint guint
}.

(** The name id stored for an event name: the value of [event_names], [0]
    (the [NULL] pointer) when there is none. *)
Definition ueid_of (names : option (gmap string guint)) (event_name : string) : guint :=
  default 0 (g_hash_table_lookup names event_name).

(** One turn of the loop over the occurring events at a START instant: the
    instant is stored as the start of the overlap of the two events, under
    the smaller and then the larger of their ids; the inner table is created
    when the smaller id has none. *)
Definition sweep_start_step (curr_evinst : CL4ProfEventInst)
  (ov : gmap guint (gmap guint cl_ulong)) (kv : guint * guint)
  : gmap guint (gmap guint cl_ulong) :=
  let key_eid := kv.1 in
  let eid_key1 :=
    if inst_id curr_evinst <=? key_eid then inst_id curr_evinst else key_eid in
  let eid_key2 :=
    if inst_id curr_evinst >? key_eid then inst_id curr_evinst else key_eid in
  let inner_table := default ∅ (ov !! eid_key1) in
  <[eid_key1 := <[eid_key2 := instant curr_evinst]> inner_table]> ov.

(** An event START instant. *)
Definition sweep_start (names : option (gmap string guint))
  (curr_evinst : CL4ProfEventInst) (st : Sweep) : Sweep :=
  (* 1 - Check for overlaps with ocurring events *)
  let overlaps' :=
    foldl (sweep_start_step curr_evinst) (overlaps st)
      (map_to_list (occurring_events st)) in
  (* 2 - Add event to occurring events. *)
  {| overlap_matrix := overlap_matrix st;
     total_overlap := total_overlap st;
     overlaps := overlaps';
     occurring_events :=
       <[inst_id curr_evinst := ueid_of names (inst_event_name curr_evinst)]>
         (occurring_events st) |}.

(** One turn of the loop over the occurring events at an END instant.  The
    start of the overlap is read through two lookups without a check: when
    either finds nothing, [NULL] is dereferenced.  So is the matrix when it
    is [NULL] or the index is outside it. *)
Definition sweep_end_step (names : option (gmap string guint)) (num_event_names : guint)
  (curr_evinst : CL4ProfEventInst) (ov : gmap guint (gmap guint cl_ulong))
  (acc : option (option (list cl_ulong) * cl_ulong)) (kv : guint * guint)
  : option (option (list cl_ulong) * cl_ulong) :=
  match acc with
  | None => None
  | Some (mat, tot) =>
      let key_eid := kv.1 in
      let ueid_occu_ev := kv.2 in
      let eid_key1 :=
        if inst_id curr_evinst <=? key_eid then inst_id curr_evinst else key_eid in
      let eid_key2 :=
        if inst_id curr_evinst >? key_eid then inst_id curr_evinst else key_eid in
      match ov !! eid_key1 with
      | None => None
      | Some inner_table =>
          match inner_table !! eid_key2 with
          | None => None
          | Some s =>
              let eff_overlap := u64 (instant curr_evinst - s) in
              let ueid_curr_ev := ueid_of names (inst_event_name curr_evinst) in
              let ueid_min :=
                if ueid_curr_ev <=? ueid_occu_ev then ueid_curr_ev else ueid_occu_ev in
              let ueid_max :=
                if ueid_curr_ev >? ueid_occu_ev then ueid_curr_ev else ueid_occu_ev in
              let idx := Z.to_nat (u32 (u32 (ueid_min * num_event_names) + ueid_max)) in
              match mat with
              | None => None
              | Some m =>
                  match m !! idx with
                  | None => None
                  | Some old =>
                      Some (Some (<[idx := u64 (old + eff_overlap)]> m),
                            u64 (tot + eff_overlap))
                  end
              end
          end
      end
  end.

(** An event END instant. *)
Definition sweep_end (names : option (gmap string guint)) (num_event_names : guint)
  (curr_evinst : CL4ProfEventInst) (st : Sweep) : option Sweep :=
  (* 1 - Remove event from ocurring events *)
  let occ := delete (inst_id curr_evinst) (occurring_events st) in
  (* 2 - Check for overlap termination with current events *)
  match foldl (sweep_end_step names num_event_names curr_evinst (overlaps st))
          (Some (overlap_matrix st, total_overlap st)) (map_to_list occ) with
  | None => None
  | Some (mat, tot) =>
      Some {| overlap_matrix := mat;
              total_overlap := tot;
              overlaps := overlaps st;
              occurring_events := occ |}
  end.

(** The loop over the sorted instants. *)
Fixpoint sweep (names : option (gmap string guint)) (num_event_names : guint)
  (l : list CL4ProfEventInst) (st : Sweep) : option Sweep :=
  match l with
  | [] => Some st
  | curr_evinst :: rest =>
      match inst_type curr_evinst with
      | CL4_PROF_EV_START =>
          sweep names num_event_names rest (sweep_start names curr_evinst st)
      | CL4_PROF_EV_END =>
          match sweep_end names num_event_names curr_evinst st with
          | None => None
          | Some st' => sweep names num_event_names rest st'
          end
      end
  end.

(** [cl4_prof_calc_overmat]; the result carries, next to the profile, the
    final value of the local [total_overlap]. *)
Definition cl4_prof_calc_overmat (prof : CL4Prof) : option (CL4Prof * cl_ulong) :=
  (* Determine number of event names. *)
  let num_event_names := g_hash_table_size (event_names prof) in
  (* Initialize overlap matrix. *)
  let st0 := {| overlap_matrix := g_new0 (u32 (num_event_names * num_event_names));
                total_overlap := 0;
                overlaps := ∅;
                occurring_events := ∅ |} in
  (* Sort all event instants. *)
  let insts := g_list_sort_with_data (event_instants prof)
                 (cl4_prof_eventinst_comp CL4_PROF_EVENTINST_SORT_INSTANT) in
  (* Iterate through all event instants *)
  match sweep (event_names prof) num_event_names insts st0 with
  | None => None
  | Some st =>
      Some (set_total_events_eff_time
              (u64 (total_events_time prof - total_overlap st))
              (set_overmat (overlap_matrix st)
                 (set_event_instants insts prof)),
            total_overlap st)
  end.

(** ** The public functions *)

(** What [cl4_prof_print_info] prints, one constructor per [g_print] call;
    the numbers are the values handed to the format (nanosecond counts are
    scaled by [1e-9] when printed). *)
Inductive PrintLine :=
| PR_BANNER
| PR_ELAPSED (secs : double)
| PR_TOTAL_EVENTS (ns : cl_ulong)
| PR_AGG_TITLE
| PR_RULE
| PR_AGG_HEADER
| PR_AGG_ROW (event_name : string) (rel : option double) (abs_ns : cl_ulong)
| PR_EFF_TOTAL (ns : cl_ulong)
| PR_SAVED (ns : cl_ulong)
| PR_OVERLAP_TITLE
| PR_OVERLAP_HEADER
| PR_OVERLAP_ROWS (rows : list (option string * option string * cl_ulong)).

(** What a call leaves behind besides its result: the lines printed with
    [g_print], and the messages GLib logs when a guard ([g_return_if_fail],
    [g_return_val_if_fail]) trips or [g_warning] is called. *)
Inductive GLog :=
| G_PRINT (line : PrintLine)
| G_CRITICAL (func expr : string)
| G_WARNING (msg : string).

Definition cl4_prof_new : CL4Prof :=
  {| event_names := None; event_name_ids := None; cqueues := None;
     event_instants := []; num_events := 0; events := [];
     aggregate := None; overmat := None;
     total_events_time := 0; total_events_eff_time := 0;
     (* Set absolute start time to maximum possible. *)
     start_time := CL_ULONG_MAX;
     timer := None |}.

(** The public functions take the profile by pointer: [prof] is [None] for
    [NULL], and the result holds the object after the call. *)

Definition cl4_prof_start (now : Z) (prof : option CL4Prof)
  : option CL4Prof * list GLog :=
  match prof with
  | None => (None, [G_CRITICAL "cl4_prof_start" "prof != NULL"])
  | Some p => (Some (set_timer (Some (g_timer_new now)) p), [])
  end.

Definition cl4_prof_stop (now : Z) (prof : option CL4Prof)
  : option CL4Prof * list GLog :=
  match prof with
  | None => (None, [G_CRITICAL "cl4_prof_stop" "prof != NULL"])
  | Some p =>
      (* g_timer_stop(prof->timer) *)
      match timer p with
      | None => (Some p, [G_CRITICAL "g_timer_stop" "timer != NULL"])
      | Some t => (Some (set_timer (Some (g_timer_stop now t)) p), [])
      end
  end.

Definition cl4_prof_time_elapsed (now : Z) (prof : option CL4Prof)
  : double * list GLog :=
  match prof with
  | None => (S754_zero false, [G_CRITICAL "cl4_prof_time_elapsed" "prof != NULL"])
  | Some p =>
      (* g_timer_elapsed(prof->timer, NULL) *)
      match timer p with
      | None => (S754_zero false, [G_CRITICAL "g_timer_elapsed" "timer != NULL"])
      | Some t => (g_timer_elapsed now t, [])
      end
  end.

(** [g_hash_table_replace] on the table of queues: the entry of the name is
    replaced when there is one, else a new entry is added.  (A queue name is
    identified with its characters.) *)
Fixpoint g_hash_table_replace (qs : list (string * CL4CQueue)) (cq_name : string)
  (cq : CL4CQueue) : list (string * CL4CQueue) :=
  match qs with
  | [] => [(cq_name, cq)]
  | (n, q) :: rest =>
      if String.eqb n cq_name then (cq_name, cq) :: rest
      else (n, q) :: g_hash_table_replace rest cq_name cq
  end.

Definition cl4_prof_add_queue (prof : option CL4Prof) (cq_name : string)
  (cq : option CL4CQueue) : option CL4Prof * list GLog :=
  match prof with
  | None => (None, [G_CRITICAL "cl4_prof_add_queue" "prof != NULL"])
  | Some p =>
      match cq with
      | None => (Some p, [G_CRITICAL "cl4_prof_add_queue" "cq != NULL"])
      | Some q =>
          (* Must be added before calculations. *)
          match aggregate p with
          | Some _ =>
              (Some p, [G_CRITICAL "cl4_prof_add_queue" "prof->aggregate == NULL"])
          | None =>
              (* Check if table needs to be created first. *)
              let qs := default [] (cqueues p) in
              let warn :=
                if bool_decide (cq_name ∈ qs.*1)
                then [G_WARNING "Profile object already contains a queue with that name"]
                else [] in
              (* Add queue to queue table.  (The reference count that
                 cl4_cqueue_ref increments belongs to the queue wrapper, which
                 is outside the profile.) *)
              (Some (set_cqueues (Some (g_hash_table_replace qs cq_name q)) p), warn)
          end
      end
  end.

(** [g_propagate_error (err, err_internal)]: [err] is [None] for a [NULL]
    return location, [Some None] for a location that holds no error. *)
Definition g_propagate_error (err : option (option GError)) (src : GError)
  : option (option GError) :=
  match err with
  | None => None
  | Some None => Some (Some src)
  | Some (Some e) => Some (Some e)
  end.

(** The result of a call that returns a status and may set an error. *)
Record Ret := {
  status : cl_bool;
  prof_after : option CL4Prof;
  err_after : option (option GError);
  log : list GLog
}.

(** [cl4_prof_calc]; [None] when the call runs into undefined behaviour.
    The macro [gef_if_err_propagate_goto], of a header that is not among the
    sources, is taken to hand a set [err_internal] to [g_propagate_error]
    and to jump to the error handler. *)
Definition cl4_prof_calc (prof : option CL4Prof) (err : option (option GError))
  : option Ret :=
  match prof with
  | None =>
      Some {| status := CL_FALSE; prof_after := None; err_after := err;
              log := [G_CRITICAL "cl4_prof_calc" "prof != NULL"] |}
  | Some p =>
      match err with
      | Some (Some _) =>
          Some {| status := CL_FALSE; prof_after := Some p; err_after := err;
                  log := [G_CRITICAL "cl4_prof_calc" "err == NULL || *err == NULL"] |}
      | _ =>
          (* Calculations can only be performed once. *)
          match aggregate p with
          | Some _ =>
              Some {| status := CL_FALSE; prof_after := Some p; err_after := err;
                      log := [G_CRITICAL "cl4_prof_calc" "prof->aggregate == NULL"] |}
          | None =>
              (* Create table of aggregate statistics. *)
              let p1 := set_aggregate (Some ∅) p in
              (* Create table of event names. *)
              let p2 := set_event_names (Some ∅) p1 in
              (* Process queues and respective events. *)
              match cl4_prof_process_queues p2 with
              | None => None
              | Some (inl err_internal, p3) =>
                  Some {| status := CL_FALSE; prof_after := Some p3;
                          err_after := g_propagate_error err err_internal;
                          log := [] |}
              | Some (inr _, p3) =>
                  (* Calculate aggregate statistics. *)
                  match cl4_prof_calc_agg p3 with
                  | None => None
                  | Some p4 =>
                      (* Calculate overlap matrix. *)
                      match cl4_prof_calc_overmat p4 with
                      | None => None
                      | Some (p5, _) =>
                          Some {| status := CL_TRUE; prof_after := Some p5;
                                  err_after := err; log := [] |}
                      end
                  end
              end
          end
      end
  end.

Definition cl4_prof_get_eventagg (prof : option CL4Prof) (event_name : string)
  : option CL4ProfEventAgg * list GLog :=
  match prof with
  | None => (None, [G_CRITICAL "cl4_prof_get_eventagg" "prof != NULL"])
  | Some p =>
      (* This function can only be called after calculations are made. *)
      match aggregate p with
      | None => (None, [G_CRITICAL "cl4_prof_get_eventagg" "prof->aggregate != NULL"])
      | Some m => (m !! event_name, [])
      end
  end.

(** The double loop of [cl4_prof_print_info] over the overlap matrix: the
    rows of the overlap table.  Reading [prof->overmat] when it is [NULL], or
    outside it, is undefined. *)
Definition overlap_rows (p : CL4Prof) (num_event_names : guint)
  : option (list (option string * option string * cl_ulong)) :=
  let n := Z.to_nat num_event_names in
  foldr (λ (ij : nat * nat) acc,
    match acc with
    | None => None
    | Some rows =>
        let i := Z.of_nat ij.1 in
        let j := Z.of_nat ij.2 in
        match overmat p with
        | None => None
        | Some m =>
            match m !! Z.to_nat (u32 (u32 (i * num_event_names) + j)) with
            | None => None
            | Some v =>
                if v >? 0
                then Some ((g_hash_table_lookup (event_name_ids p) i,
                            g_hash_table_lookup (event_name_ids p) j, v) :: rows)
                else Some rows
            end
        end
    end) (Some []) (i ← seq 0 n; j ← seq 0 n; [(i, j)]).

(** [cl4_prof_print_info]; the only guard is the one on the profile
    pointer. *)
Definition cl4_prof_print_info (now : Z) (prof : option CL4Prof)
  (ev_aggSortType : CL4ProfEventAggSort) : option (option CL4Prof * list GLog) :=
  match prof with
  | None => Some (None, [G_CRITICAL "cl4_prof_print_info" "prof != NULL"])
  | Some p =>
      let banner := [G_PRINT PR_BANNER] in
      (* Show total ellapsed time *)
      let elapsed :=
        match timer p with
        | Some t => [G_PRINT (PR_ELAPSED (g_timer_elapsed now t))]
        | None => []
        end in
      (* Show total events time *)
      let total :=
        if total_events_time p >? 0
        then [G_PRINT (PR_TOTAL_EVENTS (total_events_time p))] else [] in
      (* Show aggregate event times *)
      let aggs :=
        match aggregate p with
        | None => [G_CRITICAL "g_hash_table_size" "hash_table != NULL"]
        | Some m =>
            if g_hash_table_size (Some m) >? 0 then
              let ev_agg_list :=
                g_list_sort_with_data (map_to_list m).*2
                  (cl4_prof_eventagg_comp ev_aggSortType) in
              [G_PRINT PR_AGG_TITLE; G_PRINT PR_RULE; G_PRINT PR_AGG_HEADER;
               G_PRINT PR_RULE]
              ++ ((λ a, G_PRINT (PR_AGG_ROW (agg_event_name a) (relative_time a)
                                   (absolute_time a))) <$> ev_agg_list)
              ++ [G_PRINT PR_RULE]
            else []
        end in
      (* Get number of event names. *)
      let num_event_names := g_hash_table_size (event_names p) in
      let names_log :=
        match event_names p with
        | None => [G_CRITICAL "g_hash_table_size" "hash_table != NULL"]
        | Some _ => []
        end in
      (* Show overlaps. *)
      match overlap_rows p num_event_names with
      | None => None
      | Some rows =>
          let lookups_log :=
            match event_name_ids p with
            | None =>
                rows ≫= (λ _, [G_CRITICAL "g_hash_table_lookup" "hash_table != NULL";
                               G_CRITICAL "g_hash_table_lookup" "hash_table != NULL"])
            | Some _ => []
            end in
          let overlap_table :=
            match rows with
            | [] => []
            | _ =>
                [G_PRINT (PR_EFF_TOTAL (total_events_eff_time p));
                 G_PRINT (PR_SAVED (u64 (total_events_time p - total_events_eff_time p)));
                 G_PRINT PR_OVERLAP_TITLE; G_PRINT PR_RULE;
                 G_PRINT PR_OVERLAP_HEADER; G_PRINT PR_RULE;
                 G_PRINT (PR_OVERLAP_ROWS rows); G_PRINT PR_RULE]
            end in
          Some (Some p,
                banner ++ elapsed ++ total ++ aggs ++ names_log ++ lookups_log
                ++ overlap_table)
      end
  end.

(** *** Export *)

(** An output stream: what has been written to it, and how many more writes
    it accepts ([None]: any number). *)
Record FILE := { written : string; writes_left : option nat }.

(** [fprintf] of an already formatted string: the number of characters
    written, negative on failure. *)
Definition fprintf (stream : FILE) (s : string) : Z * FILE :=
  match writes_left stream with
  | Some O => (-1, stream)
  | Some (S n) =>
      (Z.of_nat (String.length s),
       {| written := written stream +:+ s; writes_left := Some n |})
  | None =>
      (Z.of_nat (String.length s),
       {| written := written stream +:+ s; writes_left := None |})
  end.

(** The conversion [%lu] of [(unsigned long) x], [unsigned long] being 64
    bits wide. *)
Definition fmt_lu (x : cl_ulong) : string :=
  NilZero.string_of_uint (N.to_uint (Z.to_N (u64 x))).

(** The line that the [fprintf] call of [cl4_prof_export_info] formats for
    one event. *)
Definition export_line (opts : CL4ProfExportOptions) (curr_ev : CL4ProfEvent) : string :=
  queue_delim opts +:+ ev_queue_name curr_ev +:+ queue_delim opts
  +:+ separator opts +:+ fmt_lu (t_start curr_ev)
  +:+ separator opts +:+ fmt_lu (t_end curr_ev)
  +:+ separator opts
  +:+ evname_delim opts +:+ ev_event_name curr_ev +:+ evname_delim opts
  +:+ newline opts.

(** [g_set_error (err, ...)]: the error is stored when [err] is a return
    location that holds none. *)
Definition g_set_error (err : option (option GError)) (e : GError)
  : option (option GError) :=
  match err with
  | None => None
  | Some None => Some (Some e)
  | Some (Some e0) => Some (Some e0)
  end.

(** Modelled from the spec: the error that [gef_if_error_create_goto]
    creates for the error kind STREAM_WRITE.  The macro and the numeric value
    of [CL4_ERROR_STREAM_WRITE] are declared in headers that are not among
    the sources; the macro is taken to set the error with [g_set_error] and
    to jump to the error handler. *)
Definition CL4_ERROR_STREAM_WRITE_error : GError :=
  {| domain := "CL4_ERROR";
     code := 0;
     message := "Error while exporting profiling information (writing to stream)." |}.

(** The loop of [cl4_prof_export_info] over the sorted events; it stops at
    the first write that fails. *)
Fixpoint export_events (opts : CL4ProfExportOptions) (l : list CL4ProfEvent)
  (stream : FILE) (err : option (option GError))
  : cl_bool * FILE * option (option GError) :=
  match l with
  | [] => (CL_TRUE, stream, err)
  | curr_ev :: rest =>
      let '(write_status, stream') := fprintf stream (export_line opts curr_ev) in
      if write_status <? 0
      then (CL_FALSE, stream', g_set_error err CL4_ERROR_STREAM_WRITE_error)
      else export_events opts rest stream' err
  end.

(** [cl4_prof_export_info]; [opts] is the value of the static
    [export_options] at the call. *)
Definition cl4_prof_export_info (opts : CL4ProfExportOptions)
  (prof : option CL4Prof) (stream : option FILE) (err : option (option GError))
  : Ret * option FILE :=
  match prof with
  | None =>
      ({| status := CL_FALSE; prof_after := None; err_after := err;
          log := [G_CRITICAL "cl4_prof_export_info" "prof != NULL"] |}, stream)
  | Some p =>
      match stream with
      | None =>
          ({| status := CL_FALSE; prof_after := Some p; err_after := err;
              log := [G_CRITICAL "cl4_prof_export_info" "stream != NULL"] |}, None)
      | Some f =>
          match err with
          | Some (Some _) =>
              ({| status := CL_FALSE; prof_after := Some p; err_after := err;
                  log := [G_CRITICAL "cl4_prof_export_info"
                            "err == NULL || *err == NULL"] |}, Some f)
          | _ =>
              (* Sort events by START order. *)
              let evs := g_list_sort_with_data (events p)
                           (cl4_prof_event_comp CL4_PROF_EVENT_SORT_T_START) in
              (* Iterate through all events and export info to stream. *)
              let '(st, f', err') := export_events opts evs f err in
              ({| status := st; prof_after := Some (set_events evs p);
                  err_after := err'; log := [] |}, Some f')
          end
      end
  end.

(** ** Notions used to state the properties *)

(** A profile on which [cl4_prof_calc] has not run: what [cl4_prof_new]
    creates, up to the queues added and the timer. *)
Record before_calc (p : CL4Prof) : Prop := {
  bc_event_names : event_names p = None;
  bc_event_name_ids : event_name_ids p = None;
  bc_event_instants : event_instants p = [];
  bc_num_events : num_events p = 0;
  bc_events : events p = [];
  bc_aggregate : aggregate p = None;
  bc_overmat : overmat p = None;
  bc_total_events_time : total_events_time p = 0;
  bc_total_events_eff_time : total_events_eff_time p = 0;
  bc_start_time : start_time p = CL_ULONG_MAX
}.

(** The event stream of a profile: the events of its queues, in the order
    of ingestion. *)
Definition event_stream (p : CL4Prof) : list CL4Event :=
  default [] (cqueues p) ≫= snd.

(** An event as the data model has it: its start and end instants are
    64-bit values with [t_start <= t_end]. *)
Definition wf_event (evt : CL4Event) : Prop :=
  ∀ ts te,
    cl4_event_get_profiling_info evt CL_PROFILING_COMMAND_START = inr ts →
    cl4_event_get_profiling_info evt CL_PROFILING_COMMAND_END = inr te →
    0 <= ts ∧ ts <= te ∧ te < 2 ^ 64.

(** The profile on which the first two statements of [cl4_prof_calc] have
    run. *)
Definition calc_tables (p : CL4Prof) : CL4Prof :=
  set_event_names (Some ∅) (set_aggregate (Some ∅) p).

(** The final value of the local [total_overlap] of
    [cl4_prof_calc_overmat] in a call of [cl4_prof_calc] on [p]. *)
Definition calc_total_overlap (p : CL4Prof) : option cl_ulong :=
  match cl4_prof_process_queues (calc_tables p) with
  | Some (inr _, p3) =>
      match cl4_prof_calc_agg p3 with
      | Some p4 => snd <$> cl4_prof_calc_overmat p4
      | None => None
      end
  | _ => None
  end.

(** The sum of [absolute_time] over the entries of an aggregate table. *)
Definition sum_absolute_time (m : gmap string CL4ProfEventAgg) : Z :=
  foldr Z.add 0 ((λ kv, absolute_time kv.2) <$> map_to_list m).

(** The overlap of two events: the length of the intersection of their
    intervals. *)
Definition pair_overlap (e1 e2 : CL4ProfEvent) : Z :=
  Z.max 0 (Z.min (t_end e1) (t_end e2) - Z.max (t_start e1) (t_start e2)).

(** The entry [(i, j)] of the overlap matrix as the specification defines
    it: the sum of [pair_overlap] over the pairs of events whose name ids
    are [i] and [j]. *)
Fixpoint expected_overlap (names : gmap string guint) (i j : guint)
  (evs : list CL4ProfEvent) : Z :=
  match evs with
  | [] => 0
  | e :: rest =>
      foldr Z.add 0
        ((λ f,
           let u := default 0 (names !! ev_event_name e) in
           let v := default 0 (names !! ev_event_name f) in
           if bool_decide ((u = i ∧ v = j) ∨ (u = j ∧ v = i))
           then pair_overlap e f else 0) <$> rest)
      + expected_overlap names i j rest
  end.

(** Instants come in pairs in which the START is not after the END. *)
Definition wf_instants (l : list CL4ProfEventInst) : Prop :=
  ∀ s e, s ∈ l → e ∈ l →
    inst_type s = CL4_PROF_EV_START → inst_type e = CL4_PROF_EV_END →
    inst_id s = inst_id e → instant s <= instant e.

(** [a] is not earlier than [b]. *)
Definition instant_ge : relation CL4ProfEventInst :=
  λ a b, instant b <= instant a.

(** What ingestion keeps true of the list of instants. *)
Record ingest_inv (p : CL4Prof) : Prop := {
  ii_ids : ∀ x, x ∈ event_instants p → 1 <= inst_id x <= num_events p;
  ii_wf : wf_instants (event_instants p);
  ii_num : 0 <= num_events p
}.

(** The fields that ingestion does not write. *)
Record ingest_frame (p p' : CL4Prof) : Prop := {
  if_event_name_ids : event_name_ids p' = event_name_ids p;
  if_cqueues : cqueues p' = cqueues p;
  if_aggregate : aggregate p' = aggregate p;
  if_overmat : overmat p' = overmat p;
  if_total_events_time : total_events_time p' = total_events_time p;
  if_total_events_eff_time : total_events_eff_time p' = total_events_eff_time p;
  if_timer : timer p' = timer p
}.

(** What the sweep over instants sorted by [instant_ge] keeps true of its
    locals, [l] being the instants still to come. *)
Record sweep_inv (l : list CL4ProfEventInst) (st : Sweep) : Prop := {
  si_occurring : ∀ f y,
    is_Some (occurring_events st !! f) → y ∈ l →
    inst_type y = CL4_PROF_EV_END → inst_id y = f →
    ∀ z, z ∈ l → instant z <= instant y;
  si_overlaps : ∀ k1 k2 inner v,
    overlaps st !! k1 = Some inner → inner !! k2 = Some v →
    (∀ y, y ∈ l → inst_type y = CL4_PROF_EV_END →
          inst_id y = k1 ∨ inst_id y = k2 → v <= instant y) ∧
    (∀ z, z ∈ l → instant z <= v);
  si_matrix : ∀ m, overlap_matrix st = Some m → Forall (λ x, x = 0) m;
  si_total : total_overlap st = 0
}.

(** *** Sequences of calls *)

Inductive Call :=
| Call_start (now : Z)
| Call_stop (now : Z)
| Call_time_elapsed (now : Z)
| Call_add_queue (cq_name : string) (cq : option CL4CQueue)
| Call_calc (err : option (option GError))
| Call_get_eventagg (event_name : string)
| Call_print_info (now : Z) (sort : CL4ProfEventAggSort)
| Call_export_info (opts : CL4ProfExportOptions) (stream : option FILE)
    (err : option (option GError)).

(** The calls that the one-shot guard on [prof->aggregate] protects. *)
Definition is_calc_or_add_queue (c : Call) : bool :=
  match c with
  | Call_calc _ | Call_add_queue _ _ => true
  | _ => false
  end.

Definition is_calc (c : Call) : bool :=
  match c with
  | Call_calc _ => true
  | _ => false
  end.

Definition is_start (c : Call) : bool :=
  match c with
  | Call_start _ => true
  | _ => false
  end.

(** The profile after a call on it; [None] when the call runs into
    undefined behaviour. *)
Definition after_call (c : Call) (p : CL4Prof) : option CL4Prof :=
  match c with
  | Call_start now => (cl4_prof_start now (Some p)).1
  | Call_stop now => (cl4_prof_stop now (Some p)).1
  | Call_time_elapsed _ => Some p
  | Call_add_queue cq_name cq => (cl4_prof_add_queue (Some p) cq_name cq).1
  | Call_calc err =>
      match cl4_prof_calc (Some p) err with
      | Some r => prof_after r
      | None => None
      end
  | Call_get_eventagg _ => Some p
  | Call_print_info now sort =>
      match cl4_prof_print_info now (Some p) sort with
      | Some r => r.1
      | None => None
      end
  | Call_export_info opts stream err =>
      prof_after (cl4_prof_export_info opts (Some p) stream err).1
  end.

Fixpoint after_calls (cs : list Call) (p : CL4Prof) : option CL4Prof :=
  match cs with
  | [] => Some p
  | c :: rest =>
      match after_call c p with
      | None => None
      | Some p' => after_calls rest p'
      end
  end.

(** *** Concrete events and profiles *)

(** An event all of whose queries succeed. *)
Definition event_of (name : string) (tq tsub ts te : cl_ulong) : CL4Event :=
  {| cl4_event_get_final_name := name;
     cl4_event_get_profiling_info := λ kind,
       match kind with
       | CL_PROFILING_COMMAND_QUEUED => inr tq
       | CL_PROFILING_COMMAND_SUBMIT => inr tsub
       | CL_PROFILING_COMMAND_START => inr ts
       | CL_PROFILING_COMMAND_END => inr te
       end |}.

Definition info_unavailable : GError :=
  {| domain := "CL4_ERROR"; code := 1; message := "profiling info unavailable" |}.

(** An event whose START query succeeds and whose other queries fail. *)
Definition event_end_fails (name : string) (ts : cl_ulong) : CL4Event :=
  {| cl4_event_get_final_name := name;
     cl4_event_get_profiling_info := λ kind,
       match kind with
       | CL_PROFILING_COMMAND_START => inr ts
       | _ => inl info_unavailable
       end |}.

(** A new profile with one queue ["q0"] that holds the given events. *)
Definition profile_of (evts : CL4CQueue) : CL4Prof :=
  set_cqueues (Some [("q0"%string, evts)]) cl4_prof_new.

(** A stream that accepts every write. *)
Definition stdout_like : FILE := {| written := EmptyString; writes_left := None |}.

(** Scenario S3 of the specification: ["a"] at [[100, 300]] and ["b"] at
    [[200, 400]]. *)
Definition scenario_S3 : CL4Prof :=
  profile_of [event_of "a" 0 0 100 300; event_of "b" 0 0 200 400].

(** Scenario S2: two disjoint events named ["k"]. *)
Definition scenario_S2 : CL4Prof :=
  profile_of [event_of "k" 0 0 100 200; event_of "k" 0 0 300 500].

(** Scenario S6: [start_time = 1000] and one event at [[1100, 1200]]. *)
Definition scenario_S6 : CL4Prof :=
  set_start_time 1000
    (set_events [cl4_prof_event_new "k" "q0" 1100 1100 1100 1200] cl4_prof_new).

(** One event of zero duration. *)
Definition scenario_zero : CL4Prof :=
  profile_of [event_of "k" 100 100 100 100].

(** *** The event stream, event by event *)

(** The events of a profile with the name of their queue, in the order of
    ingestion. *)
Definition tagged_stream (p : CL4Prof) : list (string * CL4Event) :=
  default [] (cqueues p) ≫= (λ nq, (λ evt, (nq.1, evt)) <$> nq.2).

(** The value that a profiling query returns ([0] stands for a query that
    fails). *)
Definition info_value (evt : CL4Event) (kind : cl_profiling_info) : cl_ulong :=
  match cl4_event_get_profiling_info evt kind with
  | inr v => v
  | inl _ => 0
  end.

(** All four profiling queries of the event succeed. *)
Definition queries_ok (evt : CL4Event) : Prop :=
  ∀ kind, cl4_event_get_profiling_info evt kind = inr (info_value evt kind).

(** The record of an event: its names and the four instants queried. *)
Definition record_of (ne : string * CL4Event) : CL4ProfEvent :=
  cl4_prof_event_new (cl4_event_get_final_name ne.2) ne.1
    (info_value ne.2 CL_PROFILING_COMMAND_QUEUED)
    (info_value ne.2 CL_PROFILING_COMMAND_SUBMIT)
    (info_value ne.2 CL_PROFILING_COMMAND_START)
    (info_value ne.2 CL_PROFILING_COMMAND_END).

(** The two instants of each event of a stream, the first event having the
    id [id], the next ones the following ids. *)
Fixpoint instants_from (id : guint) (l : list (string * CL4Event))
  : list CL4ProfEventInst :=
  match l with
  | [] => []
  | ne :: rest =>
      cl4_prof_eventinst_new (cl4_event_get_final_name ne.2) ne.1 id
        (info_value ne.2 CL_PROFILING_COMMAND_START) CL4_PROF_EV_START
      :: cl4_prof_eventinst_new (cl4_event_get_final_name ne.2) ne.1 id
           (info_value ne.2 CL_PROFILING_COMMAND_END) CL4_PROF_EV_END
      :: instants_from (id + 1) rest
  end.

(** The time an event takes, as [cl4_prof_calc_agg] computes it. *)
Definition duration (evt : CL4Event) : cl_ulong :=
  u64 (info_value evt CL_PROFILING_COMMAND_END
       - info_value evt CL_PROFILING_COMMAND_START).

(** The sum of the durations of the events of a stream that have the given
    name. *)
Definition name_time (event_name : string) (l : list (string * CL4Event)) : Z :=
  foldr Z.add 0
    ((λ ne : string * CL4Event, duration ne.2)
       <$> filter (λ ne : string * CL4Event,
                     cl4_event_get_final_name ne.2 = event_name) l).

(** The sum of the durations of all the events of a stream. *)
Definition stream_time (l : list (string * CL4Event)) : Z :=
  foldr Z.add 0 ((λ ne : string * CL4Event, duration ne.2) <$> l).

(** The step of [cl4_prof_add_event] that registers an event name: a name
    not yet in the table gets the size of the table as its id. *)
Definition intern (names : option (gmap string guint)) (event_name : string)
  : option (gmap string guint) :=
  if g_hash_table_contains names event_name then names
  else g_hash_table_insert names event_name (g_hash_table_size names).

(** A table of names whose ids are the numbers below its size, each the id
    of one name. *)
Record dense_ids (m : gmap string guint) : Prop := {
  di_range : ∀ name id, m !! name = Some id → 0 <= id < Z.of_nat (size m);
  di_inj : ∀ n1 n2 id, m !! n1 = Some id → m !! n2 = Some id → n1 = n2
}.

(** The position of an instant in the order of the sort by id: events by
    id, the START of an event before its END. *)
Definition inst_key (x : CL4ProfEventInst) : Z :=
  2 * inst_id x
  + match inst_type x with
    | CL4_PROF_EV_START => 0
    | CL4_PROF_EV_END => 1
    end.

(** The order of the sort by id. *)
Definition inst_key_lt : relation CL4ProfEventInst :=
  λ a b, inst_key a < inst_key b.

(** The comparison function settles the order [R] of two elements: it lets
    [a] stay before [b] when [R a b], and puts [b] first when [R b a]. *)
Definition decides {A} (compare_func : A → A → Z) (R : relation A) (a b : A) : Prop :=
  if decide (cmp_le compare_func a b) then R a b else R b a.

(** The two loops of [cl4_prof_process_queues] as one loop over the stream
    of events. *)
Fixpoint add_events (l : list (string * CL4Event)) : ProfM unit :=
  match l with
  | [] => ret tt
  | ne :: rest => cl4_prof_add_event ne.1 ne.2 ;; add_events rest
  end.

(** *** Notions for the properties of the passes *)

(** The time added to the entry of a name by the events of a stream. *)
Definition add_name_time (event_name : string) (l : list (string * CL4Event))
  (a : CL4ProfEventAgg) : CL4ProfEventAgg :=
  {| agg_event_name := agg_event_name a;
     absolute_time := u64 (absolute_time a + name_time event_name l);
     relative_time := relative_time a |}.

(** The names of the events of a stream. *)
Definition stream_names (l : list (string * CL4Event)) : list string :=
  (λ ne, cl4_event_get_final_name ne.2) <$> l.

(** The earliest start of the events of a stream, [CL_ULONG_MAX] at most. *)
Definition earliest_start (l : list (string * CL4Event)) : cl_ulong :=
  foldl (λ s ne, Z.min (info_value ne.2 CL_PROFILING_COMMAND_START) s) CL_ULONG_MAX l.

(** The profile that [cl4_prof_process_queues] leaves when it has ingested
    the stream [l] in a call of [cl4_prof_calc]. *)
Record ingested (l : list (string * CL4Event)) (names : gmap string guint)
    (p3 : CL4Prof) : Prop := {
  in_queries : Forall (λ ne, queries_ok ne.2) l;
  in_names : foldl intern (Some ∅) (stream_names l) = Some names;
  in_event_names : event_names p3 = Some names;
  in_event_name_ids : event_name_ids p3 = Some (reverse_event_names names);
  in_events : events p3 = reverse (record_of <$> l);
  in_start_time : start_time p3 = earliest_start l;
  in_aggregate : aggregate p3 = Some ∅;
  in_overmat : overmat p3 = None;
  in_total_events_time : total_events_time p3 = 0;
  in_total_events_eff_time : total_events_eff_time p3 = 0
}.

(** The entry of a name in the table of aggregate times of a stream. *)
Definition aggregate_of (l : list (string * CL4Event)) (event_name : string)
  : CL4ProfEventAgg :=
  {| agg_event_name := event_name;
     absolute_time := u64 (name_time event_name l);
     relative_time :=
       Some (double_div (double_of_ulong (u64 (name_time event_name l)))
               (double_of_ulong (u64 (stream_time l)))) |}.

(** The result of [cl4_prof_calc] on a profile, with an error location that
    holds no error. *)
Definition calc_ret (p : CL4Prof) : Ret :=
  default {| status := CL_FALSE; prof_after := None; err_after := None; log := [] |}
    (cl4_prof_calc (Some p) (Some None)).

(** The profile that this call leaves. *)
Definition calc_prof (p : CL4Prof) : CL4Prof :=
  default cl4_prof_new (prof_after (calc_ret p)).

(** The table of overlaps holds a start for the events [a] and [b]. *)
Definition has_overlap_start (ov : gmap guint (gmap guint cl_ulong)) (a b : guint)
  : Prop :=
  ∃ inner v, ov !! Z.min a b = Some inner ∧ inner !! Z.max a b = Some v.

(** Scenario S3 with its two events in the other order. *)
Definition scenario_S3_swapped : CL4Prof :=
  profile_of [event_of "b" 0 0 200 400; event_of "a" 0 0 100 300].

(** A queue whose second event has a failing END query. *)
Definition scenario_error : CL4Prof :=
  profile_of [event_of "a" 0 0 100 300; event_end_fails "k" 50;
              event_of "b" 0 0 200 400].

(** The calls that add a queue to the profile. *)
Definition adds_queue (c : Call) : bool :=
  match c with
  | Call_add_queue _ (Some _) => true
  | _ => false
  end.

(** The text that an export writes for a list of events. *)
Definition export_text (opts : CL4ProfExportOptions) (w : string)
  (l : list CL4ProfEvent) : string :=
  foldl (λ w ev, w +:+ export_line opts ev) w l.

(** A stream that accepts [k] writes and fails from then on. *)
Definition failing_after (k : nat) : FILE :=
  {| written := EmptyString; writes_left := Some k |}.

(** The rows of the table of aggregate times among the lines printed. *)
Definition printed_rows (out : list GLog) : list (string * option double * cl_ulong) :=
  omap (λ g, match g with
             | G_PRINT (PR_AGG_ROW event_name rel abs_ns) => Some (event_name, rel, abs_ns)
             | _ => None
             end) out.

(** The row of an entry of the table of aggregate times. *)
Definition row_of (a : CL4ProfEventAgg) : string * option double * cl_ulong :=
  (agg_event_name a, relative_time a, absolute_time a).

(** [s1] is not after [s2] in the order of [strcmp]. *)
Definition strcmp_le (s1 s2 : string) : Prop := String.compare s1 s2 ≠ Gt.

(** The order in which [cl4_prof_eventagg_comp] puts the entries: by name
    in the order of [strcmp], or by time, the larger time first. *)
Definition eventagg_order (sort : CL4ProfEventAggSort) : relation CL4ProfEventAgg :=
  match sort with
  | CL4_PROF_EVENTAGG_SORT_NAME => λ a b, strcmp_le (agg_event_name a) (agg_event_name b)
  | CL4_PROF_EVENTAGG_SORT_TIME => λ a b, absolute_time b <= absolute_time a
  end.

(** * Properties *)

Ltac unfold_ingest :=
  unfold cl4_prof_add_event, mbind, mret, ProfM_bind, ProfM_ret, bind, ret,
    get, modify, query.

(** ** The sort of GLib *)

Section sort_facts.
Context {A : Type} (compare_func : A → A → Z).

Lemma g_list_sort_real_Permutation fuel (l : list A) :
  g_list_sort_real fuel compare_func l ≡ₚ l.
Proof.
  revert l. induction fuel as [|fuel IH]; intros l; cbn [g_list_sort_real]; [done|].
  destruct l as [|x [|y l']]; [done..|].
  unfold g_list_sort_merge.
  rewrite merge_Permutation, !IH. by rewrite take_drop.
Qed.

Lemma g_list_sort_with_data_Permutation (l : list A) :
  g_list_sort_with_data l compare_func ≡ₚ l.
Proof. apply g_list_sort_real_Permutation. Qed.

Lemma g_list_sort_with_data_length (l : list A) :
  length (g_list_sort_with_data l compare_func) = length l.
Proof. by rewrite g_list_sort_with_data_Permutation. Qed.

Lemma g_list_sort_real_Sorted `{!Total (cmp_le compare_func)} fuel (l : list A) :
  (length l ≤ fuel)%nat → Sorted (cmp_le compare_func) (g_list_sort_real fuel compare_func l).
Proof.
  revert l. induction fuel as [|fuel IH]; intros l Hlen; cbn [g_list_sort_real].
  { destruct l; [constructor | simpl in Hlen; lia]. }
  destruct l as [|x [|y l']]; [repeat constructor..|].
  assert (Hh : (1 ≤ length (x :: y :: l') / 2 < length (x :: y :: l'))%nat).
  { split.
    - apply Nat.div_le_lower_bound; simpl; lia.
    - apply Nat.div_lt; simpl; lia. }
  unfold g_list_sort_merge. apply Sorted_list_merge; [done|..]; apply IH.
  - rewrite length_take. lia.
  - rewrite length_drop. lia.
Qed.

Lemma g_list_sort_with_data_Sorted `{!Total (cmp_le compare_func)} (l : list A) :
  Sorted (cmp_le compare_func) (g_list_sort_with_data l compare_func).
Proof. by apply g_list_sort_real_Sorted. Qed.

End sort_facts.

Lemma CL4_PROF_CMP_le x y : CL4_PROF_CMP x y <= 0 ↔ y <= x.
Proof.
  unfold CL4_PROF_CMP.
  destruct (Z.ltb_spec x y); [lia|]. destruct (Z.gtb_spec x y); lia.
Qed.

(** Sorting by [CL4_PROF_EVENTINST_SORT_INSTANT] puts the later instants
    first. *)
Lemma sort_instant_descending (l : list CL4ProfEventInst) :
  StronglySorted instant_ge
    (g_list_sort_with_data l (cl4_prof_eventinst_comp CL4_PROF_EVENTINST_SORT_INSTANT)).
Proof.
  set (c := cl4_prof_eventinst_comp CL4_PROF_EVENTINST_SORT_INSTANT).
  assert (Hrel : ∀ a b, cmp_le c a b ↔ instant_ge a b).
  { intros a b. unfold cmp_le, c, instant_ge. simpl. apply CL4_PROF_CMP_le. }
  assert (Htot : Total (cmp_le c)).
  { intros a b. rewrite !Hrel. unfold instant_ge. lia. }
  assert (Htrans : Transitive (cmp_le c)).
  { intros a b d. rewrite !Hrel. unfold instant_ge. lia. }
  pose proof (Sorted_StronglySorted _ _ (g_list_sort_with_data_Sorted c l)) as Hs.
  revert Hs. generalize (g_list_sort_with_data l c). intros l'.
  induction 1 as [|x l'' _ IH Hx]; constructor; [done|].
  eapply Forall_impl; [exact Hx|]. intros y. apply Hrel.
Qed.

(** Sorting the events by [CL4_PROF_EVENT_SORT_T_START] puts the later
    starts first. *)
Lemma sort_t_start_descending (l : list CL4ProfEvent) :
  StronglySorted (λ a b, t_start b <= t_start a)
    (g_list_sort_with_data l (cl4_prof_event_comp CL4_PROF_EVENT_SORT_T_START)).
Proof.
  set (c := cl4_prof_event_comp CL4_PROF_EVENT_SORT_T_START).
  assert (Hrel : ∀ a b, cmp_le c a b ↔ t_start b <= t_start a).
  { intros a b. unfold cmp_le, c. simpl. apply CL4_PROF_CMP_le. }
  assert (Htot : Total (cmp_le c)).
  { intros a b. rewrite !Hrel. lia. }
  assert (Htrans : Transitive (cmp_le c)).
  { intros a b d. rewrite !Hrel. lia. }
  pose proof (Sorted_StronglySorted _ _ (g_list_sort_with_data_Sorted c l)) as Hs.
  revert Hs. generalize (g_list_sort_with_data l c). intros l'.
  induction 1 as [|x l'' _ IH Hx]; constructor; [done|].
  eapply Forall_impl; [exact Hx|]. intros y. apply Hrel.
Qed.

(** ** Ingest *)

Lemma ingest_frame_refl p : ingest_frame p p.
Proof. by constructor. Qed.

Lemma ingest_frame_trans p1 p2 p3 :
  ingest_frame p1 p2 → ingest_frame p2 p3 → ingest_frame p1 p3.
Proof. intros [] []. constructor; congruence. Qed.

(** Whatever its outcome, [cl4_prof_add_event] writes only to the event
    names, the instants, the events, [num_events] and [start_time]. *)
Lemma add_event_frame cq_name evt p x p' :
  cl4_prof_add_event cq_name evt p = (x, p') → ingest_frame p p'.
Proof.
  unfold_ingest.
  repeat (destruct (cl4_event_get_profiling_info evt _));
    destruct (g_hash_table_contains _ _); simpl;
    repeat match goal with |- context [if ?b then _ else _] => destruct b end;
    intros [= _ <-]; by constructor.
Qed.

Lemma process_queue_events_frame cq_name evts p x p' :
  process_queue_events cq_name evts p = (x, p') → ingest_frame p p'.
Proof.
  revert p. induction evts as [|evt evts IH]; intros p; simpl.
  - intros [= _ <-]. apply ingest_frame_refl.
  - unfold mbind, ProfM_bind, bind.
    destruct (cl4_prof_add_event cq_name evt p) as [[e|u] p1] eqn:H1.
    + intros [= _ <-]. eapply add_event_frame, H1.
    + intros H2. eapply ingest_frame_trans; [eapply add_event_frame, H1|].
      eapply IH, H2.
Qed.

Lemma process_queue_table_frame qs p x p' :
  process_queue_table qs p = (x, p') → ingest_frame p p'.
Proof.
  revert p. induction qs as [|[cq_name cq] qs IH]; intros p; simpl.
  - intros [= _ <-]. apply ingest_frame_refl.
  - unfold mbind, ProfM_bind, bind.
    destruct (process_queue_events cq_name cq p) as [[e|u] p1] eqn:H1.
    + intros [= _ <-]. eapply process_queue_events_frame, H1.
    + intros H2. eapply ingest_frame_trans; [eapply process_queue_events_frame, H1|].
      eapply IH, H2.
Qed.

Lemma process_queues_frame p x p' :
  cl4_prof_process_queues p = Some (x, p') →
  cqueues p' = cqueues p ∧ aggregate p' = aggregate p ∧ overmat p' = overmat p ∧
  total_events_time p' = total_events_time p ∧
  total_events_eff_time p' = total_events_eff_time p ∧ timer p' = timer p.
Proof.
  unfold cl4_prof_process_queues.
  destruct (cqueues p) as [qs|] eqn:Hq; [|done].
  destruct (process_queue_table qs p) as [[e|u] p1] eqn:H1.
  - intros [= _ <-]. apply process_queue_table_frame in H1 as []. by rewrite <- Hq.
  - destruct (event_names p1); [|done].
    intros [= _ <-]. apply process_queue_table_frame in H1 as []. by rewrite <- Hq.
Qed.

(** When [cl4_prof_add_event] returns without an error, the four queries
    have succeeded and the event is recorded in full. *)
Lemma add_event_inr cq_name evt p u p' :
  cl4_prof_add_event cq_name evt p = (inr u, p') →
  ∃ ts te tq tsub,
    cl4_event_get_profiling_info evt CL_PROFILING_COMMAND_START = inr ts ∧
    cl4_event_get_profiling_info evt CL_PROFILING_COMMAND_END = inr te ∧
    cl4_event_get_profiling_info evt CL_PROFILING_COMMAND_QUEUED = inr tq ∧
    cl4_event_get_profiling_info evt CL_PROFILING_COMMAND_SUBMIT = inr tsub ∧
    num_events p' = u32 (num_events p + 1) ∧
    event_instants p' =
      cl4_prof_eventinst_new (cl4_event_get_final_name evt) cq_name
        (num_events p') te CL4_PROF_EV_END
      :: cl4_prof_eventinst_new (cl4_event_get_final_name evt) cq_name
           (num_events p') ts CL4_PROF_EV_START
      :: event_instants p ∧
    events p' =
      cl4_prof_event_new (cl4_event_get_final_name evt) cq_name tq tsub ts te
      :: events p ∧
    start_time p' = (if ts <? start_time p then ts else start_time p).
Proof.
  unfold_ingest.
  destruct (cl4_event_get_profiling_info evt CL_PROFILING_COMMAND_START) as [?|ts];
    [done|].
  destruct (cl4_event_get_profiling_info evt CL_PROFILING_COMMAND_END) as [?|te];
    [done|].
  destruct (cl4_event_get_profiling_info evt CL_PROFILING_COMMAND_QUEUED) as [?|tq];
    [done|].
  destruct (cl4_event_get_profiling_info evt CL_PROFILING_COMMAND_SUBMIT) as [?|tsub];
    [done|].
  intros [= _ <-]. exists ts, te, tq, tsub.
  destruct (g_hash_table_contains _ _); simpl; destruct (ts <? _); simpl;
    by repeat split.
Qed.

(** C2, the claim as it is written, fails: an event whose START query
    succeeds and whose END query fails leaves its START instant in the list
    of instants (and [num_events] and [start_time] changed). *)
Lemma add_event_partial_commit :
  let evt := event_end_fails "k" 50 in
  let p := calc_tables cl4_prof_new in
  (∃ kind e, cl4_event_get_profiling_info evt kind = inl e) ∧
  ¬ (∃ e p', cl4_prof_add_event "q0" evt p = (inl e, p') ∧
       event_instants p' = event_instants p ∧ events p' = events p ∧
       num_events p' = num_events p ∧ start_time p' = start_time p).
Proof.
  split.
  - exists CL_PROFILING_COMMAND_END, info_unavailable. reflexivity.
  - intros (e & p' & Hrun & Hinst & _).
    unfold cl4_prof_add_event, mbind, mret, ProfM_bind, ProfM_ret, bind, ret,
      get, modify, query in Hrun.
    simpl in Hrun. injection Hrun as _ <-. discriminate Hinst.
Qed.

(** C2, amended: when a profiling query of an event fails,
    [cl4_prof_add_event] returns the error of the first failing query, in
    the order START, END, QUEUED, SUBMIT, and adds no event record; the
    profile stays as the writes made so far left it: [num_events] is
    incremented; when START failed the instants and [start_time] are
    untouched; when START succeeded its instant is in the list and
    [start_time] is updated; when END succeeded as well both instants are in
    the list. *)
Theorem add_event_failure cq_name evt p :
  (∃ kind e, cl4_event_get_profiling_info evt kind = inl e) →
  ∃ e p',
    cl4_prof_add_event cq_name evt p = (inl e, p') ∧
    events p' = events p ∧
    num_events p' = u32 (num_events p + 1) ∧
    match cl4_event_get_profiling_info evt CL_PROFILING_COMMAND_START with
    | inl e0 =>
        e = e0 ∧ event_instants p' = event_instants p ∧
        start_time p' = start_time p
    | inr ts =>
        let evinst_start :=
          cl4_prof_eventinst_new (cl4_event_get_final_name evt) cq_name
            (num_events p') ts CL4_PROF_EV_START in
        start_time p' = (if ts <? start_time p then ts else start_time p) ∧
        match cl4_event_get_profiling_info evt CL_PROFILING_COMMAND_END with
        | inl e1 => e = e1 ∧ event_instants p' = evinst_start :: event_instants p
        | inr te =>
            let evinst_end :=
              cl4_prof_eventinst_new (cl4_event_get_final_name evt) cq_name
                (num_events p') te CL4_PROF_EV_END in
            event_instants p' = evinst_end :: evinst_start :: event_instants p ∧
            match cl4_event_get_profiling_info evt CL_PROFILING_COMMAND_QUEUED with
            | inl e2 => e = e2
            | inr _ =>
                cl4_event_get_profiling_info evt CL_PROFILING_COMMAND_SUBMIT = inl e
            end
        end
    end.
Proof.
  intros (kind & e & Hfail).
  unfold_ingest.
  destruct (cl4_event_get_profiling_info evt CL_PROFILING_COMMAND_START)
    as [e0|ts] eqn:Hs.
  { eexists _, _. split; [reflexivity|].
    destruct (g_hash_table_contains _ _); simpl; auto. }
  destruct (cl4_event_get_profiling_info evt CL_PROFILING_COMMAND_END)
    as [e1|te] eqn:He.
  { eexists _, _. split; [reflexivity|].
    destruct (g_hash_table_contains _ _); simpl; destruct (ts <? _); simpl; auto. }
  destruct (cl4_event_get_profiling_info evt CL_PROFILING_COMMAND_QUEUED)
    as [e2|tq] eqn:Hq.
  { eexists _, _. split; [reflexivity|].
    destruct (g_hash_table_contains _ _); simpl; destruct (ts <? _); simpl; auto. }
  destruct (cl4_event_get_profiling_info evt CL_PROFILING_COMMAND_SUBMIT)
    as [e3|tsub] eqn:Hsub.
  { eexists _, _. split; [reflexivity|].
    destruct (g_hash_table_contains _ _); simpl; destruct (ts <? _); simpl; auto. }
  destruct kind; congruence.
Qed.

Lemma add_event_failure_witness :
  ∃ e p',
    cl4_prof_add_event "q0" (event_end_fails "k" 50) (calc_tables cl4_prof_new)
      = (inl e, p') ∧
    events p' = [] ∧ num_events p' = 1.
Proof.
  destruct (add_event_failure "q0" (event_end_fails "k" 50)
              (calc_tables cl4_prof_new)) as (e & p' & Hrun & Hev & Hnum & _).
  - exists CL_PROFILING_COMMAND_END, info_unavailable. reflexivity.
  - exists e, p'. split; [exact Hrun|]. split; [exact Hev | exact Hnum].
Defined.

(** ** The guards of the public functions *)

Lemma calc_agg_frame p p' :
  cl4_prof_calc_agg p = Some p' →
  event_names p' = event_names p ∧ cqueues p' = cqueues p ∧
  events p' = events p ∧ overmat p' = overmat p ∧ timer p' = timer p ∧
  start_time p' = start_time p ∧ is_Some (aggregate p').
Proof.
  unfold cl4_prof_calc_agg. destruct (event_names p) eqn:Hn; [|done].
  destruct (agg_intervals _ _ _) as [[[m|] total]|]; [|done..].
  intros [= <-]. simpl. repeat split; by eauto.
Qed.

Lemma calc_overmat_frame p p' ov :
  cl4_prof_calc_overmat p = Some (p', ov) →
  event_names p' = event_names p ∧ cqueues p' = cqueues p ∧
  events p' = events p ∧ aggregate p' = aggregate p ∧ timer p' = timer p ∧
  start_time p' = start_time p ∧ total_events_time p' = total_events_time p.
Proof.
  unfold cl4_prof_calc_overmat. destruct (sweep _ _ _ _); [|done].
  intros [= <- _]. simpl. by repeat split.
Qed.

(** A second [cl4_prof_calc] is turned away by the guard on
    [prof->aggregate]; the profile is left as it is. *)
Lemma calc_rejected p m err :
  aggregate p = Some m → (err = None ∨ err = Some None) →
  cl4_prof_calc (Some p) err =
    Some {| status := CL_FALSE; prof_after := Some p; err_after := err;
            log := [G_CRITICAL "cl4_prof_calc" "prof->aggregate == NULL"] |}.
Proof. intros Hm [-> | ->]; unfold cl4_prof_calc; by rewrite Hm. Qed.

(** [cl4_prof_add_queue] after [cl4_prof_calc] is turned away by the same
    guard. *)
Lemma add_queue_rejected p m cq_name q :
  aggregate p = Some m →
  cl4_prof_add_queue (Some p) cq_name (Some q) =
    (Some p, [G_CRITICAL "cl4_prof_add_queue" "prof->aggregate == NULL"]).
Proof. intros Hm. unfold cl4_prof_add_queue. by rewrite Hm. Qed.

Lemma after_call_guarded p m c :
  aggregate p = Some m → is_calc_or_add_queue c = true → after_call c p = Some p.
Proof.
  intros Hm. destruct c as [| | |cq_name [q|]|err| | |]; try done; intros _; simpl.
  - unfold cl4_prof_add_queue. by rewrite Hm.
  - unfold cl4_prof_calc. rewrite Hm. by destruct err as [[e|]|].
Qed.

(** C9: [cl4_prof_calc] is one-shot even when it fails.  The table
    [aggregate] is created before the queues are processed, so after a call
    that returns [CL_FALSE] (for instance because a profiling query failed),
    every later [cl4_prof_calc] and every later [cl4_prof_add_queue] is
    turned away by the guard [prof->aggregate == NULL] and leaves the
    profile as the failed call left it: there is no retry. *)
Theorem calc_failure_is_final p err r :
  (err = None ∨ err = Some None) →
  cl4_prof_calc (Some p) err = Some r → status r = CL_FALSE →
  ∃ p',
    prof_after r = Some p' ∧ is_Some (aggregate p') ∧
    (∀ err', err' = None ∨ err' = Some None →
       cl4_prof_calc (Some p') err' =
         Some {| status := CL_FALSE; prof_after := Some p'; err_after := err';
                 log := [G_CRITICAL "cl4_prof_calc" "prof->aggregate == NULL"] |}) ∧
    (∀ cq_name q,
       cl4_prof_add_queue (Some p') cq_name (Some q) =
         (Some p', [G_CRITICAL "cl4_prof_add_queue" "prof->aggregate == NULL"])) ∧
    (∀ cs, forallb is_calc_or_add_queue cs = true → after_calls cs p' = Some p').
Proof.
  intros Herr Hcalc Hst.
  assert (∃ p' m, prof_after r = Some p' ∧ aggregate p' = Some m) as (p' & m & Hp' & Hm).
  { destruct (aggregate p) as [m|] eqn:Hagg.
    { rewrite (calc_rejected _ _ _ Hagg Herr) in Hcalc. injection Hcalc as <-.
      by exists p, m. }
    unfold cl4_prof_calc in Hcalc. rewrite Hagg in Hcalc.
    assert (Hbody :
      match cl4_prof_process_queues (calc_tables p) with
      | None => None
      | Some (inl err_internal, p3) =>
          Some {| status := CL_FALSE; prof_after := Some p3;
                  err_after := g_propagate_error err err_internal; log := [] |}
      | Some (inr _, p3) =>
          match cl4_prof_calc_agg p3 with
          | None => None
          | Some p4 =>
              match cl4_prof_calc_overmat p4 with
              | None => None
              | Some (p5, _) =>
                  Some {| status := CL_TRUE; prof_after := Some p5;
                          err_after := err; log := [] |}
              end
          end
      end = Some r) by (destruct Herr as [-> | ->]; exact Hcalc).
    clear Hcalc.
    destruct (cl4_prof_process_queues (calc_tables p)) as [[[e|u] p3]|] eqn:Hq;
      [| |done].
    - injection Hbody as <-. exists p3, ∅. split; [done|].
      apply process_queues_frame in Hq as (_ & -> & _). done.
    - destruct (cl4_prof_calc_agg p3); [|done].
      destruct (cl4_prof_calc_overmat _) as [[p5 ov]|]; [|done].
      injection Hbody as <-. discriminate Hst. }
  exists p'. split; [done|]. split; [by rewrite Hm|].
  split; [|split].
  - intros err' Herr'. by eapply calc_rejected.
  - intros cq_name q. by eapply add_queue_rejected.
  - intros cs. induction cs as [|c cs IH]; simpl; [done|].
    intros [Hc Hcs]%andb_prop.
    rewrite (after_call_guarded _ _ _ Hm Hc). by apply IH.
Qed.

Lemma calc_failure_is_final_witness :
  ∃ p', is_Some (aggregate p') ∧
        after_calls [Call_calc (Some None); Call_add_queue "q1" (Some [])] p' = Some p'.
Proof.
  destruct (calc_failure_is_final (profile_of [event_end_fails "k" 50]) (Some None)
              {| status := CL_FALSE;
                 prof_after :=
                   match cl4_prof_calc (Some (profile_of [event_end_fails "k" 50]))
                           (Some None) with
                   | Some r => prof_after r
                   | None => None
                   end;
                 err_after := Some (Some info_unavailable);
                 log := [] |})
    as (p' & _ & Hagg & _ & _ & Hcalls).
  - right. reflexivity.
  - vm_compute. reflexivity.
  - reflexivity.
  - exists p'. split; [exact Hagg|]. apply Hcalls. reflexivity.
Defined.

(** ** The timer *)

Lemma calc_timer p err r :
  cl4_prof_calc (Some p) err = Some r →
  ∃ p', prof_after r = Some p' ∧ timer p' = timer p.
Proof.
  unfold cl4_prof_calc.
  assert (Hbody : ∀ r,
    match aggregate p with
    | Some _ =>
        Some {| status := CL_FALSE; prof_after := Some p; err_after := err;
                log := [G_CRITICAL "cl4_prof_calc" "prof->aggregate == NULL"] |}
    | None =>
        match cl4_prof_process_queues (calc_tables p) with
        | None => None
        | Some (inl err_internal, p3) =>
            Some {| status := CL_FALSE; prof_after := Some p3;
                    err_after := g_propagate_error err err_internal; log := [] |}
        | Some (inr _, p3) =>
            match cl4_prof_calc_agg p3 with
            | None => None
            | Some p4 =>
                match cl4_prof_calc_overmat p4 with
                | None => None
                | Some (p5, _) =>
                    Some {| status := CL_TRUE; prof_after := Some p5;
                            err_after := err; log := [] |}
                end
            end
        end
    end = Some r → ∃ p', prof_after r = Some p' ∧ timer p' = timer p).
  { intros r'. destruct (aggregate p).
    { intros [= <-]. by exists p. }
    destruct (cl4_prof_process_queues (calc_tables p)) as [[[e|u] p3]|] eqn:Hq;
      [| |done].
    - intros [= <-]. exists p3. split; [done|].
      by apply process_queues_frame in Hq as (_ & _ & _ & _ & _ & ->).
    - destruct (cl4_prof_calc_agg p3) as [p4|] eqn:Ha; [|done].
      destruct (cl4_prof_calc_overmat p4) as [[p5 ov]|] eqn:Ho; [|done].
      intros [= <-]. exists p5. split; [done|].
      apply calc_overmat_frame in Ho as (_ & _ & _ & _ & -> & _).
      apply calc_agg_frame in Ha as (_ & _ & _ & _ & -> & _).
      by apply process_queues_frame in Hq as (_ & _ & _ & _ & _ & ->). }
  destruct err as [[e|]|]; [|apply Hbody..].
  intros [= <-]. by exists p.
Qed.

Lemma after_call_timer c p p' :
  after_call c p = Some p' →
  is_Some (timer p') ↔ is_start c = true ∨ is_Some (timer p).
Proof.
  destruct c as [now|now|now|cq_name cq|err|name|now sort|opts stream err];
    unfold after_call.
  - intros [= <-]. simpl. split; [by left | by eauto].
  - simpl. destruct (timer p) as [t|] eqn:Ht; intros [= <-]; simpl.
    + split; [by right; eauto | by eauto].
    + rewrite Ht. split; [by right | by intros [|]].
  - intros [= <-]. split; [by right | by intros [|]].
  - simpl. destruct cq as [q|]; [destruct (aggregate p)|]; intros [= <-]; simpl;
      (split; [by right | by intros [|]]).
  - destruct (cl4_prof_calc (Some p) err) as [r|] eqn:Hc; [|done].
    intros Hr. apply calc_timer in Hc as (p'' & Hp'' & Ht).
    rewrite Hp'' in Hr. injection Hr as <-. rewrite Ht.
    split; [by right | by intros [|]].
  - intros [= <-]. split; [by right | by intros [|]].
  - unfold cl4_prof_print_info.
    destruct (overlap_rows _ _); [|done]. simpl. intros [= <-].
    split; [by right | by intros [|]].
  - unfold cl4_prof_export_info.
    destruct stream as [f|]; [destruct err as [[e|]|]|]; simpl;
      try destruct (export_events _ _ _ _) as [[st f'] err']; simpl;
      intros [= <-]; (split; [by right | by intros [|]]).
Qed.

Lemma after_calls_timer cs p p' :
  after_calls cs p = Some p' →
  is_Some (timer p') ↔ existsb is_start cs = true ∨ is_Some (timer p).
Proof.
  revert p. induction cs as [|c cs IH]; intros p; simpl.
  - intros [= <-]. split; [by right | by intros [|]].
  - destruct (after_call c p) as [p1|] eqn:Hc; [|done].
    intros H. rewrite (IH _ H), (after_call_timer _ _ _ Hc).
    rewrite orb_true_iff. tauto.
Qed.

(** C10: [cl4_prof_stop] and [cl4_prof_time_elapsed] need an earlier
    [cl4_prof_start].  On a profile reached from [cl4_prof_new] by any calls,
    when [cl4_prof_start] is among them the timer is not [NULL] and both
    functions work on it without any guard tripping; when it is not, the
    timer is [NULL] and both functions hand the [NULL] timer to GLib, whose
    own guard [timer != NULL] trips: neither function checks it. *)
Theorem timer_needs_start cs p :
  after_calls cs cl4_prof_new = Some p →
  (existsb is_start cs = true →
     ∃ t, timer p = Some t ∧
       ∀ now,
         cl4_prof_stop now (Some p) =
           (Some (set_timer (Some (g_timer_stop now t)) p), []) ∧
         cl4_prof_time_elapsed now (Some p) = (g_timer_elapsed now t, [])) ∧
  (existsb is_start cs = false →
     timer p = None ∧
       ∀ now,
         cl4_prof_stop now (Some p) =
           (Some p, [G_CRITICAL "g_timer_stop" "timer != NULL"]) ∧
         cl4_prof_time_elapsed now (Some p) =
           (S754_zero false, [G_CRITICAL "g_timer_elapsed" "timer != NULL"])).
Proof.
  intros Hrun. apply after_calls_timer in Hrun. simpl in Hrun. split.
  - intros Hs. destruct (proj2 Hrun (or_introl Hs)) as [t Ht].
    exists t. split; [done|]. intros now.
    unfold cl4_prof_stop, cl4_prof_time_elapsed. by rewrite Ht.
  - intros Hs. destruct (timer p) as [t|] eqn:Ht.
    + destruct (proj1 Hrun (ex_intro _ t eq_refl)) as [Hs'|[? ?]]; congruence.
    + split; [done|]. intros now.
      unfold cl4_prof_stop, cl4_prof_time_elapsed. by rewrite Ht.
Qed.

Lemma timer_needs_start_witness :
  (∃ t, timer (set_timer (Some (g_timer_new 7)) cl4_prof_new) = Some t) ∧
  timer (profile_of []) = None.
Proof.
  split.
  - destruct (timer_needs_start [Call_start 7]
                (set_timer (Some (g_timer_new 7)) cl4_prof_new)) as [Hs _].
    + reflexivity.
    + destruct (Hs eq_refl) as (t & Ht & _). exists t. exact Ht.
  - destruct (timer_needs_start [Call_add_queue "q0" (Some [])] (profile_of []))
      as [_ Hn].
    + reflexivity.
    + exact (proj1 (Hn eq_refl)).
Defined.

(** ** Reporting before the calculation *)

(** On a profile on which [cl4_prof_calc] has not run,
    [cl4_prof_print_info] is not turned away: it prints the banner and, when
    the timer was started, the elapsed time; the [NULL] tables only trip the
    guards of [g_hash_table_size].  The profile is left as it is. *)
Lemma print_info_before_calc now p sort :
  before_calc p →
  cl4_prof_print_info now (Some p) sort =
    Some (Some p,
          [G_PRINT PR_BANNER]
          ++ match timer p with
             | Some t => [G_PRINT (PR_ELAPSED (g_timer_elapsed now t))]
             | None => []
             end
          ++ [G_CRITICAL "g_hash_table_size" "hash_table != NULL";
              G_CRITICAL "g_hash_table_size" "hash_table != NULL"]).
Proof.
  intros [Hn Hi _ _ _ Ha _ Ht _ _].
  unfold cl4_prof_print_info, overlap_rows. rewrite Hn, Hi, Ha, Ht. simpl.
  by destruct (timer p).
Qed.

(** C8 at the failing input: [cl4_prof_print_info] on a new profile whose
    timer was started, before any [cl4_prof_calc].  The call is not turned
    away by a precondition: it prints two lines. *)
Theorem print_info_before_calc_prints :
  let p := set_timer (Some (g_timer_new 0)) cl4_prof_new in
  (cl4_prof_start 0 (Some cl4_prof_new)).1 = Some p ∧
  aggregate p = None ∧
  cl4_prof_print_info 5 (Some p) CL4_PROF_EVENTAGG_SORT_NAME =
    Some (Some p,
          [G_PRINT PR_BANNER;
           G_PRINT (PR_ELAPSED (g_timer_elapsed 5 (g_timer_new 0)));
           G_CRITICAL "g_hash_table_size" "hash_table != NULL";
           G_CRITICAL "g_hash_table_size" "hash_table != NULL"]).
Proof. repeat split. Qed.

(** ** Export *)

(** C3 at the failing input, scenario S6 with the default options
    ([zero_start] is [CL_TRUE]): the line written holds the absolute
    instants [1100] and [1200], not [100] and [200].  The same holds on the
    profile that [cl4_prof_calc] builds from one event at [[1100, 1200]],
    whose [start_time] is [1100]. *)
Theorem export_ignores_zero_start :
  zero_start export_options = CL_TRUE ∧
  start_time scenario_S6 = 1000 ∧
  (∃ r f,
     cl4_prof_export_info export_options (Some scenario_S6) (Some stdout_like)
       (Some None) = (r, Some f) ∧
     status r = CL_TRUE ∧
     written f = "q0" +:+ tab +:+ "1100" +:+ tab +:+ "1200" +:+ tab +:+ "k" +:+ lf ∧
     written f ≠ "q0" +:+ tab +:+ "100" +:+ tab +:+ "200" +:+ tab +:+ "k" +:+ lf) ∧
  (∃ r p r' f,
     cl4_prof_calc (Some (profile_of [event_of "k" 1100 1100 1100 1200])) (Some None)
       = Some r ∧
     status r = CL_TRUE ∧ prof_after r = Some p ∧ start_time p = 1100 ∧
     cl4_prof_export_info export_options (Some p) (Some stdout_like) (Some None)
       = (r', Some f) ∧
     written f = "q0" +:+ tab +:+ "1100" +:+ tab +:+ "1200" +:+ tab +:+ "k" +:+ lf).
Proof.
  split; [reflexivity|]. split; [reflexivity|]. split.
  - eexists _, _. split; [vm_compute; reflexivity|].
    split; [reflexivity|]. split; [reflexivity|]. discriminate.
  - eexists _, _, _, _. split; [vm_compute; reflexivity|].
    split; [reflexivity|]. split; [reflexivity|]. split; [reflexivity|].
    split; [vm_compute; reflexivity|]. reflexivity.
Qed.

(** The lines of an export are those of the events in the order in which
    [cl4_prof_export_info] has sorted them. *)
Lemma export_events_unlimited opts l f err :
  writes_left f = None →
  export_events opts l f err =
    (CL_TRUE,
     {| written := foldl (λ w ev, w +:+ export_line opts ev) (written f) l;
        writes_left := None |},
     err).
Proof.
  revert f. induction l as [|ev l IH]; intros [w q] Hq; simpl in *; subst q.
  - done.
  - unfold fprintf. simpl.
    destruct (Z.ltb_spec (Z.of_nat (String.length (export_line opts ev))) 0); [lia|].
    by rewrite IH.
Qed.

(** C4 at the failing input, scenario S3 after [cl4_prof_calc]: one line per
    event is written, but the event that starts at [200] comes before the
    one that starts at [100]. *)
Theorem export_order_descending :
  ∃ r p r' f,
    cl4_prof_calc (Some scenario_S3) (Some None) = Some r ∧
    status r = CL_TRUE ∧ prof_after r = Some p ∧
    t_start <$> events p = [200; 100] ∧
    cl4_prof_export_info export_options (Some p) (Some stdout_like) (Some None)
      = (r', Some f) ∧
    status r' = CL_TRUE ∧
    written f =
      ("q0" +:+ tab +:+ "200" +:+ tab +:+ "400" +:+ tab +:+ "b" +:+ lf)
      +:+ ("q0" +:+ tab +:+ "100" +:+ tab +:+ "300" +:+ tab +:+ "a" +:+ lf).
Proof.
  eexists _, _, _, _. split; [vm_compute; reflexivity|].
  split; [reflexivity|]. split; [reflexivity|]. split; [reflexivity|].
  split; [vm_compute; reflexivity|]. split; reflexivity.
Qed.

(** ** Aggregate statistics *)

Lemma sum_Permutation (l1 l2 : list Z) :
  l1 ≡ₚ l2 → foldr Z.add 0 l1 = foldr Z.add 0 l2.
Proof. induction 1; simpl; lia. Qed.

Lemma sum_absolute_time_empty : sum_absolute_time ∅ = 0.
Proof. unfold sum_absolute_time. by rewrite map_to_list_empty. Qed.

Lemma sum_absolute_time_insert_fresh (m : gmap string CL4ProfEventAgg) k a :
  m !! k = None →
  sum_absolute_time (<[k := a]> m) = absolute_time a + sum_absolute_time m.
Proof.
  intros Hk. unfold sum_absolute_time.
  erewrite sum_Permutation; [|by rewrite map_to_list_insert]. done.
Qed.

Lemma sum_absolute_time_insert (m : gmap string CL4ProfEventAgg) k a a0 :
  m !! k = Some a0 →
  sum_absolute_time (<[k := a]> m)
  = sum_absolute_time m - absolute_time a0 + absolute_time a.
Proof.
  intros Hk.
  rewrite <- (insert_delete_eq m k a).
  rewrite <- (insert_delete_id m k a0 Hk) at 2.
  rewrite !sum_absolute_time_insert_fresh by apply lookup_delete_eq. lia.
Qed.

Lemma sum_absolute_time_fmap (f : CL4ProfEventAgg → CL4ProfEventAgg)
  (m : gmap string CL4ProfEventAgg) :
  (∀ a, absolute_time (f a) = absolute_time a) →
  sum_absolute_time (f <$> m) = sum_absolute_time m.
Proof.
  intros Hf. unfold sum_absolute_time.
  erewrite sum_Permutation; [|by rewrite map_to_list_fmap].
  rewrite <- list_fmap_compose. f_equal. apply list_fmap_ext.
  intros i [k a] _. simpl. apply Hf.
Qed.

Lemma sum_nonneg (l : list Z) : Forall (λ x, 0 <= x) l → 0 <= foldr Z.add 0 l.
Proof. induction 1; simpl; lia. Qed.

Lemma sum_absolute_time_nonneg (m : gmap string CL4ProfEventAgg) :
  (∀ k a, m !! k = Some a → 0 <= absolute_time a) → 0 <= sum_absolute_time m.
Proof.
  intros Hm. apply sum_nonneg, Forall_fmap, Forall_forall.
  intros [k a] Hin. simpl. apply (Hm k a). by apply elem_of_map_to_list.
Qed.

Lemma sum_absolute_time_zero (m : gmap string CL4ProfEventAgg) :
  (∀ k a, m !! k = Some a → absolute_time a = 0) → sum_absolute_time m = 0.
Proof.
  intros Hm. unfold sum_absolute_time.
  assert (Hl : Forall (λ x, x = 0)
                 ((λ kv : string * CL4ProfEventAgg, absolute_time kv.2)
                    <$> map_to_list m)).
  { apply Forall_fmap, Forall_forall. intros [k a] Hin. simpl.
    apply (Hm k a). by apply elem_of_map_to_list. }
  induction Hl as [|x l -> _ IH]; simpl; [done | exact IH].
Qed.

Lemma u64_range z : 0 <= u64 z < 2 ^ 64.
Proof. unfold u64. apply Z.mod_pos_bound. lia. Qed.

Lemma u64_small z : 0 <= z < 2 ^ 64 → u64 z = z.
Proof. unfold u64. apply Z.mod_small. Qed.

Lemma u64_add_u64_l x y : u64 (u64 x + y) = u64 (x + y).
Proof. unfold u64. apply Zplus_mod_idemp_l. Qed.

Lemma u64_add_u64_r x y : u64 (x + u64 y) = u64 (x + y).
Proof. unfold u64. apply Zplus_mod_idemp_r. Qed.

(** The first loop of [cl4_prof_calc_agg] leaves a table of zeroes. *)
Lemma init_aggregate_zero names (m : gmap string CL4ProfEventAgg) :
  (∀ k a, m !! k = Some a → absolute_time a = 0) →
  ∃ m', init_aggregate names (Some m) = Some m' ∧
        ∀ k a, m' !! k = Some a → absolute_time a = 0.
Proof.
  unfold init_aggregate. generalize (map_to_list names). intros kvs.
  revert m. induction kvs as [|[k v] kvs IH]; intros m Hm; simpl; [by eauto|].
  apply IH. intros k' a. rewrite lookup_insert. case_decide.
  - by intros [= <-].
  - apply Hm.
Qed.

(** The second loop keeps the sum of the entries equal, modulo [2^64], to
    the total. *)
Lemma agg_intervals_sum l (m : gmap string CL4ProfEventAgg) total agg' total' :
  agg_intervals l (Some m) total = Some (agg', total') →
  (∀ k a, m !! k = Some a → 0 <= absolute_time a) →
  u64 (sum_absolute_time m) = total →
  ∃ m', agg' = Some m' ∧
        (∀ k a, m' !! k = Some a → 0 <= absolute_time a) ∧
        u64 (sum_absolute_time m') = total'.
Proof.
  revert m total.
  induction l as [l IH] using (induction_ltof1 _ (@length _)); unfold ltof in IH.
  intros m total Hrun Hpos Hsum.
  destruct l as [|s [|e rest]]; simpl in Hrun; [|done|].
  { injection Hrun as <- <-. by eauto. }
  destruct (m !! inst_event_name e) as [a0|] eqn:Ha; [|done].
  eapply IH in Hrun; [exact Hrun | simpl; lia | |].
  - intros k a. rewrite lookup_insert. case_decide.
    + intros [= <-]. simpl. apply u64_range.
    + apply Hpos.
  - rewrite (sum_absolute_time_insert _ _ _ _ Ha). simpl. rewrite <- Hsum.
    set (d := u64 (instant e - instant s)).
    rewrite u64_add_u64_l.
    replace (sum_absolute_time m - absolute_time a0 + u64 (absolute_time a0 + d))
      with ((sum_absolute_time m - absolute_time a0) + u64 (absolute_time a0 + d))
      by lia.
    rewrite u64_add_u64_r. f_equal. lia.
Qed.

(** A successful [cl4_prof_calc] has run its three passes. *)
Lemma calc_success p err r p' :
  cl4_prof_calc (Some p) err = Some r → status r = CL_TRUE →
  prof_after r = Some p' →
  aggregate p = None ∧
  ∃ u p3 p4 ov,
    cl4_prof_process_queues (calc_tables p) = Some (inr u, p3) ∧
    cl4_prof_calc_agg p3 = Some p4 ∧
    cl4_prof_calc_overmat p4 = Some (p', ov).
Proof.
  unfold cl4_prof_calc. intros Hcalc Hst Hp'.
  assert (Hno : ∀ x, Some {| status := CL_FALSE; prof_after := Some p;
                               err_after := err; log := x |} = Some r → False).
  { intros x [= <-]. discriminate Hst. }
  destruct err as [[e|]|]; [exfalso; by eapply Hno|..];
    (destruct (aggregate p); [exfalso; by eapply Hno|];
     split; [done|];
     change (set_event_names (Some ∅) (set_aggregate (Some ∅) p))
       with (calc_tables p) in Hcalc;
     destruct (cl4_prof_process_queues (calc_tables p)) as [[[e|u] p3]|];
       [injection Hcalc as <-; discriminate Hst | | done];
     destruct (cl4_prof_calc_agg p3) as [p4|] eqn:Ha; [|done];
     destruct (cl4_prof_calc_overmat p4) as [[p5 ov]|] eqn:Ho; [|done];
     injection Hcalc as <-; simpl in Hp'; injection Hp' as <-;
     by exists u, p3, p4, ov).
Qed.

(** The last loop of [cl4_prof_calc_agg] writes every [relative_time]. *)
Lemma calc_agg_relative p p' :
  cl4_prof_calc_agg p = Some p' →
  ∃ m,
    agg_intervals
      (g_list_sort_with_data (event_instants p)
         (cl4_prof_eventinst_comp CL4_PROF_EVENTINST_SORT_ID))
      (init_aggregate (default ∅ (event_names p)) (aggregate p))
      (total_events_time p) = Some (Some m, total_events_time p') ∧
    aggregate p' = Some (set_relative_time (total_events_time p') <$> m).
Proof.
  unfold cl4_prof_calc_agg. destruct (event_names p) as [names|]; [|done]. simpl.
  destruct (agg_intervals _ _ _) as [[[m|] total]|]; [|done..].
  intros [= <-]. simpl. by exists m.
Qed.

(** [cl4_prof_calc_agg] on the tables that [cl4_prof_calc] has created:
    the times of the entries sum up, modulo [2^64], to the total. *)
Lemma calc_agg_sum p p4 :
  aggregate p = Some ∅ → total_events_time p = 0 →
  cl4_prof_calc_agg p = Some p4 →
  ∃ m1,
    aggregate p4 = Some (set_relative_time (total_events_time p4) <$> m1) ∧
    (∀ k a, m1 !! k = Some a → 0 <= absolute_time a) ∧
    u64 (sum_absolute_time m1) = total_events_time p4.
Proof.
  intros Hagg Htot Ha.
  apply calc_agg_relative in Ha as (m1 & Hrun & ->).
  rewrite Hagg, Htot in Hrun.
  destruct (init_aggregate_zero (default ∅ (event_names p)) ∅) as (m0 & Hm0 & Hz).
  { intros k a. by rewrite lookup_empty. }
  rewrite Hm0 in Hrun.
  eapply agg_intervals_sum in Hrun as (m' & [= <-] & Hpos & Hsum).
  - by exists m1.
  - intros k a Hk. rewrite (Hz _ _ Hk). lia.
  - by rewrite (sum_absolute_time_zero _ Hz).
Qed.

Lemma calc_agg_instants p p' :
  cl4_prof_calc_agg p = Some p' → event_instants p' ≡ₚ event_instants p.
Proof.
  unfold cl4_prof_calc_agg. destruct (event_names p); [|done].
  destruct (agg_intervals _ _ _) as [[[m|] total]|]; [|done..].
  intros [= <-]. simpl. apply g_list_sort_with_data_Permutation.
Qed.

(** C6: after a successful [cl4_prof_calc] on a profile not yet
    calculated, whatever the events, the sum of [absolute_time] over the
    entries of the aggregate table equals [total_events_time], the sum being
    a [cl_ulong] like its terms (so taken modulo [2^64]); when the sum of the
    entries fits in 64 bits the two are equal as integers. *)
Theorem aggregate_sum_is_total p err r p' :
  before_calc p →
  cl4_prof_calc (Some p) err = Some r → status r = CL_TRUE →
  prof_after r = Some p' →
  ∃ m,
    aggregate p' = Some m ∧
    u64 (sum_absolute_time m) = total_events_time p' ∧
    (sum_absolute_time m < 2 ^ 64 → sum_absolute_time m = total_events_time p').
Proof.
  intros Hbc Hcalc Hst Hp'.
  destruct (calc_success _ _ _ _ Hcalc Hst Hp')
    as (_ & u & p3 & p4 & ov & Hq & Ha & Ho).
  apply process_queues_frame in Hq as (_ & Hagg3 & _ & Htot3 & _).
  simpl in Hagg3, Htot3. rewrite (bc_total_events_time _ Hbc) in Htot3.
  apply calc_overmat_frame in Ho as (_ & _ & _ & -> & _ & _ & ->).
  destruct (calc_agg_sum _ _ Hagg3 Htot3 Ha) as (m1 & -> & Hpos & Hsum).
  exists (set_relative_time (total_events_time p4) <$> m1).
  split; [done|].
  rewrite (sum_absolute_time_fmap (set_relative_time (total_events_time p4)) m1
             (λ _, eq_refl)).
  split; [done|]. intros Hlt. rewrite <- Hsum. symmetry. apply u64_small.
  split; [by apply sum_absolute_time_nonneg | done].
Qed.

Lemma aggregate_sum_is_total_witness :
  ∃ p' m, aggregate p' = Some m ∧ u64 (sum_absolute_time m) = total_events_time p'.
Proof.
  destruct (aggregate_sum_is_total scenario_S3 (Some None)
              {| status := CL_TRUE;
                 prof_after :=
                   match cl4_prof_calc (Some scenario_S3) (Some None) with
                   | Some r => prof_after r
                   | None => None
                   end;
                 err_after := Some None;
                 log := [] |}
              (default cl4_prof_new
                 match cl4_prof_calc (Some scenario_S3) (Some None) with
                 | Some r => prof_after r
                 | None => None
                 end))
    as (m & Hm & Hsum & _).
  - by constructor.
  - vm_compute. reflexivity.
  - reflexivity.
  - vm_compute. reflexivity.
  - eexists _, m. split; [exact Hm | exact Hsum].
Defined.

(** C7, the claim as it is written, fails: for one event of zero duration
    [total_events_time] is [0] and the [relative_time] of its entry is the
    quotient [0.0 / 0.0], a NaN, not zero. *)
Lemma relative_time_nan :
  ∃ r p m a,
    cl4_prof_calc (Some scenario_zero) (Some None) = Some r ∧
    status r = CL_TRUE ∧ prof_after r = Some p ∧
    total_events_time p = 0 ∧ aggregate p = Some m ∧
    m !! "k"%string = Some a ∧
    relative_time a = Some S754_nan ∧
    relative_time a ≠ Some (S754_zero false) ∧
    relative_time a ≠ Some (S754_zero true).
Proof.
  eexists _, _, _, _. split; [vm_compute; reflexivity|].
  split; [reflexivity|]. split; [reflexivity|]. split; [reflexivity|].
  split; [reflexivity|]. split; [vm_compute; reflexivity|].
  split; [reflexivity|]. split; discriminate.
Qed.

(** C7, amended: after a successful [cl4_prof_calc], the [relative_time] of
    every entry of the aggregate table is the quotient, in double precision,
    of its [absolute_time] by [total_events_time]; the division has no
    guard. *)
Theorem relative_time_is_quotient p err r p' :
  cl4_prof_calc (Some p) err = Some r → status r = CL_TRUE →
  prof_after r = Some p' →
  ∃ m,
    aggregate p' = Some m ∧
    ∀ event_name a,
      m !! event_name = Some a →
      relative_time a =
        Some (double_div (double_of_ulong (absolute_time a))
                (double_of_ulong (total_events_time p'))).
Proof.
  intros Hcalc Hst Hp'.
  destruct (calc_success _ _ _ _ Hcalc Hst Hp')
    as (_ & u & p3 & p4 & ov & _ & Ha & Ho).
  apply calc_overmat_frame in Ho as (_ & _ & _ & -> & _ & _ & ->).
  apply calc_agg_relative in Ha as (m1 & _ & ->).
  eexists. split; [done|].
  intros event_name a. rewrite lookup_fmap.
  destruct (m1 !! event_name) as [a1|]; [|done]. by intros [= <-].
Qed.

Lemma relative_time_is_quotient_witness :
  ∃ p' m a,
    aggregate p' = Some m ∧ m !! "a"%string = Some a ∧
    relative_time a =
      Some (double_div (double_of_ulong (absolute_time a))
              (double_of_ulong (total_events_time p'))).
Proof.
  destruct (relative_time_is_quotient scenario_S3 (Some None)
              {| status := CL_TRUE;
                 prof_after :=
                   match cl4_prof_calc (Some scenario_S3) (Some None) with
                   | Some r => prof_after r
                   | None => None
                   end;
                 err_after := Some None;
                 log := [] |}
              (default cl4_prof_new
                 match cl4_prof_calc (Some scenario_S3) (Some None) with
                 | Some r => prof_after r
                 | None => None
                 end))
    as (m & Hm & Hrel).
  - vm_compute. reflexivity.
  - reflexivity.
  - vm_compute. reflexivity.
  - destruct (m !! "a"%string) as [a|] eqn:Ha.
    + eexists _, m, a. split; [exact Hm|]. split; [exact Ha|]. exact (Hrel _ _ Ha).
    + exfalso. revert Ha. vm_compute in Hm. injection Hm as <-. vm_compute. discriminate.
Defined.

(** ** The sweep over descending instants *)

Lemma wf_instants_Permutation l l' :
  l ≡ₚ l' → wf_instants l → wf_instants l'.
Proof.
  intros Hp Hwf s e Hs He. apply Hwf; by rewrite Hp.
Qed.

Lemma wf_instants_tail x l : wf_instants (x :: l) → wf_instants l.
Proof. intros Hwf s e Hs He. apply Hwf; by right. Qed.

(** An entry of the table of overlaps after the loop of a START instant is
    an old one, or holds the instant under the ids of the current and of an
    occurring event. *)
Lemma sweep_start_step_lookup x kvs (ov : gmap guint (gmap guint cl_ulong))
  k1 k2 inner v :
  foldl (sweep_start_step x) ov kvs !! k1 = Some inner → inner !! k2 = Some v →
  (∃ inner0, ov !! k1 = Some inner0 ∧ inner0 !! k2 = Some v) ∨
  (v = instant x ∧
   ∃ kv, kv ∈ kvs ∧ (k1 = inst_id x ∨ k1 = kv.1) ∧ (k2 = inst_id x ∨ k2 = kv.1)).
Proof.
  revert ov. induction kvs as [|kv kvs IH]; intros ov Hk1 Hk2; simpl in Hk1.
  { left. by exists inner. }
  destruct (IH _ Hk1 Hk2) as [(inner0 & H1 & H2) | (-> & kv' & Hin & Hk)].
  - unfold sweep_start_step in H1. cbv beta iota zeta in H1.
    set (key1 := if inst_id x <=? kv.1 then inst_id x else kv.1) in *.
    set (key2 := if inst_id x >? kv.1 then inst_id x else kv.1) in *.
    assert (Hkey1 : key1 = inst_id x ∨ key1 = kv.1).
    { unfold key1. destruct (_ <=? _); auto. }
    assert (Hkey2 : key2 = inst_id x ∨ key2 = kv.1).
    { unfold key2. destruct (_ >? _); auto. }
    rewrite lookup_insert in H1. case_decide as Hd.
    + injection H1 as <-. subst k1.
      rewrite lookup_insert in H2. case_decide as Hd2.
      * injection H2 as <-. subst k2. right. split; [done|].
        exists kv. split; [by left | done].
      * left. destruct (ov !! key1) as [i0|]; simpl in H2.
        -- by exists i0.
        -- by rewrite lookup_empty in H2.
    + left. by exists inner0.
  - right. split; [done|]. exists kv'. split; [by right | done].
Qed.

Lemma sweep_end_step_None names n x ov kvs :
  foldl (sweep_end_step names n x ov) None kvs = None.
Proof. by induction kvs. Qed.

(** When every start of an overlap with the current event is the current
    instant and the matrix holds zeroes, a turn of the loop of an END
    instant changes nothing. *)
Lemma sweep_end_step_zero names n x (ov : gmap guint (gmap guint cl_ulong))
  mat kv res :
  (∀ k1 k2 inner v,
     ov !! k1 = Some inner → inner !! k2 = Some v →
     k1 = inst_id x ∨ k2 = inst_id x → v = instant x) →
  (∀ m, mat = Some m → Forall (λ y, y = 0) m) →
  sweep_end_step names n x ov (Some (mat, 0)) kv = Some res →
  res = (mat, 0).
Proof.
  intros Hov Hmat. unfold sweep_end_step. cbv beta iota zeta.
  set (key1 := if inst_id x <=? kv.1 then inst_id x else kv.1).
  set (key2 := if inst_id x >? kv.1 then inst_id x else kv.1).
  assert (Hkey : key1 = inst_id x ∨ key2 = inst_id x).
  { unfold key1, key2. destruct (Z.leb_spec (inst_id x) kv.1); [by left|].
    destruct (Z.gtb_spec (inst_id x) kv.1); [by right | lia]. }
  destruct (ov !! key1) as [inner|] eqn:H1; [|intros [=]].
  destruct (inner !! key2) as [v|] eqn:H2; [|intros [=]].
  rewrite (Hov _ _ _ _ H1 H2 Hkey), Z.sub_diag.
  destruct mat as [m|]; [|intros [=]].
  match goal with
  | |- match ?t with Some _ => _ | None => _ end = _ → _ =>
      destruct t as [old|] eqn:Hi
  end; [|intros [=]].
  assert (old = 0) as ->.
  { pose proof (Hmat m eq_refl) as Hz. rewrite Forall_lookup in Hz. eapply Hz, Hi. }
  change (u64 (0 + u64 0)) with 0.
  rewrite list_insert_id by done. by intros [= <-].
Qed.

Lemma sweep_end_fold_zero names n x (ov : gmap guint (gmap guint cl_ulong))
  kvs mat res :
  (∀ k1 k2 inner v,
     ov !! k1 = Some inner → inner !! k2 = Some v →
     k1 = inst_id x ∨ k2 = inst_id x → v = instant x) →
  (∀ m, mat = Some m → Forall (λ y, y = 0) m) →
  foldl (sweep_end_step names n x ov) (Some (mat, 0)) kvs = Some res →
  res = (mat, 0).
Proof.
  intros Hov Hmat. induction kvs as [|kv kvs IH]; cbn [foldl].
  { by intros [= <-]. }
  destruct (sweep_end_step names n x ov (Some (mat, 0)) kv) as [r|] eqn:Hstep.
  - apply sweep_end_step_zero in Hstep as ->; done.
  - by rewrite sweep_end_step_None.
Qed.

Section sweep_facts.
Context (names : option (gmap string guint)) (num_event_names : guint).

Lemma sweep_inv_start x l st :
  StronglySorted instant_ge (x :: l) → wf_instants (x :: l) →
  inst_type x = CL4_PROF_EV_START →
  sweep_inv (x :: l) st → sweep_inv l (sweep_start names x st).
Proof.
  intros Hsort Hwf Hx [Hocc Hov Hmat Htot].
  apply StronglySorted_inv in Hsort as [_ Hhd]. rewrite Forall_forall in Hhd.
  constructor; simpl; [| |done..].
  - intros f y [u Hf] Hy Hty Hid z Hz.
    rewrite lookup_insert in Hf. case_decide as Hd.
    + transitivity (instant x); [by apply Hhd|].
      apply Hwf; [by left | by right | done | done | by rewrite Hd, Hid].
    + apply (Hocc f y); [by eauto | by right | done | done | by right].
  - intros k1 k2 inner v H1 H2.
    destruct (sweep_start_step_lookup _ _ _ _ _ _ _ H1 H2)
      as [(inner0 & H1' & H2') | (-> & [f u] & Hin & Hk1 & Hk2)].
    + destruct (Hov _ _ _ _ H1' H2') as [Ha Hb].
      split; [intros y Hy; apply Ha; by right | intros z Hz; apply Hb; by right].
    + apply elem_of_map_to_list in Hin. simpl in Hk1, Hk2. split.
      * intros y Hy Hty Hid.
        assert (inst_id y = inst_id x ∨ inst_id y = f) as [Hyx | Hyf]
          by (destruct Hid as [Hi | Hi]; rewrite Hi; tauto).
        -- apply Hwf; [by left | by right | done | done | done].
        -- apply (Hocc f y); [by eauto | by right | done | done | by left].
      * intros z Hz. by apply Hhd.
Qed.

Lemma sweep_inv_end x l st st' :
  inst_type x = CL4_PROF_EV_END →
  sweep_inv (x :: l) st → sweep_end names num_event_names x st = Some st' →
  sweep_inv l st' ∧ overlap_matrix st' = overlap_matrix st.
Proof.
  intros Hx [Hocc Hov Hmat Htot]. unfold sweep_end. rewrite Htot.
  destruct (foldl _ _ _) as [[mat tot]|] eqn:Hfold; [|done].
  apply sweep_end_fold_zero in Hfold; [|..|exact Hmat].
  - injection Hfold as -> ->. intros [= <-]. split; [|done].
    constructor; simpl; [| |done..].
    + intros f y [u Hf] Hy Hty Hid z Hz.
      rewrite lookup_delete in Hf. case_decide; [done|].
      apply (Hocc f y); [by eauto | by right | done | done | by right].
    + intros k1 k2 inner v H1 H2. destruct (Hov _ _ _ _ H1 H2) as [Ha Hb].
      split; [intros y Hy; apply Ha; by right | intros z Hz; apply Hb; by right].
  - intros k1 k2 inner v H1 H2 Hk. destruct (Hov _ _ _ _ H1 H2) as [Ha Hb].
    apply Z.le_antisymm.
    + apply Ha; [by left | done | destruct Hk; auto].
    + apply Hb. by left.
Qed.

(** On instants sorted from the latest to the earliest in which no START is
    after its END, a sweep that runs to its end finds no overlap. *)
Lemma sweep_zero l st st' :
  StronglySorted instant_ge l → wf_instants l → sweep_inv l st →
  sweep names num_event_names l st = Some st' →
  total_overlap st' = 0 ∧ overlap_matrix st' = overlap_matrix st.
Proof.
  revert st. induction l as [|x l IH]; intros st Hsort Hwf Hinv; simpl.
  { intros [= <-]. split; [apply Hinv | done]. }
  pose proof (StronglySorted_inv Hsort) as [Hsort' _].
  pose proof (wf_instants_tail _ _ Hwf) as Hwf'.
  destruct (inst_type x) eqn:Hx.
  - intros Hrun. eapply IH in Hrun as [-> ->]; [done..|].
    by apply sweep_inv_start.
  - destruct (sweep_end names num_event_names x st) as [st1|] eqn:Hend; [|done].
    destruct (sweep_inv_end _ _ _ _ Hx Hinv Hend) as [Hinv1 Hmat1].
    intros Hrun. eapply IH in Hrun as [-> ->]; done.
Qed.

End sweep_facts.

Lemma g_new0_zero n m : g_new0 n = Some m → Forall (λ y, y = 0) m.
Proof.
  unfold g_new0. destruct (n =? 0); [done|]. intros [= <-].
  apply Forall_replicate. done.
Qed.

(** [cl4_prof_calc_overmat] on instants in which no START is after its END:
    when it returns, the total overlap is [0], the matrix holds zeroes and
    the effective time is the total time. *)
Lemma calc_overmat_zero p p' ov :
  wf_instants (event_instants p) →
  cl4_prof_calc_overmat p = Some (p', ov) →
  ov = 0 ∧
  (∀ m, overmat p' = Some m → Forall (λ y, y = 0) m) ∧
  total_events_eff_time p' = u64 (total_events_time p) ∧
  StronglySorted instant_ge (event_instants p').
Proof.
  intros Hwf. unfold cl4_prof_calc_overmat.
  destruct (sweep _ _ _ _) as [st|] eqn:Hrun; [|done].
  apply sweep_zero in Hrun as [Htot Hmat].
  - intros [= <- <-]. simpl. rewrite Htot, Hmat, Z.sub_0_r.
    split; [done|]. split; [apply g_new0_zero|]. split; [done|].
    apply sort_instant_descending.
  - apply sort_instant_descending.
  - eapply wf_instants_Permutation; [|exact Hwf].
    symmetry. apply g_list_sort_with_data_Permutation.
  - constructor; simpl; [| |apply g_new0_zero|done].
    + intros f y [u Hf]. by rewrite lookup_empty in Hf.
    + intros k1 k2 inner v H1. by rewrite lookup_empty in H1.
Qed.

(** ** From the event stream to the instants *)

Lemma u32_small z : 0 <= z < 2 ^ 32 → u32 z = z.
Proof. unfold u32. apply Z.mod_small. Qed.

Lemma add_event_inv cq_name evt p u p' :
  wf_event evt → ingest_inv p → num_events p + 1 < 2 ^ 32 →
  cl4_prof_add_event cq_name evt p = (inr u, p') →
  ingest_inv p' ∧ num_events p' = num_events p + 1.
Proof.
  intros Hwf [Hids Hinst Hnum] Hlt Hrun.
  apply add_event_inr in Hrun
    as (ts & te & tq & tsub & Hs & He & _ & _ & Hn & Hi & _ & _).
  rewrite u32_small in Hn by lia. rewrite Hn in Hi.
  destruct (Hwf ts te Hs He) as (_ & Hle & _).
  split; [|done]. constructor; rewrite ?Hn, ?Hi; [| |lia].
  - intros x [-> | [-> | Hx]%elem_of_cons]%elem_of_cons; simpl; [lia..|].
    specialize (Hids x Hx). lia.
  - intros s e [-> | [-> | Hs']%elem_of_cons]%elem_of_cons
             [-> | [-> | He']%elem_of_cons]%elem_of_cons; simpl; try done.
    + intros _ _ Hid. specialize (Hids e He'). lia.
    + intros _ _ Hid. specialize (Hids s Hs'). lia.
    + by apply Hinst.
Qed.

Lemma process_queue_events_inv cq_name evts p u p' :
  Forall wf_event evts → ingest_inv p →
  num_events p + Z.of_nat (length evts) < 2 ^ 32 →
  process_queue_events cq_name evts p = (inr u, p') →
  ingest_inv p' ∧ num_events p' = num_events p + Z.of_nat (length evts).
Proof.
  revert p. induction evts as [|evt evts IH]; intros p Hwf Hinv Hlt; simpl.
  { intros [= _ <-]. split; [done | lia]. }
  apply Forall_cons in Hwf as [Hevt Hwf].
  unfold mbind, ProfM_bind, bind.
  destruct (cl4_prof_add_event cq_name evt p) as [[e|u1] p1] eqn:H1; [done|].
  apply add_event_inv in H1 as [Hinv1 Hn1]; [|done|done|simpl in Hlt; lia].
  intros Hrun. apply IH in Hrun as [Hinv' Hn']; [|done|done|simpl in Hlt; lia].
  split; [done|]. simpl length. lia.
Qed.

Lemma process_queue_table_inv (qs : list (string * CL4CQueue)) p u p' :
  Forall wf_event (qs ≫= snd) → ingest_inv p →
  num_events p + Z.of_nat (length (qs ≫= snd)) < 2 ^ 32 →
  process_queue_table qs p = (inr u, p') →
  ingest_inv p'.
Proof.
  revert p. induction qs as [|[cq_name cq] qs IH]; intros p Hwf Hinv Hlt; simpl.
  { by intros [= _ <-]. }
  change (((cq_name, cq) :: qs) ≫= snd) with (cq ++ (qs ≫= snd)) in Hwf, Hlt.
  apply Forall_app in Hwf as [Hcq Hwf]. rewrite length_app in Hlt.
  unfold mbind at 1, ProfM_bind, bind.
  destruct (process_queue_events cq_name cq p) as [[e|u1] p1] eqn:H1; [done|].
  apply process_queue_events_inv in H1 as [Hinv1 Hn1]; [|done|done|lia].
  intros Hrun. apply IH in Hrun; [done|done|done|lia].
Qed.

(** The instants that [cl4_prof_process_queues] leaves for the events of a
    profile not yet calculated: no START is after its END. *)
Lemma process_queues_wf_instants p u p3 :
  before_calc p → Forall wf_event (event_stream p) →
  Z.of_nat (length (event_stream p)) < 2 ^ 32 →
  cl4_prof_process_queues (calc_tables p) = Some (inr u, p3) →
  wf_instants (event_instants p3).
Proof.
  intros Hbc Hwf Hlt. unfold cl4_prof_process_queues, event_stream in *.
  simpl cqueues. destruct (cqueues p) as [qs|]; [|done]. simpl in Hwf, Hlt.
  destruct (process_queue_table qs (calc_tables p)) as [[e|u1] p1] eqn:H1; [done|].
  destruct (event_names p1); [|done]. intros [= _ <-]. simpl.
  apply process_queue_table_inv in H1 as [_ Hi _]; [done|done| |].
  - constructor; simpl.
    + rewrite (bc_event_instants _ Hbc). by intros x ?%elem_of_nil.
    + rewrite (bc_event_instants _ Hbc). by intros s e ?%elem_of_nil.
    + by rewrite (bc_num_events _ Hbc).
  - simpl. rewrite (bc_num_events _ Hbc). lia.
Qed.

(** ** The overlap of the events of a well-formed stream *)

(** A successful [cl4_prof_calc] on a stream of fewer than [2^32] events
    whose starts are not after their ends: the sweep has run over the
    instants from the latest to the earliest and has found no overlap, so
    the matrix holds zeroes and the effective time is the total time. *)
Lemma calc_wf_stream p err r p' :
  before_calc p → Forall wf_event (event_stream p) →
  Z.of_nat (length (event_stream p)) < 2 ^ 32 →
  cl4_prof_calc (Some p) err = Some r → status r = CL_TRUE →
  prof_after r = Some p' →
  calc_total_overlap p = Some 0 ∧
  (∀ m, overmat p' = Some m → Forall (λ y, y = 0) m) ∧
  total_events_eff_time p' = total_events_time p' ∧
  0 <= total_events_time p' < 2 ^ 64 ∧
  StronglySorted instant_ge (event_instants p').
Proof.
  intros Hbc Hwf Hlen Hcalc Hst Hp'.
  destruct (calc_success _ _ _ _ Hcalc Hst Hp')
    as (_ & u & p3 & p4 & ov & Hq & Ha & Ho).
  pose proof (process_queues_wf_instants _ _ _ Hbc Hwf Hlen Hq) as Hwf3.
  pose proof (process_queues_frame _ _ _ Hq) as (_ & Hagg3 & _ & Htot3 & _).
  simpl in Hagg3, Htot3. rewrite (bc_total_events_time _ Hbc) in Htot3.
  destruct (calc_agg_sum _ _ Hagg3 Htot3 Ha) as (m1 & _ & _ & Hsum).
  assert (Hwf4 : wf_instants (event_instants p4)).
  { eapply wf_instants_Permutation; [|exact Hwf3].
    symmetry. by apply calc_agg_instants. }
  destruct (calc_overmat_zero _ _ _ Hwf4 Ho) as (-> & Hmat & Heff & Hsorted).
  pose proof (calc_overmat_frame _ _ _ Ho) as (_ & _ & _ & _ & _ & _ & Htot).
  assert (Hrange : 0 <= total_events_time p4 < 2 ^ 64).
  { rewrite <- Hsum. apply u64_range. }
  split; [|split; [done|split; [|split; [by rewrite Htot | done]]]].
  - unfold calc_total_overlap. by rewrite Hq, Ha, Ho.
  - rewrite Heff, Htot. by apply u64_small.
Qed.

(** The total overlap stays a 64-bit value throughout the sweep. *)
Lemma sweep_end_fold_range names n x (ov : gmap guint (gmap guint cl_ulong))
  kvs mat tot mat' tot' :
  0 <= tot < 2 ^ 64 →
  foldl (sweep_end_step names n x ov) (Some (mat, tot)) kvs = Some (mat', tot') →
  0 <= tot' < 2 ^ 64.
Proof.
  revert mat tot. induction kvs as [|kv kvs IH]; intros mat tot Htot; cbn [foldl].
  { by intros [= _ <-]. }
  destruct (sweep_end_step names n x ov (Some (mat, tot)) kv) as [[mat1 tot1]|]
    eqn:Hstep; [|by rewrite sweep_end_step_None].
  apply IH. revert Hstep. unfold sweep_end_step. cbv beta iota zeta.
  repeat match goal with
         | |- match ?t with Some _ => _ | None => _ end = _ → _ =>
             destruct t; [|intros [=]]
         end.
  intros [= _ <-]. apply u64_range.
Qed.

Lemma sweep_total_range names n l st st' :
  0 <= total_overlap st < 2 ^ 64 →
  sweep names n l st = Some st' → 0 <= total_overlap st' < 2 ^ 64.
Proof.
  revert st. induction l as [|x l IH]; intros st Htot; simpl.
  { by intros [= <-]. }
  destruct (inst_type x).
  - apply IH. done.
  - destruct (sweep_end names n x st) as [st1|] eqn:Hend; [|done].
    apply IH. revert Hend. unfold sweep_end.
    destruct (foldl _ _ _) as [[mat tot]|] eqn:Hfold; [|done].
    intros [= <-]. simpl. by eapply sweep_end_fold_range.
Qed.

Lemma calc_overmat_range p p' ov :
  cl4_prof_calc_overmat p = Some (p', ov) →
  0 <= ov < 2 ^ 64 ∧
  total_events_eff_time p' = u64 (total_events_time p - ov).
Proof.
  unfold cl4_prof_calc_overmat.
  destruct (sweep _ _ _ _) as [st|] eqn:Hrun; [|done].
  intros [= <- <-]. split; [|done].
  eapply sweep_total_range; [|exact Hrun]. simpl. lia.
Qed.

(** C5: for every stream of events, after a successful [cl4_prof_calc] the
    effective time plus the total overlap is the total time in the
    arithmetic of [cl_ulong], and both are non-negative; for every stream of
    events as the data model has them (starts not after ends, fewer than
    [2^32] events) the total overlap is not larger than the total time: the
    subtraction that computes the effective time does not wrap around, and
    the sum is the total time as integers. *)
Theorem eff_time_plus_overlap p err r p' :
  before_calc p →
  cl4_prof_calc (Some p) err = Some r → status r = CL_TRUE →
  prof_after r = Some p' →
  ∃ ov,
    calc_total_overlap p = Some ov ∧
    u64 (total_events_eff_time p' + ov) = total_events_time p' ∧
    0 <= total_events_eff_time p' ∧ 0 <= ov ∧
    (Forall wf_event (event_stream p) →
     Z.of_nat (length (event_stream p)) < 2 ^ 32 →
     ov <= total_events_time p' ∧
     total_events_eff_time p' + ov = total_events_time p').
Proof.
  intros Hbc Hcalc Hst Hp'.
  destruct (calc_success _ _ _ _ Hcalc Hst Hp')
    as (_ & u & p3 & p4 & ov & Hq & Ha & Ho).
  pose proof (process_queues_frame _ _ _ Hq) as (_ & Hagg3 & _ & Htot3 & _).
  simpl in Hagg3, Htot3. rewrite (bc_total_events_time _ Hbc) in Htot3.
  destruct (calc_agg_sum _ _ Hagg3 Htot3 Ha) as (m1 & _ & _ & Hsum).
  pose proof (calc_overmat_frame _ _ _ Ho) as (_ & _ & _ & _ & _ & _ & Htot).
  destruct (calc_overmat_range _ _ _ Ho) as [Hov Heff].
  assert (Hrange : 0 <= total_events_time p' < 2 ^ 64).
  { rewrite Htot, <- Hsum. apply u64_range. }
  assert (Hghost : calc_total_overlap p = Some ov).
  { unfold calc_total_overlap. by rewrite Hq, Ha, Ho. }
  exists ov. split; [done|]. rewrite Heff, <- Htot.
  split; [|split; [apply u64_range|split; [lia|]]].
  - rewrite u64_add_u64_l.
    transitivity (u64 (total_events_time p')); [f_equal; lia | by apply u64_small].
  - intros Hwf Hlen.
    destruct (calc_wf_stream _ _ _ _ Hbc Hwf Hlen Hcalc Hst Hp')
      as (Hzero & _ & _ & _ & _).
    rewrite Hghost in Hzero. injection Hzero as ->.
    rewrite Z.sub_0_r, u64_small by done. lia.
Qed.

Lemma eff_time_plus_overlap_witness :
  ∃ p' ov,
    calc_total_overlap scenario_S3 = Some ov ∧
    total_events_eff_time p' + ov = total_events_time p' ∧ ov <= total_events_time p'.
Proof.
  destruct (eff_time_plus_overlap scenario_S3 (Some None)
              {| status := CL_TRUE;
                 prof_after :=
                   match cl4_prof_calc (Some scenario_S3) (Some None) with
                   | Some r => prof_after r
                   | None => None
                   end;
                 err_after := Some None;
                 log := [] |}
              (default cl4_prof_new
                 match cl4_prof_calc (Some scenario_S3) (Some None) with
                 | Some r => prof_after r
                 | None => None
                 end))
    as (ov & Hov & _ & _ & _ & Hwf).
  - by constructor.
  - vm_compute. reflexivity.
  - reflexivity.
  - vm_compute. reflexivity.
  - destruct Hwf as [Hle Hsum].
    + change (Forall wf_event [event_of "a" 0 0 100 300; event_of "b" 0 0 200 400]).
      apply Forall_forall.
      intros evt [-> | [-> | []%elem_of_nil]%elem_of_cons]%elem_of_cons;
        intros ts te [= <-] [= <-]; lia.
    + change (2 < 2 ^ 32). lia.
    + eexists _, ov. split; [exact Hov|]. split; [exact Hsum | exact Hle].
Defined.

(** ** The overlap matrix *)

(** On scenario S2 (two disjoint events) the sweep reads the start of an
    overlap that was never stored: [cl4_prof_calc] dereferences [NULL]. *)
Lemma calc_S2_undefined : cl4_prof_calc (Some scenario_S2) (Some None) = None.
Proof. vm_compute. reflexivity. Qed.

(** C1 at the failing input, scenario S3: ["a"] at [[100, 300]] has name id
    [0], ["b"] at [[200, 400]] has name id [1], the two events overlap for
    [100], and [cl4_prof_calc] succeeds with a matrix of zeroes; the sweep
    has run over the instants [400, 300, 200, 100], from the latest to the
    earliest. *)
Theorem overmat_S3_is_zero :
  ∃ r p m,
    cl4_prof_calc (Some scenario_S3) (Some None) = Some r ∧
    status r = CL_TRUE ∧ prof_after r = Some p ∧
    event_names p = Some m ∧
    m !! "a"%string = Some 0 ∧ m !! "b"%string = Some 1 ∧
    expected_overlap m 0 1 (events p) = 100 ∧
    overmat p = Some [0; 0; 0; 0] ∧
    instant <$> event_instants p = [400; 300; 200; 100].
Proof.
  eexists _, _, _. split; [vm_compute; reflexivity|].
  split; [reflexivity|]. split; [reflexivity|]. split; [reflexivity|].
  split; [reflexivity|]. split; [reflexivity|].
  split; [vm_compute; reflexivity|]. split; reflexivity.
Qed.

(** ** Profiles not yet calculated, and the propagation of an ingest error *)

Lemma before_calc_new : before_calc cl4_prof_new.
Proof. by constructor. Qed.

(** Every profile reached from a new one by calls other than
    [cl4_prof_calc] is a profile not yet calculated. *)
Lemma before_calc_reachable cs p :
  forallb (λ c, negb (is_calc c)) cs = true →
  after_calls cs cl4_prof_new = Some p → before_calc p.
Proof.
  generalize before_calc_new. generalize cl4_prof_new. intros p0.
  revert p0. induction cs as [|c cs IH]; intros p0 Hbc; simpl.
  { by intros _ [= <-]. }
  intros [Hc Hcs]%andb_prop.
  destruct (after_call c p0) as [p1|] eqn:Hcall; [|done].
  apply IH; [|done]. clear IH Hcs. destruct Hbc.
  destruct c as [now|now|now|cq_name cq|err|name|now sort|opts stream err];
    try discriminate Hc; unfold after_call in Hcall.
  - injection Hcall as <-. by constructor.
  - simpl in Hcall. destruct (timer p0); injection Hcall as <-; by constructor.
  - injection Hcall as <-. by constructor.
  - simpl in Hcall. rewrite bc_aggregate0 in Hcall.
    destruct cq as [q|]; injection Hcall as <-; by constructor.
  - injection Hcall as <-. by constructor.
  - unfold cl4_prof_print_info in Hcall.
    destruct (overlap_rows _ _); [|done]. injection Hcall as <-. by constructor.
  - unfold cl4_prof_export_info in Hcall.
    destruct stream as [f|]; [destruct err as [[e|]|]|]; simpl in Hcall;
      try destruct (export_events _ _ _ _) as [[st f'] err'];
      injection Hcall as <-; constructor; simpl; try done;
      by rewrite bc_events0.
Qed.

(** An error of the ingest makes [cl4_prof_calc] return [CL_FALSE] and is
    handed to the caller. *)
Lemma calc_propagates_ingest_error p err e p3 :
  aggregate p = None → (err = None ∨ err = Some None) →
  cl4_prof_process_queues (calc_tables p) = Some (inl e, p3) →
  cl4_prof_calc (Some p) err =
    Some {| status := CL_FALSE; prof_after := Some p3;
            err_after := g_propagate_error err e; log := [] |}.
Proof.
  intros Hagg Herr Hq. unfold cl4_prof_calc. rewrite Hagg.
  change (set_event_names (Some ∅) (set_aggregate (Some ∅) p))
    with (calc_tables p).
  rewrite Hq. by destruct Herr as [-> | ->].
Qed.

(** * The passes of the calculation, event by event *)

(** ** What the ingest leaves in the profile *)

(** A successful [cl4_prof_add_event], field by field. *)
Lemma add_event_ok cq_name evt p u p' :
  cl4_prof_add_event cq_name evt p = (inr u, p') →
  queries_ok evt ∧
  num_events p' = u32 (num_events p + 1) ∧
  event_instants p' =
    cl4_prof_eventinst_new (cl4_event_get_final_name evt) cq_name
      (num_events p') (info_value evt CL_PROFILING_COMMAND_END) CL4_PROF_EV_END
    :: cl4_prof_eventinst_new (cl4_event_get_final_name evt) cq_name
         (num_events p') (info_value evt CL_PROFILING_COMMAND_START)
         CL4_PROF_EV_START
    :: event_instants p ∧
  events p' = record_of (cq_name, evt) :: events p ∧
  start_time p' = Z.min (info_value evt CL_PROFILING_COMMAND_START) (start_time p) ∧
  event_names p' = intern (event_names p) (cl4_event_get_final_name evt).
Proof.
  unfold_ingest. unfold queries_ok, record_of, intern, info_value. simpl.
  destruct (cl4_event_get_profiling_info evt CL_PROFILING_COMMAND_START)
    as [?|ts] eqn:Hs; [done|].
  destruct (cl4_event_get_profiling_info evt CL_PROFILING_COMMAND_END)
    as [?|te] eqn:He; [done|].
  destruct (cl4_event_get_profiling_info evt CL_PROFILING_COMMAND_QUEUED)
    as [?|tq] eqn:Hq; [done|].
  destruct (cl4_event_get_profiling_info evt CL_PROFILING_COMMAND_SUBMIT)
    as [?|tsub] eqn:Hsub; [done|].
  intros [= _ <-].
  split; [intros []; by rewrite ?Hs, ?He, ?Hq, ?Hsub|].
  destruct (g_hash_table_contains _ _); simpl;
    destruct (Z.ltb_spec ts (start_time p)); simpl;
    repeat split; lia.
Qed.

(** When the four queries of an event succeed, [cl4_prof_add_event] returns
    without an error. *)
Lemma add_event_total cq_name evt p :
  queries_ok evt → ∃ p', cl4_prof_add_event cq_name evt p = (inr tt, p').
Proof.
  intros Hok. unfold_ingest. rewrite !Hok. by eexists.
Qed.

(** A failing [cl4_prof_add_event]: the error is the one of a query of the
    event; the event has got its number and its name is registered, but no
    record of it is kept. *)
Lemma add_event_inl cq_name evt p e p' :
  cl4_prof_add_event cq_name evt p = (inl e, p') →
  (∃ kind, cl4_event_get_profiling_info evt kind = inl e) ∧
  num_events p' = u32 (num_events p + 1) ∧
  events p' = events p ∧
  event_names p' = intern (event_names p) (cl4_event_get_final_name evt).
Proof.
  unfold_ingest. unfold intern.
  destruct (cl4_event_get_profiling_info evt CL_PROFILING_COMMAND_START)
    as [?|ts] eqn:Hs.
  { intros [= <- <-]. split; [by eauto|].
    by destruct (g_hash_table_contains _ _). }
  destruct (cl4_event_get_profiling_info evt CL_PROFILING_COMMAND_END)
    as [?|te] eqn:He.
  { intros [= <- <-]. split; [by eauto|].
    destruct (g_hash_table_contains _ _); simpl; by destruct (ts <? _). }
  destruct (cl4_event_get_profiling_info evt CL_PROFILING_COMMAND_QUEUED)
    as [?|tq] eqn:Hq.
  { intros [= <- <-]. split; [by eauto|].
    destruct (g_hash_table_contains _ _); simpl; by destruct (ts <? _). }
  destruct (cl4_event_get_profiling_info evt CL_PROFILING_COMMAND_SUBMIT)
    as [?|tsub] eqn:Hsub; [|done].
  intros [= <- <-]. split; [by eauto|].
  destruct (g_hash_table_contains _ _); simpl; by destruct (ts <? _).
Qed.

Lemma add_event_fails cq_name evt p :
  ¬ queries_ok evt → ∃ e p', cl4_prof_add_event cq_name evt p = (inl e, p').
Proof.
  intros Hno. destruct (cl4_prof_add_event cq_name evt p) as [[e|u] p'] eqn:Hrun.
  - by eauto.
  - by apply add_event_ok in Hrun as [Hok _].
Qed.

Lemma u32_succ n : 0 <= n → n + 1 < 2 ^ 32 → u32 (n + 1) = n + 1.
Proof. intros. apply u32_small. lia. Qed.

(** *** The two loops as one *)

Lemma add_events_app l1 l2 p :
  add_events (l1 ++ l2) p =
    match add_events l1 p with
    | (inl e, p1) => (inl e, p1)
    | (inr _, p1) => add_events l2 p1
    end.
Proof.
  revert p. induction l1 as [|ne l1 IH]; intros p; simpl; [done|].
  unfold mbind, ProfM_bind, bind.
  destruct (cl4_prof_add_event ne.1 ne.2 p) as [[e|u] p1]; [done|]. apply IH.
Qed.

Lemma process_queue_events_flat cq_name evts p :
  process_queue_events cq_name evts p
  = add_events ((λ evt, (cq_name, evt)) <$> evts) p.
Proof.
  revert p. induction evts as [|evt evts IH]; intros p; simpl; [done|].
  unfold mbind, ProfM_bind, bind.
  destruct (cl4_prof_add_event cq_name evt p) as [[e|u] p1]; [done|]. apply IH.
Qed.

Lemma process_queue_table_flat (qs : list (string * CL4CQueue)) p :
  process_queue_table qs p
  = add_events (qs ≫= (λ nq, (λ evt, (nq.1, evt)) <$> nq.2)) p.
Proof.
  revert p. induction qs as [|[cq_name cq] qs IH]; intros p; [done|].
  cbn [process_queue_table mbind list_bind]. rewrite add_events_app.
  unfold mbind at 1, ProfM_bind, bind. rewrite process_queue_events_flat. simpl.
  destruct (add_events _ p) as [[e|u] p1]; [done|]. apply IH.
Qed.

Lemma instants_from_app id l1 l2 :
  instants_from id (l1 ++ l2)
  = instants_from id l1 ++ instants_from (id + Z.of_nat (length l1)) l2.
Proof.
  revert id. induction l1 as [|ne l1 IH]; intros id.
  { cbn [app instants_from length]. change (Z.of_nat 0) with 0. by rewrite Z.add_0_r. }
  cbn [app instants_from length]. rewrite IH, Nat2Z.inj_succ.
  by replace (id + 1 + Z.of_nat (length l1)) with (id + Z.succ (Z.of_nat (length l1)))
    by lia.
Qed.

(** What a successful ingestion of a stream leaves in the profile: the
    records of its events, last event first, the earliest start and the
    names. *)
Lemma add_events_records l p u p' :
  add_events l p = (inr u, p') →
  Forall (λ ne, queries_ok ne.2) l ∧
  events p' = reverse (record_of <$> l) ++ events p ∧
  start_time p' =
    foldl (λ s ne, Z.min (info_value ne.2 CL_PROFILING_COMMAND_START) s)
      (start_time p) l ∧
  event_names p' =
    foldl intern (event_names p) ((λ ne, cl4_event_get_final_name ne.2) <$> l).
Proof.
  revert p. induction l as [|[cq_name evt] l IH]; intros p; simpl.
  { intros [= _ <-]. by repeat split. }
  unfold mbind, ProfM_bind, bind.
  destruct (cl4_prof_add_event cq_name evt p) as [[e|u1] p1] eqn:H1; [done|].
  intros Hrun.
  apply add_event_ok in H1 as (Hok & _ & _ & He1 & Hs1 & Hnames1).
  apply IH in Hrun as (Hoks & He' & Hs' & Hnames').
  split; [by constructor|].
  rewrite He', Hs', Hnames', He1, Hs1, Hnames1.
  rewrite !reverse_cons, <- !app_assoc. simpl. by repeat split.
Qed.

(** The instants of a successful ingestion of fewer than [2^32] events:
    the events are numbered in the order of the stream, and their instants
    stacked. *)
Lemma add_events_instants l p u p' :
  add_events l p = (inr u, p') →
  0 <= num_events p → num_events p + Z.of_nat (length l) < 2 ^ 32 →
  num_events p' = num_events p + Z.of_nat (length l) ∧
  event_instants p' = reverse (instants_from (num_events p + 1) l) ++ event_instants p.
Proof.
  revert p. induction l as [|[cq_name evt] l IH]; intros p; simpl.
  { intros [= _ <-] _ _. split; [lia | done]. }
  unfold mbind, ProfM_bind, bind.
  destruct (cl4_prof_add_event cq_name evt p) as [[e|u1] p1] eqn:H1; [done|].
  intros Hrun Hn Hlt.
  apply add_event_ok in H1 as (_ & Hn1 & Hi1 & _).
  rewrite u32_succ in Hn1 by lia. rewrite Hn1 in Hi1.
  apply IH in Hrun as (Hn' & Hi'); [|lia..].
  split; [lia|].
  rewrite Hi', Hn1, Hi1. rewrite !reverse_cons, <- !app_assoc. done.
Qed.

(** When every query of every event succeeds, so does the ingestion. *)
Lemma add_events_total l p :
  Forall (λ ne, queries_ok ne.2) l → ∃ p', add_events l p = (inr tt, p').
Proof.
  intros Hok. revert p. induction Hok as [|[cq_name evt] l Hok _ IH]; intros p; simpl.
  { by eexists. }
  unfold mbind, ProfM_bind, bind.
  destruct (add_event_total cq_name evt p Hok) as [p1 ->]. apply IH.
Qed.

(** The ingestion stops at the first event that has a failing query. *)
Lemma add_events_stop l1 ne l2 p :
  Forall (λ ne, queries_ok ne.2) l1 → ¬ queries_ok ne.2 →
  ∃ p1 e p',
    add_events l1 p = (inr tt, p1) ∧
    cl4_prof_add_event ne.1 ne.2 p1 = (inl e, p') ∧
    add_events (l1 ++ ne :: l2) p = (inl e, p').
Proof.
  intros Hok Hno.
  destruct (add_events_total l1 p Hok) as [p1 H1].
  destruct (add_event_fails ne.1 ne.2 p1 Hno) as (e & p' & H2).
  exists p1, e, p'. split; [done|]. split; [done|].
  rewrite add_events_app, H1. simpl. unfold mbind, ProfM_bind, bind. by rewrite H2.
Qed.

Lemma add_events_frame l p x p' :
  add_events l p = (x, p') → ingest_frame p p'.
Proof.
  revert p. induction l as [|ne l IH]; intros p; simpl.
  - intros [= _ <-]. apply ingest_frame_refl.
  - unfold mbind, ProfM_bind, bind.
    destruct (cl4_prof_add_event ne.1 ne.2 p) as [[e|u] p1] eqn:H1.
    + intros [= _ <-]. eapply add_event_frame, H1.
    + intros H2. eapply ingest_frame_trans; [eapply add_event_frame, H1|].
      eapply IH, H2.
Qed.

(** ** The table of event names *)

Lemma dense_ids_empty : dense_ids (∅ : gmap string guint).
Proof. constructor; intros *; by rewrite lookup_empty. Qed.

(** Registering a name keeps the ids dense and the ids already given. *)
Lemma intern_dense (m : gmap string guint) event_name :
  dense_ids m →
  ∃ m', intern (Some m) event_name = Some m' ∧ dense_ids m' ∧
        dom m' = {[event_name]} ∪ dom m ∧
        (∀ k id, m !! k = Some id → m' !! k = Some id) ∧
        (m !! event_name = None → m' !! event_name = Some (Z.of_nat (size m))).
Proof.
  intros [Hrange Hinj]. unfold intern, g_hash_table_contains. case_bool_decide as Hin.
  - exists m. split; [done|]. split; [done|]. split; [|split; [done|]].
    + apply elem_of_dom in Hin. apply set_eq. intros k.
      rewrite elem_of_union, elem_of_singleton. split; [by right|].
      by intros [->|?].
    + intros Hnone. rewrite Hnone in Hin. by destruct Hin.
  - apply eq_None_not_Some in Hin. simpl.
    exists (<[event_name := Z.of_nat (size m)]> m). split; [done|].
    split; [|split; [by rewrite dom_insert_L|split]].
    + constructor.
      * intros name id. rewrite map_size_insert_None by done.
        rewrite lookup_insert. case_decide.
        -- intros [= <-]. lia.
        -- intros Hl. specialize (Hrange _ _ Hl). lia.
      * intros n1 n2 id. rewrite !lookup_insert.
        repeat case_decide; subst; try done.
        -- intros [= <-] Hl. specialize (Hrange _ _ Hl). lia.
        -- intros Hl [= <-]. specialize (Hrange _ _ Hl). lia.
        -- apply Hinj.
    + intros k id Hk. rewrite lookup_insert_ne; [done|]. congruence.
    + intros _. by rewrite lookup_insert_eq.
Qed.

Lemma foldl_intern_dense names (m : gmap string guint) :
  dense_ids m →
  ∃ m', foldl intern (Some m) names = Some m' ∧ dense_ids m' ∧
        dom m' = list_to_set names ∪ dom m ∧
        (∀ k id, m !! k = Some id → m' !! k = Some id).
Proof.
  revert m. induction names as [|n names IH]; intros m Hm; cbn [foldl].
  { exists m. split; [done|]. split; [done|].
    split; [by rewrite list_to_set_nil, (left_id_L ∅ (∪)) | done]. }
  destruct (intern_dense m n Hm) as (m1 & -> & Hm1 & Hdom1 & Hkeep1 & _).
  destruct (IH m1 Hm1) as (m' & -> & Hm' & Hdom' & Hkeep').
  exists m'. split; [done|]. split; [done|]. split; [|by eauto].
  rewrite Hdom', Hdom1, list_to_set_cons. apply set_eq. intros k.
  rewrite !elem_of_union. tauto.
Qed.

(** Ids are given in the order in which the names are first seen: a name
    gets the number of distinct names seen before it. *)
Lemma foldl_intern_first_seen l1 event_name l2 :
  event_name ∉ l1 →
  ∃ m', foldl intern (Some ∅) (l1 ++ event_name :: l2) = Some m' ∧
        m' !! event_name = Some (Z.of_nat (size (list_to_set l1 : gset string))).
Proof.
  intros Hnotin. rewrite foldl_app. simpl.
  destruct (foldl_intern_dense l1 ∅ dense_ids_empty) as (m1 & -> & Hm1 & Hdom1 & _).
  destruct (intern_dense m1 event_name Hm1) as (m2 & -> & Hm2 & _ & _ & Hnew).
  destruct (foldl_intern_dense l2 m2 Hm2) as (m' & -> & _ & _ & Hkeep).
  exists m'. split; [done|]. apply Hkeep.
  assert (Hfresh : m1 !! event_name = None).
  { apply not_elem_of_dom.
    rewrite Hdom1, dom_empty_L, (right_id_L ∅ (∪)). by rewrite elem_of_list_to_set. }
  specialize (Hnew Hfresh). etrans; [exact Hnew|].
  do 2 f_equal. by rewrite <- size_dom, Hdom1, dom_empty_L, (right_id_L ∅ (∪)).
Qed.

(** The table of ids is the table of names read backwards. *)
Lemma reverse_event_names_fold (kvs : list (string * guint)) (acc : gmap guint string)
    id event_name :
  NoDup kvs.*2 →
  (foldl (λ ids kv, <[kv.2 := kv.1]> ids) acc kvs) !! id = Some event_name ↔
  (event_name, id) ∈ kvs ∨ (acc !! id = Some event_name ∧ id ∉ kvs.*2).
Proof.
  revert acc. induction kvs as [|[n i] kvs IH]; intros acc Hnd.
  { simpl. split; [intros H; right; split; [done | apply not_elem_of_nil]|].
    intros [H%elem_of_nil | [H _]]; done. }
  apply NoDup_cons in Hnd as [Hi Hnd].
  change ((foldl (λ ids kv, <[kv.2 := kv.1]> ids) (<[i := n]> acc) kvs) !! id
          = Some event_name ↔
          (event_name, id) ∈ (n, i) :: kvs ∨
          (acc !! id = Some event_name ∧ id ∉ i :: kvs.*2)).
  etrans; [apply (IH _ Hnd)|].
  rewrite lookup_insert, elem_of_cons, not_elem_of_cons. split.
  - intros [H | [H Hnotin]]; [by left; right|].
    case_decide as Hd; [|by right].
    injection H as <-. subst i. by left; left.
  - intros [[[= -> ->] | H] | [H [Hne Hnotin]]].
    + right. split; [|done]. by rewrite decide_True.
    + by left.
    + right. split; [|done]. by rewrite decide_False.
Qed.

(** The table of ids is the table of names read backwards. *)
Lemma reverse_event_names_lookup (m : gmap string guint) id event_name :
  (∀ n1 n2 i, m !! n1 = Some i → m !! n2 = Some i → n1 = n2) →
  reverse_event_names m !! id = Some event_name ↔ m !! event_name = Some id.
Proof.
  intros Hinj. unfold reverse_event_names.
  etrans; [apply reverse_event_names_fold|].
  { apply NoDup_fmap_2_strong; [|apply NoDup_map_to_list].
    intros [n1 i1] [n2 i2] H1%elem_of_map_to_list H2%elem_of_map_to_list Heq.
    simpl in Heq. subst i2. f_equal. by eapply Hinj. }
  rewrite elem_of_map_to_list, lookup_empty.
  split; [intros [H | [H _]]; done | by left].
Qed.

(** ** The sort by id *)

Section sort_strict.
Context {A : Type} (compare_func : A → A → Z) (R : relation A) `{!Transitive R}.

Lemma g_list_sort_merge_strict (l1 l2 : list A) :
  (∀ a b, a ∈ l1 → b ∈ l2 → decides compare_func R a b) →
  StronglySorted R l1 → StronglySorted R l2 →
  StronglySorted R (g_list_sort_merge compare_func l1 l2).
Proof.
  unfold g_list_sort_merge. intros Hdec Hs1. revert l2 Hdec.
  induction Hs1 as [|x1 l1 Hs1 IH1 Hx1]; intros l2 Hdec Hs2.
  { by rewrite list_merge_nil_l. }
  induction Hs2 as [|x2 l2 Hs2 IH2 Hx2].
  { rewrite list_merge_nil_r. by constructor. }
  rewrite list_merge_cons.
  pose proof (Hdec x1 x2 ltac:(left) ltac:(left)) as H12. unfold decides in H12.
  destruct (decide (cmp_le compare_func x1 x2)).
  - constructor.
    + apply IH1; [|by constructor]. intros a b Ha Hb. apply Hdec; [by right | done].
    + rewrite merge_Permutation. apply Forall_app. split; [done|].
      constructor; [done|]. eapply Forall_impl; [exact Hx2|].
      intros b Hb. by trans x2.
  - constructor.
    + apply IH2. intros a b Ha Hb. apply Hdec; [done | by right].
    + rewrite merge_Permutation. apply Forall_app. split; [|done].
      constructor; [done|]. eapply Forall_impl; [exact Hx1|].
      intros b Hb. by trans x1.
Qed.

Lemma g_list_sort_real_strict fuel (l : list A) :
  (length l ≤ fuel)%nat →
  (∀ i j a b, l !! i = Some a → l !! j = Some b → i ≠ j → decides compare_func R a b) →
  StronglySorted R (g_list_sort_real fuel compare_func l).
Proof.
  revert l. induction fuel as [|fuel IH]; intros l Hlen Hdec; cbn [g_list_sort_real].
  { destruct l; [constructor | simpl in Hlen; lia]. }
  destruct l as [|x [|y l']]; [repeat constructor..|].
  set (l := x :: y :: l') in *.
  assert (Hh : (1 ≤ length l / 2 < length l)%nat).
  { split.
    - apply Nat.div_le_lower_bound; simpl; lia.
    - apply Nat.div_lt; simpl; lia. }
  set (h := (length l / 2)%nat) in *.
  apply g_list_sort_merge_strict.
  - intros a b. rewrite !g_list_sort_real_Permutation.
    intros [i Hi]%list_elem_of_lookup [j Hj]%list_elem_of_lookup.
    apply lookup_take_Some in Hi as [Hi Hlt]. rewrite lookup_drop in Hj.
    eapply Hdec; [exact Hi | exact Hj | lia].
  - apply IH; [rewrite length_take; lia|].
    intros i j a b [Hi _]%lookup_take_Some [Hj _]%lookup_take_Some. by apply Hdec.
  - apply IH; [rewrite length_drop; lia|].
    intros i j a b. rewrite !lookup_drop. intros Hi Hj Hij.
    eapply Hdec; [exact Hi | exact Hj | lia].
Qed.

(** A list whose elements the comparison function orders strictly is put
    in that order. *)
Lemma g_list_sort_with_data_strict (l : list A) :
  (∀ i j a b, l !! i = Some a → l !! j = Some b → i ≠ j → decides compare_func R a b) →
  StronglySorted R (g_list_sort_with_data l compare_func).
Proof. by apply g_list_sort_real_strict. Qed.

End sort_strict.

Lemma eventinst_comp_id_key a b :
  inst_key a ≠ inst_key b →
  decides (cl4_prof_eventinst_comp CL4_PROF_EVENTINST_SORT_ID) inst_key_lt a b.
Proof.
  intros Hne.
  assert (H : cmp_le (cl4_prof_eventinst_comp CL4_PROF_EVENTINST_SORT_ID) a b
              ↔ inst_key_lt a b).
  { revert Hne. unfold cmp_le, inst_key_lt, inst_key, cl4_prof_eventinst_comp.
    destruct (Z.gtb_spec (inst_id a) (inst_id b));
      [destruct (inst_type a), (inst_type b); cbv iota; lia|].
    destruct (Z.ltb_spec (inst_id a) (inst_id b));
      destruct (inst_type a), (inst_type b); cbv iota; lia. }
  unfold decides. destruct (decide _) as [Hd|Hd]; [by apply H|].
  destruct (Z.lt_trichotomy (inst_key a) (inst_key b)) as [Hlt|[Heq|Hgt]];
    [exfalso; apply Hd, H, Hlt | done | done].
Qed.

Lemma instants_from_keys id l :
  Forall (λ x, 2 * id <= inst_key x) (instants_from id l).
Proof.
  revert id. induction l as [|ne l IH]; intros id; simpl; [constructor|].
  repeat constructor; try (unfold inst_key; simpl; lia).
  eapply Forall_impl; [apply (IH (id + 1))|]. simpl. intros; lia.
Qed.

(** The instants of a stream, as ingestion numbers them, are in the order
    of the sort by id. *)
Lemma instants_from_sorted id l :
  StronglySorted inst_key_lt (instants_from id l).
Proof.
  revert id. induction l as [|ne l IH]; intros id; simpl; [constructor|].
  pose proof (instants_from_keys (id + 1) l) as Hk.
  repeat constructor; [apply IH|..].
  - eapply Forall_impl; [exact Hk|]. unfold inst_key_lt, inst_key. simpl. intros; lia.
  - unfold inst_key_lt, inst_key. simpl. lia.
  - eapply Forall_impl; [exact Hk|]. unfold inst_key_lt, inst_key. simpl. intros; lia.
Qed.

Lemma StronglySorted_key_lookup (l : list CL4ProfEventInst) i j a b :
  StronglySorted inst_key_lt l → l !! i = Some a → l !! j = Some b →
  (i < j)%nat → inst_key a < inst_key b.
Proof.
  intros Hs. revert i j. induction Hs as [|x l Hs IH Hx]; intros i j; [done|].
  destruct i as [|i], j as [|j]; simpl; try lia.
  - intros [= <-] Hb _. rewrite Forall_forall in Hx. eapply Hx, list_elem_of_lookup_2, Hb.
  - intros Ha Hb Hij. eapply IH; [exact Ha | exact Hb | lia].
Qed.

(** Sorting by id the instants that ingestion has stacked puts them back in
    the order of the stream. *)
Lemma sort_id_instants_from id l :
  g_list_sort_with_data (reverse (instants_from id l))
    (cl4_prof_eventinst_comp CL4_PROF_EVENTINST_SORT_ID)
  = instants_from id l.
Proof.
  apply (StronglySorted_unique_strong inst_key_lt).
  - unfold inst_key_lt. intros; lia.
  - apply g_list_sort_with_data_strict.
    { intros a b c. unfold inst_key_lt. lia. }
    intros i j a b Hi Hj Hij. apply eventinst_comp_id_key.
    pose proof (instants_from_sorted id l) as Hs.
    apply reverse_lookup_Some in Hi as [Hi Hil], Hj as [Hj Hjl].
    destruct (decide (i < j)%nat).
    + pose proof (StronglySorted_key_lookup _ _ _ _ _ Hs Hj Hi ltac:(lia)). lia.
    + pose proof (StronglySorted_key_lookup _ _ _ _ _ Hs Hi Hj ltac:(lia)). lia.
  - apply instants_from_sorted.
  - by rewrite g_list_sort_with_data_Permutation, reverse_Permutation.
Qed.

(** ** The aggregate times, name by name *)

Lemma init_aggregate_fold (kvs : list (string * guint)) (m : gmap string CL4ProfEventAgg) :
  ∃ m',
    foldl (λ t kv, g_hash_table_insert t kv.1 (cl4_prof_eventagg_new kv.1))
      (Some m) kvs = Some m' ∧
    ∀ k, (k ∈ kvs.*1 → m' !! k = Some (cl4_prof_eventagg_new k)) ∧
         (k ∉ kvs.*1 → m' !! k = m !! k).
Proof.
  revert m. induction kvs as [|[n i] kvs IH]; intros m; simpl.
  { exists m. split; [done|]. intros k. split; [by intros ?%elem_of_nil | done]. }
  destruct (IH (<[n := cl4_prof_eventagg_new n]> m)) as (m' & -> & Hm').
  exists m'. split; [done|]. intros k. destruct (Hm' k) as [Hin Hout]. split.
  - intros Hk. destruct (decide (k ∈ kvs.*1)) as [Hk'|Hk']; [by apply Hin|].
    apply elem_of_cons in Hk as [->|Hk]; [|done].
    by rewrite (Hout Hk'), lookup_insert_eq.
  - intros [Hne Hk]%not_elem_of_cons. rewrite (Hout Hk).
    by rewrite lookup_insert_ne.
Qed.

(** The first loop of [cl4_prof_calc_agg] on an empty table: one zeroed
    entry per registered name. *)
Lemma init_aggregate_lookup (names : gmap string guint) :
  ∃ m0, init_aggregate names (Some ∅) = Some m0 ∧
        dom m0 = dom names ∧
        ∀ k, k ∈ dom names → m0 !! k = Some (cl4_prof_eventagg_new k).
Proof.
  unfold init_aggregate.
  destruct (init_aggregate_fold (map_to_list names) ∅) as (m0 & -> & Hm0).
  assert (Hdom : ∀ k, k ∈ (map_to_list names).*1 ↔ k ∈ dom names).
  { intros k. rewrite elem_of_dom, list_elem_of_fmap. split.
    - intros ([k' i] & -> & Hin%elem_of_map_to_list). by eexists.
    - intros [i Hi]. exists (k, i). split; [done|]. by apply elem_of_map_to_list. }
  exists m0. split; [done|]. split.
  - apply set_eq. intros k. rewrite <- Hdom. destruct (Hm0 k) as [Hin Hout].
    rewrite elem_of_dom. split.
    + intros Hsome. destruct (decide (k ∈ (map_to_list names).*1)) as [|Hk]; [done|].
      rewrite (Hout Hk), lookup_empty in Hsome. by destruct Hsome.
    + intros Hk. rewrite (Hin Hk). by eexists.
  - intros k Hk. by apply Hm0, Hdom.
Qed.

Lemma name_time_cons event_name ne l :
  name_time event_name (ne :: l) =
    (if decide (cl4_event_get_final_name ne.2 = event_name) then duration ne.2 else 0)
    + name_time event_name l.
Proof.
  unfold name_time. rewrite filter_cons. by case_decide.
Qed.

Lemma stream_time_cons ne l : stream_time (ne :: l) = duration ne.2 + stream_time l.
Proof. done. Qed.

(** The second loop of [cl4_prof_calc_agg] on the instants of a stream in
    the order of the stream: every entry gets the durations of the events of
    its name, and the total the durations of all the events. *)
Lemma agg_intervals_instants_from id l (m : gmap string CL4ProfEventAgg) total :
  0 <= total < 2 ^ 64 →
  (∀ k a, m !! k = Some a → 0 <= absolute_time a < 2 ^ 64) →
  (∀ ne, ne ∈ l → is_Some (m !! cl4_event_get_final_name ne.2)) →
  ∃ m',
    agg_intervals (instants_from id l) (Some m) total
      = Some (Some m', u64 (total + stream_time l)) ∧
    ∀ k, m' !! k = add_name_time k l <$> m !! k.
Proof.
  revert id m total. induction l as [|ne l IH]; intros id m total Htotal Hm Hnames.
  { exists m. split.
    - simpl. unfold stream_time. simpl. by rewrite Z.add_0_r, u64_small.
    - intros k. destruct (m !! k) as [a|] eqn:Hk; [|done]. simpl.
      unfold add_name_time, name_time. simpl. rewrite Z.add_0_r.
      rewrite u64_small by (by eapply Hm). by destruct a. }
  destruct (Hnames ne ltac:(left)) as [a0 Ha0].
  cbn [instants_from agg_intervals]. simpl. rewrite Ha0.
  change (u64 (info_value ne.2 CL_PROFILING_COMMAND_END
               - info_value ne.2 CL_PROFILING_COMMAND_START))
    with (duration ne.2).
  set (m1 := <[cl4_event_get_final_name ne.2 := add_absolute_time (duration ne.2) a0]> m).
  destruct (IH (id + 1) m1 (u64 (total + duration ne.2))) as (m' & -> & Hm').
  - apply u64_range.
  - intros k a. unfold m1. rewrite lookup_insert. case_decide.
    + intros [= <-]. simpl. apply u64_range.
    + apply Hm.
  - intros ne' Hin. unfold m1. rewrite lookup_insert. case_decide; [by eexists|].
    apply Hnames. by right.
  - exists m'. split.
    + rewrite stream_time_cons, u64_add_u64_l. do 3 f_equal. lia.
    + intros k. rewrite Hm'. unfold m1. rewrite lookup_insert.
      unfold add_name_time. rewrite name_time_cons.
      destruct (decide (cl4_event_get_final_name ne.2 = k)) as [<-|Hne].
      * rewrite Ha0. simpl. f_equal. f_equal.
        rewrite u64_add_u64_l. f_equal. lia.
      * by rewrite Z.add_0_l.
Qed.

(** ** The passes of [cl4_prof_calc], one after the other *)

Lemma process_queues_flat p :
  cl4_prof_process_queues p =
    match cqueues p with
    | None => None
    | Some _ =>
        match add_events (tagged_stream p) p with
        | (inl e, p') => Some (inl e, p')
        | (inr _, p') =>
            match event_names p' with
            | None => None
            | Some names =>
                Some (inr tt, set_event_name_ids (Some (reverse_event_names names)) p')
            end
        end
    end.
Proof.
  unfold cl4_prof_process_queues, tagged_stream.
  destruct (cqueues p) as [qs|]; [|done]. simpl.
  by rewrite process_queue_table_flat.
Qed.

Lemma tagged_stream_calc_tables p : tagged_stream (calc_tables p) = tagged_stream p.
Proof. done. Qed.

Lemma stream_names_intern l :
  ∃ names, foldl intern (Some ∅) (stream_names l) = Some names ∧ dense_ids names ∧
           dom names = list_to_set (stream_names l).
Proof.
  destruct (foldl_intern_dense (stream_names l) ∅ dense_ids_empty)
    as (names & Hn & Hd & Hdom & _).
  exists names. split; [done|]. split; [done|].
  by rewrite Hdom, dom_empty_L, (right_id_L ∅ (∪)).
Qed.

(** A successful ingestion on a profile not yet calculated. *)
Lemma process_queues_ingested p u p3 :
  before_calc p →
  cl4_prof_process_queues (calc_tables p) = Some (inr u, p3) →
  ∃ names, ingested (tagged_stream p) names p3.
Proof.
  intros Hbc. rewrite process_queues_flat, tagged_stream_calc_tables.
  destruct (cqueues (calc_tables p)); [|done].
  destruct (add_events _ _) as [[e|u'] p'] eqn:Hrun; [done|].
  destruct (add_events_frame _ _ _ _ Hrun) as [_ _ Hagg Hov Htot Heff _].
  apply add_events_records in Hrun as (Hok & He & Hs & Hnames).
  simpl in *.
  rewrite (bc_events _ Hbc), app_nil_r in He.
  rewrite (bc_start_time _ Hbc) in Hs.
  rewrite (bc_overmat _ Hbc) in Hov.
  rewrite (bc_total_events_time _ Hbc) in Htot.
  rewrite (bc_total_events_eff_time _ Hbc) in Heff.
  destruct (stream_names_intern (tagged_stream p)) as (names & Hfold & _).
  unfold stream_names in Hfold. rewrite Hfold in Hnames. rewrite Hnames.
  intros [= _ <-]. exists names. by constructor.
Qed.

(** The instants that a successful ingestion of fewer than [2^32] events
    leaves. *)
Lemma process_queues_instants p u p3 :
  before_calc p → Z.of_nat (length (tagged_stream p)) < 2 ^ 32 →
  cl4_prof_process_queues (calc_tables p) = Some (inr u, p3) →
  num_events p3 = Z.of_nat (length (tagged_stream p)) ∧
  event_instants p3 = reverse (instants_from 1 (tagged_stream p)).
Proof.
  intros Hbc Hlen. rewrite process_queues_flat, tagged_stream_calc_tables.
  destruct (cqueues (calc_tables p)); [|done].
  destruct (add_events _ _) as [[e|u'] p'] eqn:Hrun; [done|].
  apply add_events_instants in Hrun as (Hn & Hi);
    simpl; rewrite ?(bc_num_events _ Hbc); [|lia..].
  simpl in *. rewrite (bc_num_events _ Hbc) in Hn, Hi.
  rewrite (bc_event_instants _ Hbc), app_nil_r in Hi.
  destruct (event_names p'); [|done]. by intros [= _ <-].
Qed.

(** When every query of every event succeeds, so does the ingestion. *)
Lemma process_queues_total p :
  is_Some (cqueues p) → Forall (λ ne, queries_ok ne.2) (tagged_stream p) →
  ∃ p3, cl4_prof_process_queues (calc_tables p) = Some (inr tt, p3).
Proof.
  intros [qs Hqs] Hok. rewrite process_queues_flat, tagged_stream_calc_tables.
  simpl. rewrite Hqs.
  destruct (add_events_total _ (calc_tables p) Hok) as [p' Hrun]. rewrite Hrun.
  apply add_events_records in Hrun as (_ & _ & _ & Hrun). simpl in Hrun.
  destruct (stream_names_intern (tagged_stream p)) as (names & Hfold & _).
  unfold stream_names in Hfold. rewrite Hfold in Hrun. rewrite Hrun. by eexists.
Qed.

(** [cl4_prof_calc_agg] on an ingested stream: it is defined, puts the
    instants back in the order of the stream, and computes for every name
    the sum of the durations of its events. *)
Lemma calc_agg_ingested l names p3 :
  ingested l names p3 → event_instants p3 = reverse (instants_from 1 l) →
  ∃ m4,
    cl4_prof_calc_agg p3 =
      Some (set_aggregate (Some m4)
              (set_total_events_time (u64 (stream_time l))
                 (set_event_instants (instants_from 1 l) p3))) ∧
    dom m4 = dom names ∧
    ∀ k, k ∈ dom names → m4 !! k = Some (aggregate_of l k).
Proof.
  intros Hin Hinst. unfold cl4_prof_calc_agg.
  rewrite (in_event_names _ _ _ Hin), Hinst,
    (in_aggregate _ _ _ Hin), (in_total_events_time _ _ _ Hin).
  rewrite sort_id_instants_from.
  destruct (init_aggregate_lookup names) as (m0 & -> & Hdom0 & Hm0).
  destruct (stream_names_intern l) as (names' & Hfold & _ & Hdom).
  rewrite (in_names _ _ _ Hin) in Hfold. injection Hfold as <-.
  destruct (agg_intervals_instants_from 1 l m0 0) as (m1 & -> & Hm1).
  - lia.
  - intros k a Hk. assert (Hkd : k ∈ dom names) by (rewrite <- Hdom0; by apply elem_of_dom).
    rewrite (Hm0 k Hkd) in Hk. injection Hk as <-. simpl. lia.
  - intros ne Hne. apply elem_of_dom. rewrite Hdom0, Hdom.
    apply elem_of_list_to_set. unfold stream_names.
    apply list_elem_of_fmap. by exists ne.
  - simpl. eexists. split; [reflexivity|]. split.
    + rewrite dom_fmap_L. rewrite <- Hdom0. apply set_eq. intros k.
      rewrite !elem_of_dom, Hm1. by rewrite fmap_is_Some.
    + intros k Hk. rewrite lookup_fmap, Hm1, (Hm0 k Hk). done.
Qed.

Lemma calc_overmat_fields p p' ov :
  cl4_prof_calc_overmat p = Some (p', ov) →
  ∃ eff mat,
    p' = set_total_events_eff_time eff
           (set_overmat mat
              (set_event_instants
                 (g_list_sort_with_data (event_instants p)
                    (cl4_prof_eventinst_comp CL4_PROF_EVENTINST_SORT_INSTANT)) p)).
Proof.
  unfold cl4_prof_calc_overmat. destruct (sweep _ _ _ _) as [st|]; [|done].
  intros [= <- _]. by eexists _, _.
Qed.

(** The passes of a successful [cl4_prof_calc] on a profile not yet
    calculated. *)
Lemma calc_passes p err r p' :
  before_calc p →
  cl4_prof_calc (Some p) err = Some r → status r = CL_TRUE →
  prof_after r = Some p' →
  ∃ names p3 eff mat,
    ingested (tagged_stream p) names p3 ∧
    ∃ p4, cl4_prof_calc_agg p3 = Some p4 ∧
    p' = set_total_events_eff_time eff
           (set_overmat mat
              (set_event_instants
                 (g_list_sort_with_data (event_instants p4)
                    (cl4_prof_eventinst_comp CL4_PROF_EVENTINST_SORT_INSTANT)) p4)) ∧
    (Z.of_nat (length (tagged_stream p)) < 2 ^ 32 →
     num_events p3 = Z.of_nat (length (tagged_stream p)) ∧
     event_instants p3 = reverse (instants_from 1 (tagged_stream p))).
Proof.
  intros Hbc Hcalc Hst Hp'.
  destruct (calc_success _ _ _ _ Hcalc Hst Hp')
    as (_ & u & p3 & p4 & ov & Hq & Ha & Ho).
  destruct (process_queues_ingested _ _ _ Hbc Hq) as [names Hin].
  apply calc_overmat_fields in Ho as (eff & mat & ->).
  exists names, p3, eff, mat. split; [done|]. exists p4. split; [done|].
  split; [done|]. intros Hlen. by eapply process_queues_instants.
Qed.

(** ** The profile after a successful calculation *)

(** What a successful [cl4_prof_calc] keeps of the ingestion. *)
Lemma calc_ingest_fields p err r p' :
  before_calc p →
  cl4_prof_calc (Some p) err = Some r → status r = CL_TRUE →
  prof_after r = Some p' →
  Forall (λ ne, queries_ok ne.2) (tagged_stream p) ∧
  events p' = reverse (record_of <$> tagged_stream p) ∧
  start_time p' = earliest_start (tagged_stream p).
Proof.
  intros Hbc Hcalc Hst Hp'.
  destruct (calc_passes _ _ _ _ Hbc Hcalc Hst Hp')
    as (names & p3 & eff & mat & Hin & p4 & Ha & -> & _).
  split; [apply (in_queries _ _ _ Hin)|]. simpl.
  apply calc_agg_frame in Ha as (_ & _ & -> & _ & _ & -> & _).
  split; [apply (in_events _ _ _ Hin) | apply (in_start_time _ _ _ Hin)].
Qed.

(** After a successful [cl4_prof_calc] on a profile not yet calculated,
    every profiling query of every event of the queues has succeeded, and
    the list of events holds one record per event, with its queue, its name
    and its four instants, the last event ingested first. *)
Theorem calc_records_stream p err r p' :
  before_calc p →
  cl4_prof_calc (Some p) err = Some r → status r = CL_TRUE →
  prof_after r = Some p' →
  Forall (λ ne, queries_ok ne.2) (tagged_stream p) ∧
  events p' = reverse (record_of <$> tagged_stream p).
Proof.
  intros Hbc Hcalc Hst Hp'.
  destruct (calc_ingest_fields _ _ _ _ Hbc Hcalc Hst Hp') as (Hok & Hev & _).
  by split.
Qed.

Lemma calc_records_stream_witness :
  Forall (λ ne : string * CL4Event, queries_ok ne.2) (tagged_stream scenario_S3) ∧
  events (calc_prof scenario_S3) = reverse (record_of <$> tagged_stream scenario_S3).
Proof.
  apply (calc_records_stream scenario_S3 (Some None) (calc_ret scenario_S3)).
  - by constructor.
  - vm_compute. reflexivity.
  - reflexivity.
  - vm_compute. reflexivity.
Defined.

Lemma earliest_start_fold (l : list (string * CL4Event)) s :
  let m := foldl (λ s ne, Z.min (info_value ne.2 CL_PROFILING_COMMAND_START) s) s l in
  m <= s ∧
  (∀ ne, ne ∈ l → m <= info_value ne.2 CL_PROFILING_COMMAND_START) ∧
  (m = s ∨ ∃ ne, ne ∈ l ∧ m = info_value ne.2 CL_PROFILING_COMMAND_START).
Proof.
  revert s. induction l as [|ne l IH]; intros s; simpl.
  { split; [lia|]. split; [by intros ? ?%elem_of_nil | by left]. }
  destruct (IH (Z.min (info_value ne.2 CL_PROFILING_COMMAND_START) s))
    as (Hle & Hall & Hatt).
  split; [lia|]. split.
  - intros ne' [->|Hin]%elem_of_cons; [lia | by apply Hall].
  - destruct Hatt as [Heq | (ne' & Hin & Heq)].
    + destruct (Z.min_spec (info_value ne.2 CL_PROFILING_COMMAND_START) s)
        as [[_ Hm]|[_ Hm]]; rewrite Hm in Heq |- *.
      * right. exists ne. split; [by left | done].
      * by left.
    + right. exists ne'. split; [by right | done].
Qed.

(** After a successful [cl4_prof_calc] on a profile not yet calculated,
    [start_time] is the earliest start instant of the events recorded, and
    [CL_ULONG_MAX] when no event starts before it. *)
Theorem calc_start_time_earliest p err r p' :
  before_calc p →
  cl4_prof_calc (Some p) err = Some r → status r = CL_TRUE →
  prof_after r = Some p' →
  start_time p' <= CL_ULONG_MAX ∧
  (∀ ev, ev ∈ events p' → start_time p' <= t_start ev) ∧
  (start_time p' = CL_ULONG_MAX ∨ ∃ ev, ev ∈ events p' ∧ t_start ev = start_time p').
Proof.
  intros Hbc Hcalc Hst Hp'.
  destruct (calc_ingest_fields _ _ _ _ Hbc Hcalc Hst Hp') as (_ & Hev & Hs).
  rewrite Hs, Hev.
  destruct (earliest_start_fold (tagged_stream p) CL_ULONG_MAX) as (Hle & Hall & Hatt).
  fold (earliest_start (tagged_stream p)) in Hle, Hall, Hatt.
  split; [done|]. split.
  - intros ev (ne & -> & Hne)%elem_of_reverse%list_elem_of_fmap. by apply Hall.
  - destruct Hatt as [?|(ne & Hne & Heq')]; [by left|]. right.
    exists (record_of ne). split; [|by rewrite Heq'].
    apply elem_of_reverse, list_elem_of_fmap. by exists ne.
Qed.

Lemma calc_start_time_earliest_witness :
  start_time (calc_prof scenario_S3) <= CL_ULONG_MAX ∧
  (∀ ev, ev ∈ events (calc_prof scenario_S3) →
         start_time (calc_prof scenario_S3) <= t_start ev) ∧
  (start_time (calc_prof scenario_S3) = CL_ULONG_MAX ∨
   ∃ ev, ev ∈ events (calc_prof scenario_S3) ∧
         t_start ev = start_time (calc_prof scenario_S3)).
Proof.
  apply (calc_start_time_earliest scenario_S3 (Some None) (calc_ret scenario_S3)).
  - by constructor.
  - vm_compute. reflexivity.
  - reflexivity.
  - vm_compute. reflexivity.
Defined.

(** After a successful [cl4_prof_calc] on a profile not yet calculated
    that holds fewer than [2^32] events, the events are numbered from [1] in
    the order of ingestion, and the list of instants holds, for each event,
    one START and one END instant that carry its number, its names and the
    instants queried. *)
Theorem calc_numbers_events p err r p' :
  before_calc p → Z.of_nat (length (tagged_stream p)) < 2 ^ 32 →
  cl4_prof_calc (Some p) err = Some r → status r = CL_TRUE →
  prof_after r = Some p' →
  num_events p' = Z.of_nat (length (tagged_stream p)) ∧
  event_instants p' ≡ₚ instants_from 1 (tagged_stream p).
Proof.
  intros Hbc Hlen Hcalc Hst Hp'.
  destruct (calc_passes _ _ _ _ Hbc Hcalc Hst Hp')
    as (names & p3 & eff & mat & Hin & p4 & Ha & -> & Hids).
  destruct (Hids Hlen) as [Hn Hi]. simpl.
  destruct (calc_agg_ingested _ _ _ Hin Hi) as (m4 & Ha' & _).
  rewrite Ha' in Ha. injection Ha as <-. simpl.
  split; [done|]. apply g_list_sort_with_data_Permutation.
Qed.

Lemma calc_numbers_events_witness :
  num_events (calc_prof scenario_S3) = Z.of_nat (length (tagged_stream scenario_S3)) ∧
  event_instants (calc_prof scenario_S3) ≡ₚ instants_from 1 (tagged_stream scenario_S3).
Proof.
  apply (calc_numbers_events scenario_S3 (Some None) (calc_ret scenario_S3)).
  - by constructor.
  - vm_compute. reflexivity.
  - vm_compute. reflexivity.
  - reflexivity.
  - vm_compute. reflexivity.
Defined.

(** ** The aggregate times *)

(** The table of aggregate times after a successful [cl4_prof_calc]. *)
Lemma calc_aggregate_table p err r p' :
  before_calc p → Z.of_nat (length (tagged_stream p)) < 2 ^ 32 →
  cl4_prof_calc (Some p) err = Some r → status r = CL_TRUE →
  prof_after r = Some p' →
  total_events_time p' = u64 (stream_time (tagged_stream p)) ∧
  ∃ m,
    aggregate p' = Some m ∧
    ∀ event_name,
      m !! event_name =
        if decide (event_name ∈ stream_names (tagged_stream p))
        then Some (aggregate_of (tagged_stream p) event_name) else None.
Proof.
  intros Hbc Hlen Hcalc Hst Hp'.
  destruct (calc_passes _ _ _ _ Hbc Hcalc Hst Hp')
    as (names & p3 & eff & mat & Hin & p4 & Ha & -> & Hids).
  destruct (Hids Hlen) as [Hn Hi].
  destruct (calc_agg_ingested _ _ _ Hin Hi) as (m4 & Ha' & Hdom & Hm4).
  rewrite Ha' in Ha. injection Ha as <-. simpl.
  split; [done|]. exists m4. split; [done|]. intros event_name.
  destruct (stream_names_intern (tagged_stream p)) as (names' & Hfold & _ & Hdom').
  rewrite (in_names _ _ _ Hin) in Hfold. injection Hfold as <-.
  case_decide as Hk.
  - apply Hm4. rewrite Hdom'. by apply elem_of_list_to_set.
  - apply not_elem_of_dom. rewrite Hdom, Hdom'. by rewrite elem_of_list_to_set.
Qed.

(** After a successful [cl4_prof_calc] on a profile not yet calculated
    that holds fewer than [2^32] events, [cl4_prof_get_eventagg] returns, for
    the name of an event of the queues, the entry whose [absolute_time] is
    the sum of the durations of the events of that name and whose
    [relative_time] is its quotient by [total_events_time], and [NULL] for
    any other name; [total_events_time] is the sum of the durations of all
    the events (sums of [cl_ulong], so modulo [2^64]). *)
Theorem calc_aggregate_times p err r p' :
  before_calc p → Z.of_nat (length (tagged_stream p)) < 2 ^ 32 →
  cl4_prof_calc (Some p) err = Some r → status r = CL_TRUE →
  prof_after r = Some p' →
  total_events_time p' = u64 (stream_time (tagged_stream p)) ∧
  ∀ event_name,
    cl4_prof_get_eventagg (Some p') event_name =
      (if decide (event_name ∈ stream_names (tagged_stream p))
       then Some (aggregate_of (tagged_stream p) event_name) else None, []).
Proof.
  intros Hbc Hlen Hcalc Hst Hp'.
  destruct (calc_aggregate_table _ _ _ _ Hbc Hlen Hcalc Hst Hp')
    as (Htot & m & Hm & Hlook).
  split; [done|]. intros event_name.
  unfold cl4_prof_get_eventagg. rewrite Hm. f_equal. apply Hlook.
Qed.

Lemma calc_aggregate_times_witness :
  total_events_time (calc_prof scenario_S3) = u64 (stream_time (tagged_stream scenario_S3)) ∧
  ∀ event_name,
    cl4_prof_get_eventagg (Some (calc_prof scenario_S3)) event_name =
      (if decide (event_name ∈ stream_names (tagged_stream scenario_S3))
       then Some (aggregate_of (tagged_stream scenario_S3) event_name) else None, []).
Proof.
  apply (calc_aggregate_times scenario_S3 (Some None) (calc_ret scenario_S3)).
  - by constructor.
  - vm_compute. reflexivity.
  - vm_compute. reflexivity.
  - reflexivity.
  - vm_compute. reflexivity.
Defined.

Lemma name_time_Permutation event_name l1 l2 :
  l1 ≡ₚ l2 → name_time event_name l1 = name_time event_name l2.
Proof.
  intros Hp. unfold name_time. apply sum_Permutation. by rewrite Hp.
Qed.

Lemma stream_time_Permutation l1 l2 : l1 ≡ₚ l2 → stream_time l1 = stream_time l2.
Proof.
  intros Hp. unfold stream_time. apply sum_Permutation. by rewrite Hp.
Qed.

(** The aggregate times do not depend on the order in which the queues
    and their events are ingested: two successful calculations on profiles
    whose queues hold the same events (fewer than [2^32]), in any order, give
    the same [total_events_time] and the same answers of
    [cl4_prof_get_eventagg]. *)
Theorem calc_aggregate_order_independent p1 p2 err1 err2 r1 r2 p1' p2' :
  before_calc p1 → before_calc p2 →
  tagged_stream p1 ≡ₚ tagged_stream p2 →
  Z.of_nat (length (tagged_stream p1)) < 2 ^ 32 →
  cl4_prof_calc (Some p1) err1 = Some r1 → status r1 = CL_TRUE →
  prof_after r1 = Some p1' →
  cl4_prof_calc (Some p2) err2 = Some r2 → status r2 = CL_TRUE →
  prof_after r2 = Some p2' →
  total_events_time p1' = total_events_time p2' ∧
  ∀ event_name,
    cl4_prof_get_eventagg (Some p1') event_name
    = cl4_prof_get_eventagg (Some p2') event_name.
Proof.
  intros Hbc1 Hbc2 Hperm Hlen1 Hcalc1 Hst1 Hp1 Hcalc2 Hst2 Hp2.
  assert (Hlen2 : Z.of_nat (length (tagged_stream p2)) < 2 ^ 32)
    by by rewrite <- Hperm.
  destruct (calc_aggregate_table _ _ _ _ Hbc1 Hlen1 Hcalc1 Hst1 Hp1)
    as (Htot1 & m1 & Hm1 & Hlook1).
  destruct (calc_aggregate_table _ _ _ _ Hbc2 Hlen2 Hcalc2 Hst2 Hp2)
    as (Htot2 & m2 & Hm2 & Hlook2).
  split.
  { by rewrite Htot1, Htot2, (stream_time_Permutation _ _ Hperm). }
  intros event_name. unfold cl4_prof_get_eventagg. rewrite Hm1, Hm2. f_equal.
  rewrite Hlook1, Hlook2.
  assert (Hnames : event_name ∈ stream_names (tagged_stream p1)
                   ↔ event_name ∈ stream_names (tagged_stream p2)).
  { unfold stream_names. by rewrite Hperm. }
  destruct (decide (event_name ∈ stream_names (tagged_stream p1))) as [H1|H1];
    destruct (decide (event_name ∈ stream_names (tagged_stream p2))) as [H2|H2];
    try tauto.
  f_equal. unfold aggregate_of.
  by rewrite (name_time_Permutation _ _ _ Hperm), (stream_time_Permutation _ _ Hperm).
Qed.

Lemma calc_aggregate_order_independent_witness :
  total_events_time (calc_prof scenario_S3)
  = total_events_time (calc_prof scenario_S3_swapped) ∧
  ∀ event_name,
    cl4_prof_get_eventagg (Some (calc_prof scenario_S3)) event_name
    = cl4_prof_get_eventagg (Some (calc_prof scenario_S3_swapped)) event_name.
Proof.
  apply (calc_aggregate_order_independent scenario_S3 scenario_S3_swapped
           (Some None) (Some None)
           (calc_ret scenario_S3) (calc_ret scenario_S3_swapped)).
  - by constructor.
  - by constructor.
  - apply perm_swap.
  - vm_compute. reflexivity.
  - vm_compute. reflexivity.
  - reflexivity.
  - vm_compute. reflexivity.
  - vm_compute. reflexivity.
  - reflexivity.
  - vm_compute. reflexivity.
Defined.

(** ** The tables of names *)

(** After a successful [cl4_prof_calc] on a profile not yet calculated,
    the table of event names holds the names of the events of the queues and
    no other; their ids are the numbers below the number of names, each name
    having the number of distinct names ingested before its first event. *)
Theorem calc_event_names p err r p' :
  before_calc p →
  cl4_prof_calc (Some p) err = Some r → status r = CL_TRUE →
  prof_after r = Some p' →
  ∃ names,
    event_names p' = Some names ∧
    dom names = list_to_set (stream_names (tagged_stream p)) ∧
    dense_ids names ∧
    ∀ l1 event_name l2,
      stream_names (tagged_stream p) = l1 ++ event_name :: l2 → event_name ∉ l1 →
      names !! event_name = Some (Z.of_nat (size (list_to_set l1 : gset string))).
Proof.
  intros Hbc Hcalc Hst Hp'.
  destruct (calc_passes _ _ _ _ Hbc Hcalc Hst Hp')
    as (names & p3 & eff & mat & Hin & p4 & Ha & -> & _).
  exists names. simpl.
  apply calc_agg_frame in Ha as (-> & _).
  split; [apply (in_event_names _ _ _ Hin)|].
  destruct (stream_names_intern (tagged_stream p)) as (names' & Hfold & Hdense & Hdom).
  rewrite (in_names _ _ _ Hin) in Hfold. injection Hfold as <-.
  split; [done|]. split; [done|].
  intros l1 event_name l2 Heq Hnotin.
  destruct (foldl_intern_first_seen l1 event_name l2 Hnotin) as (m' & Hm' & Hl).
  rewrite <- Heq, (in_names _ _ _ Hin) in Hm'. by injection Hm' as <-.
Qed.

Lemma calc_event_names_witness :
  ∃ names,
    event_names (calc_prof scenario_S3) = Some names ∧
    dom names = list_to_set (stream_names (tagged_stream scenario_S3)) ∧
    dense_ids names ∧
    ∀ l1 event_name l2,
      stream_names (tagged_stream scenario_S3) = l1 ++ event_name :: l2 →
      event_name ∉ l1 →
      names !! event_name = Some (Z.of_nat (size (list_to_set l1 : gset string))).
Proof.
  apply (calc_event_names scenario_S3 (Some None) (calc_ret scenario_S3)).
  - by constructor.
  - vm_compute. reflexivity.
  - reflexivity.
  - vm_compute. reflexivity.
Defined.

(** After a successful [cl4_prof_calc] on a profile not yet calculated,
    the table [event_name_ids] is the inverse of [event_names]: it maps an id
    to a name exactly when [event_names] maps that name to that id. *)
Theorem calc_event_name_ids_inverse p err r p' :
  before_calc p →
  cl4_prof_calc (Some p) err = Some r → status r = CL_TRUE →
  prof_after r = Some p' →
  ∃ names ids,
    event_names p' = Some names ∧ event_name_ids p' = Some ids ∧
    ∀ id event_name, ids !! id = Some event_name ↔ names !! event_name = Some id.
Proof.
  intros Hbc Hcalc Hst Hp'.
  destruct (calc_passes _ _ _ _ Hbc Hcalc Hst Hp')
    as (names & p3 & eff & mat & Hin & p4 & Ha & -> & _).
  exists names, (reverse_event_names names). simpl.
  pose proof Ha as Hframe. apply calc_agg_frame in Hframe as (-> & _).
  split; [apply (in_event_names _ _ _ Hin)|]. split.
  - revert Ha. unfold cl4_prof_calc_agg. destruct (event_names p3); [|done].
    destruct (agg_intervals _ _ _) as [[[m|] total]|]; [|done..].
    intros [= <-]. simpl. apply (in_event_name_ids _ _ _ Hin).
  - destruct (stream_names_intern (tagged_stream p)) as (names' & Hfold & Hdense & _).
    rewrite (in_names _ _ _ Hin) in Hfold. injection Hfold as <-.
    intros id event_name. apply reverse_event_names_lookup. apply Hdense.
Qed.

Lemma calc_event_name_ids_inverse_witness :
  ∃ names ids,
    event_names (calc_prof scenario_S3) = Some names ∧
    event_name_ids (calc_prof scenario_S3) = Some ids ∧
    ∀ id event_name, ids !! id = Some event_name ↔ names !! event_name = Some id.
Proof.
  apply (calc_event_name_ids_inverse scenario_S3 (Some None) (calc_ret scenario_S3)).
  - by constructor.
  - vm_compute. reflexivity.
  - reflexivity.
  - vm_compute. reflexivity.
Defined.

(** ** When the calculation is defined *)

Lemma calc_unfold p err :
  before_calc p → (∀ e, err ≠ Some (Some e)) →
  cl4_prof_calc (Some p) err =
    match cl4_prof_process_queues (calc_tables p) with
    | None => None
    | Some (inl err_internal, p3) =>
        Some {| status := CL_FALSE; prof_after := Some p3;
                err_after := g_propagate_error err err_internal; log := [] |}
    | Some (inr _, p3) =>
        match cl4_prof_calc_agg p3 with
        | None => None
        | Some p4 =>
            match cl4_prof_calc_overmat p4 with
            | None => None
            | Some (p5, _) =>
                Some {| status := CL_TRUE; prof_after := Some p5;
                        err_after := err; log := [] |}
            end
        end
    end.
Proof.
  intros Hbc Herr. unfold cl4_prof_calc, calc_tables.
  destruct err as [[e|]|]; [by destruct (Herr e) | |];
    by rewrite (bc_aggregate _ Hbc).
Qed.

Lemma elem_of_instants_from x id l :
  x ∈ instants_from id l ↔
  ∃ i ne, l !! i = Some ne ∧
    (x = cl4_prof_eventinst_new (cl4_event_get_final_name ne.2) ne.1 (id + Z.of_nat i)
           (info_value ne.2 CL_PROFILING_COMMAND_START) CL4_PROF_EV_START ∨
     x = cl4_prof_eventinst_new (cl4_event_get_final_name ne.2) ne.1 (id + Z.of_nat i)
           (info_value ne.2 CL_PROFILING_COMMAND_END) CL4_PROF_EV_END).
Proof.
  revert id. induction l as [|ne l IH]; intros id; simpl.
  { split; [by intros ?%elem_of_nil | by intros (i & ne & ? & _)]. }
  rewrite !elem_of_cons, IH. split.
  - intros [-> | [-> | (i & ne' & Hi & Hx)]].
    + exists 0%nat, ne. split; [done|]. left. by rewrite Z.add_0_r.
    + exists 0%nat, ne. split; [done|]. right. by rewrite Z.add_0_r.
    + exists (S i), ne'. split; [done|].
      by replace (id + Z.of_nat (S i)) with (id + 1 + Z.of_nat i) by lia.
  - intros ([|i] & ne' & Hi & Hx); simpl in Hi.
    + injection Hi as <-. rewrite Z.add_0_r in Hx. destruct Hx; auto.
    + right. right. exists i, ne'. split; [done|].
      by replace (id + 1 + Z.of_nat i) with (id + Z.of_nat (S i)) by lia.
Qed.

(** *** Every start before every end: the sweep is defined *)

Lemma sweep_ends_first names n l st :
  StronglySorted instant_ge l →
  (∀ s e, s ∈ l → e ∈ l →
     inst_type s = CL4_PROF_EV_START → inst_type e = CL4_PROF_EV_END →
     instant s < instant e) →
  occurring_events st = ∅ ∨ (∀ e, e ∈ l → inst_type e ≠ CL4_PROF_EV_END) →
  is_Some (sweep names n l st).
Proof.
  intros Hsort. revert st.
  induction Hsort as [|x l Hsort IH Hx]; intros st Hlt Hocc; [by eexists|].
  assert (Hlt' : ∀ s e, s ∈ l → e ∈ l →
     inst_type s = CL4_PROF_EV_START → inst_type e = CL4_PROF_EV_END →
     instant s < instant e).
  { intros s e Hs He. apply Hlt; by right. }
  cbn [sweep]. destruct (inst_type x) eqn:Hty.
  - apply IH; [done|]. right. intros e He Hend.
    rewrite Forall_forall in Hx. specialize (Hx e He). unfold instant_ge in Hx.
    specialize (Hlt x e ltac:(left) ltac:(by right) Hty Hend). lia.
  - destruct Hocc as [Hocc | Hno]; [|by destruct (Hno x ltac:(left))].
    unfold sweep_end. rewrite Hocc, delete_empty, map_to_list_empty. simpl.
    apply IH; [done|]. by left.
Qed.

(** *** An event that ends before another one starts: the sweep is not *)

Lemma sweep_end_fold_missing names n x (ov : gmap guint (gmap guint cl_ulong))
    acc (kvs : list (guint * guint)) kv :
  kv ∈ kvs → ¬ has_overlap_start ov (inst_id x) kv.1 →
  foldl (sweep_end_step names n x ov) acc kvs = None.
Proof.
  intros Hin Hno. revert acc. induction kvs as [|kv' kvs IH]; intros acc.
  { by apply elem_of_nil in Hin. }
  apply elem_of_cons in Hin as [<- | Hin]; [|by apply IH].
  cbn [foldl]. replace (sweep_end_step names n x ov acc kv) with
    (@None (option (list cl_ulong) * cl_ulong)); [apply sweep_end_step_None|].
  destruct acc as [[mat tot]|]; [|done].
  unfold sweep_end_step. cbv beta iota zeta.
  assert (H1 : (if inst_id x <=? kv.1 then inst_id x else kv.1) = Z.min (inst_id x) kv.1).
  { destruct (Z.leb_spec (inst_id x) kv.1); lia. }
  assert (H2 : (if inst_id x >? kv.1 then inst_id x else kv.1) = Z.max (inst_id x) kv.1).
  { destruct (Z.gtb_spec (inst_id x) kv.1); lia. }
  rewrite H1, H2. symmetry.
  match goal with
  | |- match ?t with Some _ => _ | None => _ end = _ =>
      destruct t as [inner|] eqn:Ho
  end; [|done].
  match goal with
  | |- match ?t with Some _ => _ | None => _ end = _ =>
      destruct t as [v|] eqn:Hi
  end; [|done].
  destruct Hno. by exists inner, v.
Qed.

Lemma sweep_start_keeps_missing names x st a b :
  a ≠ b → inst_id x ≠ a → occurring_events st !! a = None →
  ¬ has_overlap_start (overlaps st) a b →
  ¬ has_overlap_start (overlaps (sweep_start names x st)) a b.
Proof.
  intros Hab Hx Hocc Hno (inner & v & H1 & H2). simpl in H1.
  destruct (sweep_start_step_lookup _ _ _ _ _ _ _ H1 H2)
    as [(inner0 & H1' & H2') | (_ & [k u] & Hin & Hk1 & Hk2)].
  - apply Hno. by exists inner0, v.
  - apply elem_of_map_to_list in Hin. simpl in *.
    assert (k ≠ a) by (intros ->; by rewrite Hocc in Hin).
    lia.
Qed.

Section sweep_disjoint.
Context (names : option (gmap string guint)) (num_event_names : guint).
Context (a b : guint) (Hab : a ≠ b).

(** Once [b] has started and while [a] has not, the END of [a] finds no
    start of the overlap of the two. *)
Lemma sweep_after_start l st yA :
  StronglySorted instant_ge l →
  yA ∈ l → inst_type yA = CL4_PROF_EV_END → inst_id yA = a →
  (∀ x, x ∈ l → inst_type x = CL4_PROF_EV_START → inst_id x = a →
        instant x < instant yA) →
  (∀ x, x ∈ l → inst_type x = CL4_PROF_EV_END → inst_id x ≠ b) →
  is_Some (occurring_events st !! b) → occurring_events st !! a = None →
  ¬ has_overlap_start (overlaps st) a b →
  sweep names num_event_names l st = None.
Proof.
  intros Hsort. revert st.
  induction Hsort as [|x l Hsort IH Hx]; intros st HyA Hty Hid Ha Hb Hocb Hoca Hno.
  { by apply elem_of_nil in HyA. }
  rewrite Forall_forall in Hx.
  cbn [sweep]. destruct (inst_type x) eqn:Htx.
  - (* START *)
    assert (Hxa : inst_id x ≠ a).
    { intros Hxa. specialize (Ha x ltac:(left) Htx Hxa).
      apply elem_of_cons in HyA as [-> | HyA]; [lia|].
      specialize (Hx yA HyA). unfold instant_ge in Hx. lia. }
    apply IH.
    + apply elem_of_cons in HyA as [-> | HyA]; [congruence | done].
    + done.
    + done.
    + intros x' Hx'. apply Ha. by right.
    + intros x' Hx'. apply Hb. by right.
    + simpl. rewrite lookup_insert. by case_decide.
    + simpl. by rewrite lookup_insert_ne.
    + by apply sweep_start_keeps_missing.
  - (* END *)
    destruct (decide (inst_id x = a)) as [Hxa | Hxa].
    + unfold sweep_end. destruct Hocb as [u Hu].
      rewrite (sweep_end_fold_missing _ _ _ _ _ _ (b, u)); [done| |].
      * apply elem_of_map_to_list. rewrite lookup_delete_ne; [done|]. by rewrite Hxa.
      * simpl. by rewrite Hxa.
    + destruct (sweep_end names num_event_names x st) as [st'|] eqn:Hend; [|done].
      assert (Hov : overlaps st' = overlaps st ∧
                    occurring_events st' = delete (inst_id x) (occurring_events st)).
      { revert Hend. unfold sweep_end. destruct (foldl _ _ _) as [[mat tot]|]; [|done].
        by intros [= <-]. }
      destruct Hov as [Hov Hoc].
      apply IH.
      * apply elem_of_cons in HyA as [-> | HyA]; [done | done].
      * done.
      * done.
      * intros x' Hx'. apply Ha. by right.
      * intros x' Hx'. apply Hb. by right.
      * rewrite Hoc, lookup_delete_ne; [done|]. apply Hb; [by left | done].
      * rewrite Hoc. rewrite lookup_delete_ne; [done|]. done.
      * by rewrite Hov.
Qed.

(** Before [b] starts. *)
Lemma sweep_before_start l st xB yA :
  StronglySorted instant_ge l →
  xB ∈ l → inst_type xB = CL4_PROF_EV_START → inst_id xB = b →
  yA ∈ l → inst_type yA = CL4_PROF_EV_END → inst_id yA = a →
  instant yA < instant xB →
  (∀ x, x ∈ l → inst_type x = CL4_PROF_EV_START → inst_id x = a →
        instant x < instant yA) →
  (∀ s e, s ∈ l → e ∈ l → inst_type s = CL4_PROF_EV_START → inst_id s = b →
          inst_type e = CL4_PROF_EV_END → inst_id e = b → instant s < instant e) →
  occurring_events st !! a = None →
  ¬ has_overlap_start (overlaps st) a b →
  sweep names num_event_names l st = None.
Proof.
  intros Hsort. revert st.
  induction Hsort as [|x l Hsort IH Hx];
    intros st HxB HtB HiB HyA HtA HiA Hlt Ha Hb Hoca Hno.
  { by apply elem_of_nil in HyA. }
  rewrite Forall_forall in Hx.
  assert (HyA' : yA ∈ l).
  { apply elem_of_cons in HyA as [-> | HyA]; [|done].
    apply elem_of_cons in HxB as [-> | HxB]; [congruence|].
    specialize (Hx xB HxB). unfold instant_ge in Hx. lia. }
  assert (Ha' : ∀ x', x' ∈ l → inst_type x' = CL4_PROF_EV_START → inst_id x' = a →
                      instant x' < instant yA).
  { intros x' Hx'. apply Ha. by right. }
  cbn [sweep]. destruct (inst_type x) eqn:Htx.
  - (* START *)
    assert (Hxa : inst_id x ≠ a).
    { intros Hxa. specialize (Ha x ltac:(left) Htx Hxa).
      specialize (Hx yA HyA'). unfold instant_ge in Hx. lia. }
    destruct (decide (inst_id x = b)) as [Hxb | Hxb].
    + eapply sweep_after_start; [done | exact HyA' | done | done | done | | | |].
      * intros e He Hte Hie.
        specialize (Hb x e ltac:(left) ltac:(by right) Htx Hxb Hte Hie).
        specialize (Hx e He). unfold instant_ge in Hx. lia.
      * simpl. rewrite Hxb, lookup_insert_eq. by eexists.
      * simpl. by rewrite lookup_insert_ne.
      * by apply sweep_start_keeps_missing.
    + eapply IH; [| exact HtB | exact HiB | exact HyA' | done | done | done | done | | |].
      * apply elem_of_cons in HxB as [-> | HxB]; [congruence | done].
      * intros s e Hs He. apply Hb; by right.
      * simpl. by rewrite lookup_insert_ne.
      * by apply sweep_start_keeps_missing.
  - (* END *)
    destruct (sweep_end names num_event_names x st) as [st'|] eqn:Hend; [|done].
    assert (Hov : overlaps st' = overlaps st ∧
                  occurring_events st' = delete (inst_id x) (occurring_events st)).
    { revert Hend. unfold sweep_end. destruct (foldl _ _ _) as [[mat tot]|]; [|done].
      by intros [= <-]. }
    destruct Hov as [Hov Hoc].
    eapply IH; [| exact HtB | exact HiB | exact HyA' | done | done | done | done | | |].
    + apply elem_of_cons in HxB as [-> | HxB]; [congruence | done].
    + intros s e Hs He. apply Hb; by right.
    + rewrite Hoc. apply lookup_delete_None. by right.
    + by rewrite Hov.
Qed.

End sweep_disjoint.

(** The sweep of [cl4_prof_calc_overmat] in a call of [cl4_prof_calc] on a
    profile whose stream of fewer than [2^32] events is ingested without an
    error: it runs over the instants of the stream, the later ones first. *)
Lemma calc_reaches_sweep p err :
  before_calc p → is_Some (cqueues p) → (∀ e, err ≠ Some (Some e)) →
  Z.of_nat (length (tagged_stream p)) < 2 ^ 32 →
  Forall (λ ne, queries_ok ne.2) (tagged_stream p) →
  ∃ names p4 l,
    l ≡ₚ instants_from 1 (tagged_stream p) ∧ StronglySorted instant_ge l ∧
    cl4_prof_calc (Some p) err =
      match sweep (Some names) (Z.of_nat (size names)) l
              {| overlap_matrix :=
                   g_new0 (u32 (Z.of_nat (size names) * Z.of_nat (size names)));
                 total_overlap := 0; overlaps := ∅; occurring_events := ∅ |} with
      | None => None
      | Some st =>
          Some {| status := CL_TRUE;
                  prof_after :=
                    Some (set_total_events_eff_time
                            (u64 (total_events_time p4 - total_overlap st))
                            (set_overmat (overlap_matrix st)
                               (set_event_instants l p4)));
                  err_after := err; log := [] |}
      end.
Proof.
  intros Hbc Hq Herr Hlen Hok.
  rewrite (calc_unfold _ _ Hbc Herr).
  destruct (process_queues_total p Hq Hok) as [p3 Hrun]. rewrite Hrun.
  destruct (process_queues_ingested _ _ _ Hbc Hrun) as [names Hin].
  destruct (process_queues_instants _ _ _ Hbc Hlen Hrun) as [_ Hi].
  destruct (calc_agg_ingested _ _ _ Hin Hi) as (m4 & -> & _).
  exists names,
    (set_aggregate (Some m4)
       (set_total_events_time (u64 (stream_time (tagged_stream p)))
          (set_event_instants (instants_from 1 (tagged_stream p)) p3))),
    (g_list_sort_with_data (instants_from 1 (tagged_stream p))
       (cl4_prof_eventinst_comp CL4_PROF_EVENTINST_SORT_INSTANT)).
  split; [apply g_list_sort_with_data_Permutation|].
  split; [apply sort_instant_descending|].
  unfold cl4_prof_calc_overmat. simpl. rewrite (in_event_names _ _ _ Hin). simpl.
  by destruct (sweep _ _ _ _).
Qed.

(** When every profiling query succeeds and every event starts before any
    event ends, [cl4_prof_calc] on a profile not yet calculated that holds
    queues, with fewer than [2^32] events, is defined and returns
    [CL_TRUE], leaving the error location as it was. *)
Theorem calc_defined p err :
  before_calc p → is_Some (cqueues p) → (∀ e, err ≠ Some (Some e)) →
  Z.of_nat (length (tagged_stream p)) < 2 ^ 32 →
  Forall (λ ne, queries_ok ne.2) (tagged_stream p) →
  (∀ ne1 ne2, ne1 ∈ tagged_stream p → ne2 ∈ tagged_stream p →
     info_value ne1.2 CL_PROFILING_COMMAND_START
     < info_value ne2.2 CL_PROFILING_COMMAND_END) →
  ∃ r p',
    cl4_prof_calc (Some p) err = Some r ∧ status r = CL_TRUE ∧
    prof_after r = Some p' ∧ err_after r = err ∧ log r = [].
Proof.
  intros Hbc Hq Herr Hlen Hok Hlt.
  destruct (calc_reaches_sweep _ _ Hbc Hq Herr Hlen Hok)
    as (names & p4 & l & Hperm & Hsort & ->).
  destruct (sweep_ends_first (Some names) (Z.of_nat (size names)) l
              {| overlap_matrix :=
                   g_new0 (u32 (Z.of_nat (size names) * Z.of_nat (size names)));
                 total_overlap := 0; overlaps := ∅; occurring_events := ∅ |} Hsort)
    as [st ->]; [|by left|by eexists _, _].
  intros s e. rewrite !Hperm, !elem_of_instants_from.
  intros (i & ne1 & H1 & Hs) (j & ne2 & H2 & He) Hts Hte.
  destruct Hs as [-> | ->]; [|done]. destruct He as [-> | ->]; [done|]. simpl.
  apply Hlt; by eapply list_elem_of_lookup_2.
Qed.

Lemma calc_defined_witness :
  ∃ r p',
    cl4_prof_calc (Some scenario_S3) (Some None) = Some r ∧ status r = CL_TRUE ∧
    prof_after r = Some p' ∧ err_after r = Some None ∧ log r = [].
Proof.
  apply (calc_defined scenario_S3 (Some None)).
  - by constructor.
  - by eexists.
  - intros e. discriminate.
  - vm_compute. reflexivity.
  - change (tagged_stream scenario_S3)
      with [("q0"%string, event_of "a" 0 0 100 300);
            ("q0"%string, event_of "b" 0 0 200 400)].
    apply Forall_forall.
    intros ne [-> | [-> | []%elem_of_nil]%elem_of_cons]%elem_of_cons; by intros [].
  - change (tagged_stream scenario_S3)
      with [("q0"%string, event_of "a" 0 0 100 300);
            ("q0"%string, event_of "b" 0 0 200 400)].
    intros ne1 ne2 [-> | [-> | []%elem_of_nil]%elem_of_cons]%elem_of_cons
                   [-> | [-> | []%elem_of_nil]%elem_of_cons]%elem_of_cons;
      vm_compute; reflexivity.
Defined.

(** When every profiling query succeeds and the queues hold two events
    that take time, one of which ends before the other one starts,
    [cl4_prof_calc] on a profile not yet calculated (with fewer than [2^32]
    events) runs into undefined behaviour: at the END instant of the earlier
    event the sweep of [cl4_prof_calc_overmat] looks up the start of its
    overlap with the later event, which is still held to be occurring, finds
    none, and dereferences [NULL]. *)
Theorem calc_disjoint_events_undefined p err i j ne1 ne2 :
  before_calc p → (∀ e, err ≠ Some (Some e)) →
  Z.of_nat (length (tagged_stream p)) < 2 ^ 32 →
  Forall (λ ne, queries_ok ne.2) (tagged_stream p) →
  tagged_stream p !! i = Some ne1 → tagged_stream p !! j = Some ne2 →
  info_value ne1.2 CL_PROFILING_COMMAND_START < info_value ne1.2 CL_PROFILING_COMMAND_END →
  info_value ne1.2 CL_PROFILING_COMMAND_END < info_value ne2.2 CL_PROFILING_COMMAND_START →
  info_value ne2.2 CL_PROFILING_COMMAND_START < info_value ne2.2 CL_PROFILING_COMMAND_END →
  cl4_prof_calc (Some p) err = None.
Proof.
  intros Hbc Herr Hlen Hok Hi Hj Hlt1 Hlt12 Hlt2.
  assert (Hq : is_Some (cqueues p)).
  { revert Hi. unfold tagged_stream. destruct (cqueues p); [by eexists | done]. }
  destruct (calc_reaches_sweep _ _ Hbc Hq Herr Hlen Hok)
    as (names & p4 & l & Hperm & Hsort & ->).
  assert (Hij : i ≠ j) by (intros ->; rewrite Hi in Hj; injection Hj as ->; lia).
  set (a := 1 + Z.of_nat i). set (b := 1 + Z.of_nat j).
  set (xB := cl4_prof_eventinst_new (cl4_event_get_final_name ne2.2) ne2.1 b
               (info_value ne2.2 CL_PROFILING_COMMAND_START) CL4_PROF_EV_START).
  set (yA := cl4_prof_eventinst_new (cl4_event_get_final_name ne1.2) ne1.1 a
               (info_value ne1.2 CL_PROFILING_COMMAND_END) CL4_PROF_EV_END).
  rewrite (sweep_before_start (Some names) (Z.of_nat (size names)) a b
             ltac:(unfold a, b; lia) l _ xB yA Hsort); [done|..]; try done.
  - rewrite Hperm. apply elem_of_instants_from. exists j, ne2. split; [done|]. by left.
  - rewrite Hperm. apply elem_of_instants_from. exists i, ne1. split; [done|]. by right.
  - intros x. rewrite Hperm, elem_of_instants_from.
    intros (k & ne & Hk & [-> | ->]) Hty Hid; [|done]. simpl in *.
    assert (k = i) as -> by (unfold a in Hid; lia).
    rewrite Hi in Hk. by injection Hk as <-.
  - intros s e. rewrite !Hperm, !elem_of_instants_from.
    intros (k1 & n1 & Hk1 & [-> | ->]) (k2 & n2 & Hk2 & [-> | ->]); simpl; try done.
    intros _ Hid1 _ Hid2.
    assert (k1 = j) as -> by (unfold b in Hid1; lia).
    assert (k2 = j) as -> by (unfold b in Hid2; lia).
    rewrite Hj in Hk1, Hk2. injection Hk1 as <-. by injection Hk2 as <-.
  - intros (inner & v & H1 & _). simpl in H1. by rewrite lookup_empty in H1.
Qed.

Lemma calc_disjoint_events_undefined_witness :
  cl4_prof_calc (Some scenario_S2) (Some None) = None.
Proof.
  apply (calc_disjoint_events_undefined scenario_S2 (Some None) 0 1
           ("q0"%string, event_of "k" 0 0 100 200)
           ("q0"%string, event_of "k" 0 0 300 500)).
  - by constructor.
  - intros e. discriminate.
  - vm_compute. reflexivity.
  - change (tagged_stream scenario_S2)
      with [("q0"%string, event_of "k" 0 0 100 200);
            ("q0"%string, event_of "k" 0 0 300 500)].
    apply Forall_forall.
    intros ne [-> | [-> | []%elem_of_nil]%elem_of_cons]%elem_of_cons; by intros [].
  - reflexivity.
  - reflexivity.
  - vm_compute. reflexivity.
  - vm_compute. reflexivity.
  - vm_compute. reflexivity.
Defined.

(** ** A failing query *)

(** When a profiling query of an event fails, [cl4_prof_calc] on a profile
    not yet calculated returns [CL_FALSE] with the error of a query of the
    first such event; the events ingested before it have their records, the
    failing event and the events after it have none, and the name of the
    failing event is registered. *)
Theorem calc_stops_at_first_error p err l1 ne l2 :
  before_calc p → (∀ e, err ≠ Some (Some e)) →
  tagged_stream p = l1 ++ ne :: l2 →
  Forall (λ ne, queries_ok ne.2) l1 → ¬ queries_ok ne.2 →
  ∃ r p' e kind,
    cl4_prof_calc (Some p) err = Some r ∧ status r = CL_FALSE ∧
    prof_after r = Some p' ∧
    cl4_event_get_profiling_info ne.2 kind = inl e ∧
    err_after r = g_propagate_error err e ∧
    events p' = reverse (record_of <$> l1) ∧
    event_names p' = foldl intern (Some ∅) (stream_names (l1 ++ [ne])).
Proof.
  intros Hbc Herr Hstream Hok Hno.
  assert (Hq : is_Some (cqueues p)).
  { revert Hstream. unfold tagged_stream.
    destruct (cqueues p); [by eexists | by destruct l1]. }
  destruct Hq as [qs Hqs].
  rewrite (calc_unfold _ _ Hbc Herr), process_queues_flat, tagged_stream_calc_tables.
  simpl. rewrite Hqs, Hstream.
  destruct (add_events_stop l1 ne l2 (calc_tables p) Hok Hno)
    as (p1 & e & p' & H1 & H2 & ->).
  apply add_events_records in H1 as (_ & He1 & _ & Hn1).
  apply add_event_inl in H2 as ([kind Hkind] & _ & He2 & Hn2).
  exists {| status := CL_FALSE; prof_after := Some p';
            err_after := g_propagate_error err e; log := [] |}, p', e, kind.
  repeat split; try done.
  - rewrite He2, He1. simpl. by rewrite (bc_events _ Hbc), app_nil_r.
  - rewrite Hn2, Hn1. simpl. unfold stream_names. by rewrite fmap_app, foldl_app.
Qed.

Lemma calc_stops_at_first_error_witness :
  ∃ r p' e kind,
    cl4_prof_calc (Some scenario_error) (Some None) = Some r ∧ status r = CL_FALSE ∧
    prof_after r = Some p' ∧
    cl4_event_get_profiling_info (event_end_fails "k" 50) kind = inl e ∧
    err_after r = g_propagate_error (Some None) e ∧
    events p' = reverse (record_of <$> [("q0"%string, event_of "a" 0 0 100 300)]) ∧
    event_names p' =
      foldl intern (Some ∅)
        (stream_names ([("q0"%string, event_of "a" 0 0 100 300)]
                       ++ [("q0"%string, event_end_fails "k" 50)])).
Proof.
  apply (calc_stops_at_first_error scenario_error (Some None)
           [("q0"%string, event_of "a" 0 0 100 300)]
           ("q0"%string, event_end_fails "k" 50)
           [("q0"%string, event_of "b" 0 0 200 400)]).
  - by constructor.
  - intros e. discriminate.
  - reflexivity.
  - apply Forall_forall.
    intros ne [-> | []%elem_of_nil]%elem_of_cons. by intros [].
  - intros H. specialize (H CL_PROFILING_COMMAND_END). discriminate H.
Defined.

(** ** Reporting after a failed calculation *)

Lemma intern_Some (m : gmap string guint) event_name :
  ∃ m', intern (Some m) event_name = Some m' ∧ is_Some (m' !! event_name).
Proof.
  unfold intern, g_hash_table_contains. case_bool_decide as Hin.
  - by exists m.
  - eexists. split; [reflexivity|]. rewrite lookup_insert_eq. by eexists.
Qed.

(** An ingestion that fails leaves at least one name registered. *)
Lemma add_events_inl_names l p e p' (m : gmap string guint) :
  add_events l p = (inl e, p') → event_names p = Some m →
  ∃ m' k, event_names p' = Some m' ∧ is_Some (m' !! k).
Proof.
  revert p m. induction l as [|ne l IH]; intros p m; simpl; [done|].
  unfold mbind, ProfM_bind, bind.
  destruct (cl4_prof_add_event ne.1 ne.2 p) as [[e1|u1] p1] eqn:H1.
  - intros [= <- <-] Hm. apply add_event_inl in H1 as (_ & _ & _ & ->).
    rewrite Hm. destruct (intern_Some m (cl4_event_get_final_name ne.2))
      as (m' & -> & Hk). by eauto.
  - intros Hrun Hm. apply add_event_ok in H1 as (_ & _ & _ & _ & _ & Hn).
    rewrite Hm in Hn.
    destruct (intern_Some m (cl4_event_get_final_name ne.2)) as (m1 & Hm1 & _).
    rewrite Hm1 in Hn. by eapply IH.
Qed.

Lemma overlap_rows_NULL p n :
  overmat p = None → 0 < n → overlap_rows p n = None.
Proof.
  intros Hov Hn. unfold overlap_rows. rewrite Hov.
  destruct (Z.to_nat n) as [|k] eqn:Hk; [lia|].
  change (seq 0 (S k)) with (0%nat :: seq 1 k). cbn [mbind list_bind app].
  generalize (seq 1 k ≫= (λ j : nat, [(0%nat, j)])). intros l1.
  generalize ((seq 1 k) ≫= (λ i : nat, (0%nat :: seq 1 k) ≫= (λ j : nat, [(i, j)]))).
  intros l2. simpl. by destruct (foldr _ _ _).
Qed.

(** After a [cl4_prof_calc] that has returned [CL_FALSE] on a profile not
    yet calculated, [cl4_prof_print_info] runs into undefined behaviour: the
    name of the failing event is registered, so the loop over the overlap
    matrix is entered, and the matrix is [NULL]. *)
Theorem print_info_after_failed_calc p err r p' now sort :
  before_calc p → (∀ e, err ≠ Some (Some e)) →
  cl4_prof_calc (Some p) err = Some r → status r = CL_FALSE →
  prof_after r = Some p' →
  cl4_prof_print_info now (Some p') sort = None.
Proof.
  intros Hbc Herr. rewrite (calc_unfold _ _ Hbc Herr), process_queues_flat.
  destruct (cqueues (calc_tables p)); [|done].
  destruct (add_events _ _) as [[e|u] p3] eqn:Hrun.
  - intros [= <-] _ [= <-].
    destruct (add_events_frame _ _ _ _ Hrun) as [_ _ _ Hov _ _ _].
    simpl in Hov. rewrite (bc_overmat _ Hbc) in Hov.
    destruct (add_events_inl_names _ _ _ _ ∅ Hrun eq_refl) as (m' & k & Hm' & Hk).
    unfold cl4_prof_print_info. rewrite overlap_rows_NULL; [done..|].
    rewrite Hm'. simpl.
    destruct (decide (size m' = 0%nat)) as [Hz|Hz]; [|lia].
    apply map_size_empty_iff in Hz. subst m'. rewrite lookup_empty in Hk.
    by destruct Hk.
  - destruct (event_names p3); [|done].
    destruct (cl4_prof_calc_agg _); [|done].
    destruct (cl4_prof_calc_overmat _) as [[p5 ov]|]; [|done].
    by intros [= <-] Hst.
Qed.

Lemma print_info_after_failed_calc_witness :
  cl4_prof_print_info 0 (Some (calc_prof scenario_error)) CL4_PROF_EVENTAGG_SORT_TIME
  = None.
Proof.
  apply (print_info_after_failed_calc scenario_error (Some None) (calc_ret scenario_error)).
  - by constructor.
  - intros e. discriminate.
  - vm_compute. reflexivity.
  - reflexivity.
  - vm_compute. reflexivity.
Defined.

(** ** Calculating without a queue *)

Lemma after_call_cqueues c p p' :
  is_calc c = false → adds_queue c = false →
  after_call c p = Some p' → cqueues p' = cqueues p.
Proof.
  destruct c as [now|now|now|cq_name cq|err|name|now sort|opts stream err];
    try discriminate; intros _ Hadd; unfold after_call.
  - by intros [= <-].
  - simpl. destruct (timer p); by intros [= <-].
  - by intros [= <-].
  - destruct cq; [discriminate Hadd|]. by intros [= <-].
  - by intros [= <-].
  - unfold cl4_prof_print_info. destruct (overlap_rows _ _); [|done]. by intros [= <-].
  - unfold cl4_prof_export_info.
    destruct stream as [f|]; [destruct err as [[e|]|]|]; simpl;
      try destruct (export_events _ _ _ _) as [[st f'] err'];
      by intros [= <-].
Qed.

Lemma after_calls_cqueues cs p p' :
  forallb (λ c, negb (is_calc c) && negb (adds_queue c)) cs = true →
  after_calls cs p = Some p' → cqueues p' = cqueues p.
Proof.
  revert p. induction cs as [|c cs IH]; intros p; simpl.
  { by intros _ [= <-]. }
  intros [[Hc Ha]%andb_prop Hcs]%andb_prop.
  destruct (after_call c p) as [p1|] eqn:Hcall; [|done].
  intros Hrun. rewrite (IH _ Hcs Hrun).
  apply negb_true_iff in Hc, Ha. by apply (after_call_cqueues _ _ _ Hc Ha).
Qed.

(** Over every sequence of public calls from [cl4_prof_new] in which no
    queue is added, [cl4_prof_calc] runs into undefined behaviour: the table
    of queues is still [NULL], and [cl4_prof_process_queues] iterates over
    it. *)
Theorem calc_needs_queue cs p err :
  forallb (λ c, negb (is_calc c) && negb (adds_queue c)) cs = true →
  after_calls cs cl4_prof_new = Some p →
  (∀ e, err ≠ Some (Some e)) →
  cl4_prof_calc (Some p) err = None.
Proof.
  intros Hcs Hrun Herr.
  assert (Hbc : before_calc p).
  { eapply before_calc_reachable; [|exact Hrun].
    apply forallb_forall. intros c Hc.
    rewrite forallb_forall in Hcs. by destruct (andb_prop _ _ (Hcs c Hc)). }
  pose proof (after_calls_cqueues _ _ _ Hcs Hrun) as Hq.
  rewrite (calc_unfold _ _ Hbc Herr). unfold cl4_prof_process_queues.
  simpl. by rewrite Hq.
Qed.

Lemma calc_needs_queue_witness :
  cl4_prof_calc
    (after_calls [Call_start 0; Call_add_queue "q0" None; Call_stop 5] cl4_prof_new)
    (Some None) = None.
Proof.
  apply (calc_needs_queue [Call_start 0; Call_add_queue "q0" None; Call_stop 5]).
  - reflexivity.
  - reflexivity.
  - intros e. discriminate.
Defined.

(** ** Export, in general *)

(** When the stream accepts every write, [cl4_prof_export_info] returns
    [CL_TRUE] and leaves the error location as it was; it writes one line
    per event record, the events that start later first, and leaves the
    records of the profile in that order. *)
Theorem export_lines_descending opts p f err :
  writes_left f = None → (∀ e, err ≠ Some (Some e)) →
  ∃ evs,
    evs ≡ₚ events p ∧ StronglySorted (λ a b, t_start b <= t_start a) evs ∧
    cl4_prof_export_info opts (Some p) (Some f) err =
      ({| status := CL_TRUE; prof_after := Some (set_events evs p);
          err_after := err; log := [] |},
       Some {| written := export_text opts (written f) evs; writes_left := None |}).
Proof.
  intros Hf Herr.
  exists (g_list_sort_with_data (events p)
            (cl4_prof_event_comp CL4_PROF_EVENT_SORT_T_START)).
  split; [apply g_list_sort_with_data_Permutation|].
  split; [apply sort_t_start_descending|].
  unfold cl4_prof_export_info.
  destruct err as [[e|]|]; [by destruct (Herr e) |..];
    by rewrite export_events_unlimited.
Qed.

Lemma export_lines_descending_witness :
  ∃ evs,
    evs ≡ₚ events (calc_prof scenario_S3) ∧
    StronglySorted (λ a b, t_start b <= t_start a) evs ∧
    cl4_prof_export_info export_options (Some (calc_prof scenario_S3))
      (Some stdout_like) (Some None) =
      ({| status := CL_TRUE; prof_after := Some (set_events evs (calc_prof scenario_S3));
          err_after := Some None; log := [] |},
       Some {| written := export_text export_options (written stdout_like) evs;
               writes_left := None |}).
Proof.
  apply (export_lines_descending export_options (calc_prof scenario_S3) stdout_like
           (Some None)).
  - reflexivity.
  - intros e. discriminate.
Defined.

Lemma export_events_limited opts l f err k :
  writes_left f = Some k → (k < length l)%nat →
  ∃ f' err',
    export_events opts l f err = (CL_FALSE, f', err') ∧
    written f' = export_text opts (written f) (take k l) ∧
    writes_left f' = Some 0%nat.
Proof.
  revert f k. induction l as [|ev l IH]; intros [w q] k Hq Hk; simpl in *; [lia|].
  subst q. unfold fprintf. simpl. destruct k as [|k].
  { simpl. by eexists _, _. }
  destruct (Z.ltb_spec (Z.of_nat (String.length (export_line opts ev))) 0); [lia|].
  destruct (IH {| written := w +:+ export_line opts ev; writes_left := Some k |} k)
    as (f' & err' & -> & Hw & Hl); [done | lia |].
  by eexists _, _.
Qed.

(** When a write to the stream fails, [cl4_prof_export_info] stops and
    returns [CL_FALSE]: the stream holds the lines of the events written
    before the failure, in the order of the export, and no other. *)
Theorem export_write_failure opts p f err k :
  writes_left f = Some k → (k < length (events p))%nat →
  (∀ e, err ≠ Some (Some e)) →
  ∃ evs r f',
    evs ≡ₚ events p ∧ StronglySorted (λ a b, t_start b <= t_start a) evs ∧
    cl4_prof_export_info opts (Some p) (Some f) err = (r, Some f') ∧
    status r = CL_FALSE ∧ prof_after r = Some (set_events evs p) ∧
    written f' = export_text opts (written f) (take k evs).
Proof.
  intros Hf Hk Herr.
  set (evs := g_list_sort_with_data (events p)
                (cl4_prof_event_comp CL4_PROF_EVENT_SORT_T_START)).
  destruct (export_events_limited opts evs f err k Hf) as (f' & err' & Hrun & Hw & _).
  { unfold evs. by rewrite g_list_sort_with_data_length. }
  exists evs, {| status := CL_FALSE; prof_after := Some (set_events evs p);
                 err_after := err'; log := [] |}, f'.
  split; [apply g_list_sort_with_data_Permutation|].
  split; [apply sort_t_start_descending|].
  split; [|by repeat split].
  unfold cl4_prof_export_info.
  destruct err as [[e|]|]; [by destruct (Herr e) |..]; fold evs; by rewrite Hrun.
Qed.

Lemma export_write_failure_witness :
  ∃ evs r f',
    evs ≡ₚ events (calc_prof scenario_S3) ∧
    StronglySorted (λ a b, t_start b <= t_start a) evs ∧
    cl4_prof_export_info export_options (Some (calc_prof scenario_S3))
      (Some (failing_after 1)) (Some None) = (r, Some f') ∧
    status r = CL_FALSE ∧
    prof_after r = Some (set_events evs (calc_prof scenario_S3)) ∧
    written f' = export_text export_options (written (failing_after 1)) (take 1 evs).
Proof.
  apply (export_write_failure export_options (calc_prof scenario_S3) (failing_after 1)
           (Some None) 1).
  - reflexivity.
  - vm_compute. lia.
  - intros e. discriminate.
Defined.

(** ** The overlap matrix of a well-formed stream *)

Lemma event_stream_tagged p : event_stream p = (tagged_stream p).*2.
Proof.
  unfold event_stream, tagged_stream. generalize (default [] (cqueues p)).
  intros qs. induction qs as [|[n q] qs IH]; [done|].
  cbn [mbind list_bind]. rewrite fmap_app, <- IH. f_equal.
  simpl. rewrite <- list_fmap_compose. symmetry. apply list_fmap_id.
Qed.

Lemma size_list_to_set_le (l : list string) :
  (size (list_to_set l : gset string) ≤ length l)%nat.
Proof.
  induction l as [|x l IH].
  { by rewrite list_to_set_nil, size_empty. }
  rewrite list_to_set_cons, size_union_alt, size_singleton. cbn [length].
  assert (Hsub : list_to_set l ∖ {[x]} ⊆ (list_to_set l : gset string)).
  { intros k [Hk _]%elem_of_difference. exact Hk. }
  apply subseteq_size in Hsub. lia.
Qed.

(** [cl4_prof_calc_overmat] on instants in which no START is after its END
    leaves the matrix as [g_new0] has allocated it. *)
Lemma calc_overmat_as_allocated p p' ov :
  wf_instants (event_instants p) →
  cl4_prof_calc_overmat p = Some (p', ov) →
  overmat p' =
    g_new0 (u32 (g_hash_table_size (event_names p) * g_hash_table_size (event_names p))).
Proof.
  intros Hwf. unfold cl4_prof_calc_overmat.
  destruct (sweep _ _ _ _) as [st|] eqn:Hrun; [|done].
  apply sweep_zero in Hrun as [_ Hmat].
  - intros [= <- _]. simpl. by rewrite Hmat.
  - apply sort_instant_descending.
  - eapply wf_instants_Permutation; [|exact Hwf].
    symmetry. apply g_list_sort_with_data_Permutation.
  - constructor; simpl; [| |apply g_new0_zero|done].
    + intros f y [u' Hf]. by rewrite lookup_empty in Hf.
    + intros k1 k2 inner v H1. by rewrite lookup_empty in H1.
Qed.

(** The tables of a successful [cl4_prof_calc] on a stream of events that
    start before they end. *)
Lemma calc_wf_tables p err r p' :
  before_calc p → Forall wf_event (event_stream p) →
  Z.of_nat (length (event_stream p)) < 2 ^ 32 →
  cl4_prof_calc (Some p) err = Some r → status r = CL_TRUE →
  prof_after r = Some p' →
  ∃ names m,
    dom names = list_to_set (stream_names (tagged_stream p)) ∧
    event_names p' = Some names ∧
    event_name_ids p' = Some (reverse_event_names names) ∧
    aggregate p' = Some m ∧
    overmat p' = g_new0 (u32 (Z.of_nat (size names) * Z.of_nat (size names))).
Proof.
  intros Hbc Hwf Hlen Hcalc Hst Hp'.
  destruct (calc_success _ _ _ _ Hcalc Hst Hp')
    as (_ & u & p3 & p4 & ov & Hq & Ha & Ho).
  pose proof (process_queues_wf_instants _ _ _ Hbc Hwf Hlen Hq) as Hwf3.
  destruct (process_queues_ingested _ _ _ Hbc Hq) as [names Hin].
  assert (Hwf4 : wf_instants (event_instants p4)).
  { eapply wf_instants_Permutation; [|exact Hwf3].
    symmetry. by apply calc_agg_instants. }
  pose proof (calc_overmat_as_allocated _ _ _ Hwf4 Ho) as Hov.
  apply calc_overmat_fields in Ho as (eff & mat & ->). simpl in *.
  revert Ha Hov. unfold cl4_prof_calc_agg.
  rewrite (in_event_names _ _ _ Hin).
  destruct (agg_intervals _ _ _) as [[[m|] total]|]; [|done..].
  intros [= <-]. simpl. rewrite (in_event_names _ _ _ Hin). simpl. intros Hov.
  destruct (stream_names_intern (tagged_stream p)) as (names' & Hfold & _ & Hdom).
  rewrite (in_names _ _ _ Hin) in Hfold. injection Hfold as <-.
  eexists names, _. split; [done|]. split; [done|].
  split; [apply (in_event_name_ids _ _ _ Hin)|]. by split.
Qed.

(** After a successful [cl4_prof_calc] on a profile not yet calculated
    whose events (fewer than [2^32]) start before they end, the overlap
    matrix is as [g_new0] has allocated it, a square of zeroes with one row
    per event name ([NULL] when there is no name), and the effective time is
    the total time: the sweep, which runs from the latest instant to the
    earliest, has added no overlap. *)
Theorem calc_finds_no_overlap p err r p' :
  before_calc p → Forall wf_event (event_stream p) →
  Z.of_nat (length (event_stream p)) < 2 ^ 32 →
  cl4_prof_calc (Some p) err = Some r → status r = CL_TRUE →
  prof_after r = Some p' →
  ∃ names,
    event_names p' = Some names ∧
    overmat p' = g_new0 (u32 (Z.of_nat (size names) * Z.of_nat (size names))) ∧
    total_events_eff_time p' = total_events_time p'.
Proof.
  intros Hbc Hwf Hlen Hcalc Hst Hp'.
  destruct (calc_wf_stream _ _ _ _ Hbc Hwf Hlen Hcalc Hst Hp') as (_ & _ & Heff & _).
  destruct (calc_wf_tables _ _ _ _ Hbc Hwf Hlen Hcalc Hst Hp')
    as (names & m & _ & Hnames & _ & _ & Hov).
  by exists names.
Qed.

Lemma calc_finds_no_overlap_witness :
  ∃ names,
    event_names (calc_prof scenario_S3) = Some names ∧
    overmat (calc_prof scenario_S3)
      = g_new0 (u32 (Z.of_nat (size names) * Z.of_nat (size names))) ∧
    total_events_eff_time (calc_prof scenario_S3)
      = total_events_time (calc_prof scenario_S3).
Proof.
  apply (calc_finds_no_overlap scenario_S3 (Some None) (calc_ret scenario_S3)).
  - by constructor.
  - change (Forall wf_event [event_of "a" 0 0 100 300; event_of "b" 0 0 200 400]).
    apply Forall_forall.
    intros evt [-> | [-> | []%elem_of_nil]%elem_of_cons]%elem_of_cons;
      intros ts te [= <-] [= <-]; lia.
  - vm_compute. reflexivity.
  - vm_compute. reflexivity.
  - reflexivity.
  - vm_compute. reflexivity.
Defined.

(** ** The report after a successful calculation *)

Lemma overlap_rows_zero p n :
  0 <= n → n * n < 2 ^ 32 → overmat p = g_new0 (u32 (n * n)) →
  overlap_rows p n = Some [].
Proof.
  intros Hn Hsq Hov. unfold overlap_rows.
  assert (Hpairs : Forall (λ ij : nat * nat, (ij.1 < Z.to_nat n)%nat ∧ (ij.2 < Z.to_nat n)%nat)
            (i ← seq 0 (Z.to_nat n); j ← seq 0 (Z.to_nat n); [(i, j)])).
  { apply Forall_forall. intros [i j].
    intros (i' & (j' & [= -> ->]%list_elem_of_singleton & Hj%elem_of_seq)%list_elem_of_bind
               & Hi%elem_of_seq)%list_elem_of_bind.
    simpl. lia. }
  induction Hpairs as [|[i j] pairs [Hi Hj] _ IH]; [done|].
  cbn [foldr]. rewrite IH. simpl in Hi, Hj. cbv beta iota. cbn [fst snd].
  rewrite Hov. rewrite (u32_small (n * n)) by lia.
  unfold g_new0. destruct (Z.eqb_spec (n * n) 0) as [Hz|Hz]; [nia|].
  assert (Hidx : u32 (u32 (Z.of_nat i * n) + Z.of_nat j) = Z.of_nat i * n + Z.of_nat j).
  { rewrite (u32_small (Z.of_nat i * n)) by nia. apply u32_small. nia. }
  rewrite Hidx, lookup_replicate_2; [done|]. nia.
Qed.

(** After a successful [cl4_prof_calc] on a profile not yet calculated
    whose events (fewer than [2^16]) start before they end,
    [cl4_prof_print_info] is defined and leaves the profile as it is; it
    prints a row for every entry of the table of aggregate times, and never
    the table of overlaps nor the effective time. *)
Theorem print_info_after_calc p err r p' now sort :
  before_calc p → Forall wf_event (event_stream p) →
  Z.of_nat (length (event_stream p)) < 2 ^ 16 →
  cl4_prof_calc (Some p) err = Some r → status r = CL_TRUE →
  prof_after r = Some p' →
  ∃ out,
    cl4_prof_print_info now (Some p') sort = Some (Some p', out) ∧
    (∀ event_name a,
       (cl4_prof_get_eventagg (Some p') event_name).1 = Some a →
       G_PRINT (PR_AGG_ROW (agg_event_name a) (relative_time a) (absolute_time a))
         ∈ out) ∧
    (∀ rows, G_PRINT (PR_OVERLAP_ROWS rows) ∉ out) ∧
    (∀ ns, G_PRINT (PR_EFF_TOTAL ns) ∉ out) ∧
    (∀ func expr, G_CRITICAL func expr ∉ out).
Proof.
  intros Hbc Hwf Hlen Hcalc Hst Hp'.
  destruct (calc_wf_tables _ _ _ _ Hbc Hwf ltac:(lia) Hcalc Hst Hp')
    as (names & m & Hdom & Hnames & Hids & Hm & Hov).
  assert (Hsize : Z.of_nat (size names) < 2 ^ 16).
  { rewrite <- size_dom, Hdom.
    pose proof (size_list_to_set_le (stream_names (tagged_stream p))) as Hle.
    unfold stream_names in Hle. rewrite length_fmap in Hle.
    rewrite event_stream_tagged, length_fmap in Hlen. unfold stream_names. lia. }
  unfold cl4_prof_print_info, cl4_prof_get_eventagg.
  rewrite Hnames, Hids, Hm. cbn [g_hash_table_size].
  rewrite (overlap_rows_zero p' (Z.of_nat (size names))); [|lia|nia|done].
  eexists. split; [reflexivity|].
  rewrite !app_nil_r.
  set (rows := g_list_sort_with_data (map_to_list m).*2 (cl4_prof_eventagg_comp sort)).
  assert (Hrows : rows ≡ₚ (map_to_list m).*2)
    by apply g_list_sort_with_data_Permutation.
  split.
  - intros event_name a. cbn [fst]. intros Ha.
    assert (Hin : a ∈ rows).
    { rewrite Hrows. apply list_elem_of_fmap. exists (event_name, a).
      split; [done|]. by apply elem_of_map_to_list. }
    assert (Hpos : (Z.of_nat (size m) >? 0) = true).
    { destruct (decide (size m = 0%nat)) as [Hz|Hz]; [|lia].
      apply map_size_empty_iff in Hz. subst m. by rewrite lookup_empty in Ha. }
    rewrite Hpos, !elem_of_app. right. right. right. right. left.
    apply list_elem_of_fmap. by exists a.
  - repeat split; intros; rewrite !elem_of_app;
      destruct (timer p'); destruct (total_events_time p' >? 0);
      destruct (Z.of_nat (size m) >? 0);
      rewrite ?elem_of_app, ?elem_of_cons, ?list_elem_of_fmap, ?elem_of_nil;
      intros Hin;
      repeat match goal with
             | H : _ ∨ _ |- _ => destruct H
             | H : ∃ _, _ |- _ => destruct H
             | H : _ ∧ _ |- _ => destruct H
             end;
      done.
Qed.

Lemma print_info_after_calc_witness :
  ∃ out,
    cl4_prof_print_info 7 (Some (calc_prof scenario_S3)) CL4_PROF_EVENTAGG_SORT_TIME
      = Some (Some (calc_prof scenario_S3), out) ∧
    (∀ event_name a,
       (cl4_prof_get_eventagg (Some (calc_prof scenario_S3)) event_name).1 = Some a →
       G_PRINT (PR_AGG_ROW (agg_event_name a) (relative_time a) (absolute_time a))
         ∈ out) ∧
    (∀ rows, G_PRINT (PR_OVERLAP_ROWS rows) ∉ out) ∧
    (∀ ns, G_PRINT (PR_EFF_TOTAL ns) ∉ out) ∧
    (∀ func expr, G_CRITICAL func expr ∉ out).
Proof.
  apply (print_info_after_calc scenario_S3 (Some None) (calc_ret scenario_S3)).
  - by constructor.
  - change (Forall wf_event [event_of "a" 0 0 100 300; event_of "b" 0 0 200 400]).
    apply Forall_forall.
    intros evt [-> | [-> | []%elem_of_nil]%elem_of_cons]%elem_of_cons;
      intros ts te [= <-] [= <-]; lia.
  - vm_compute. reflexivity.
  - vm_compute. reflexivity.
  - reflexivity.
  - vm_compute. reflexivity.
Defined.

(** ** The sort by id, in general *)

(** Sorting by [CL4_PROF_EVENTINST_SORT_ID] a list in which no two
    instants have the same id and the same type puts the instants in the
    order of their ids, the START of an event before its END. *)
Theorem sort_id_orders_instants (l : list CL4ProfEventInst) :
  NoDup (inst_key <$> l) →
  g_list_sort_with_data l (cl4_prof_eventinst_comp CL4_PROF_EVENTINST_SORT_ID) ≡ₚ l ∧
  StronglySorted inst_key_lt
    (g_list_sort_with_data l (cl4_prof_eventinst_comp CL4_PROF_EVENTINST_SORT_ID)).
Proof.
  intros Hnd. split; [apply g_list_sort_with_data_Permutation|].
  apply g_list_sort_with_data_strict.
  { intros a b c. unfold inst_key_lt. lia. }
  intros i j a b Hi Hj Hij. apply eventinst_comp_id_key. intros Heq.
  apply Hij. eapply NoDup_lookup; [exact Hnd | |].
  - by rewrite list_lookup_fmap, Hi.
  - by rewrite list_lookup_fmap, Hj, Heq.
Qed.

Lemma sort_id_orders_instants_witness :
  let l := reverse (instants_from 1 (tagged_stream scenario_S3)) in
  g_list_sort_with_data l (cl4_prof_eventinst_comp CL4_PROF_EVENTINST_SORT_ID) ≡ₚ l ∧
  StronglySorted inst_key_lt
    (g_list_sort_with_data l (cl4_prof_eventinst_comp CL4_PROF_EVENTINST_SORT_ID)).
Proof.
  apply (sort_id_orders_instants (reverse (instants_from 1 (tagged_stream scenario_S3)))).
  apply (bool_decide_unpack _). vm_compute. reflexivity.
Defined.

(** ** Sorting what is sorted *)

Section sort_sorted.
Context {A : Type} (compare_func : A → A → Z).

Lemma g_list_sort_merge_app (l1 l2 : list A) :
  (∀ a b, a ∈ l1 → b ∈ l2 → cmp_le compare_func a b) →
  g_list_sort_merge compare_func l1 l2 = l1 ++ l2.
Proof.
  unfold g_list_sort_merge. revert l2. induction l1 as [|x1 l1 IH]; intros l2 Hle.
  { by rewrite list_merge_nil_l. }
  destruct l2 as [|x2 l2].
  { by rewrite list_merge_nil_r, app_nil_r. }
  rewrite list_merge_cons, decide_True by (apply Hle; left).
  simpl. f_equal. apply IH. intros a b Ha Hb. apply Hle; [by right | done].
Qed.

Lemma g_list_sort_real_sorted_id fuel (l : list A) :
  StronglySorted (cmp_le compare_func) l →
  g_list_sort_real fuel compare_func l = l.
Proof.
  revert l. induction fuel as [|fuel IH]; intros l Hs; cbn [g_list_sort_real]; [done|].
  destruct l as [|x [|y l']]; [done..|].
  set (l := x :: y :: l') in *. set (h := (length l / 2)%nat).
  rewrite <- (take_drop h l) in Hs.
  rewrite !IH by first [by eapply StronglySorted_app_1_l | by eapply StronglySorted_app_1_r].
  rewrite g_list_sort_merge_app; [apply take_drop|].
  intros a b. by apply StronglySorted_app_1_elem_of.
Qed.

(** A list that is in the order of the comparison function is left as it
    is. *)
Lemma g_list_sort_with_data_sorted_id (l : list A) :
  StronglySorted (cmp_le compare_func) l → g_list_sort_with_data l compare_func = l.
Proof. apply g_list_sort_real_sorted_id. Qed.

End sort_sorted.

Lemma sort_t_start_idem (l : list CL4ProfEvent) :
  let c := cl4_prof_event_comp CL4_PROF_EVENT_SORT_T_START in
  g_list_sort_with_data (g_list_sort_with_data l c) c = g_list_sort_with_data l c.
Proof.
  intros c. apply g_list_sort_with_data_sorted_id.
  pose proof (sort_t_start_descending l) as Hs. fold c in Hs.
  revert Hs. generalize (g_list_sort_with_data l c). intros l'.
  induction 1 as [|x l'' _ IH Hx]; constructor; [done|].
  eapply Forall_impl; [exact Hx|]. intros y Hy. unfold cmp_le, c. simpl.
  by apply CL4_PROF_CMP_le.
Qed.

(** An export puts the event records of the profile in the order of its
    lines; every later export finds them so, leaves the profile as it is and
    writes the lines of the records in the order in which the profile holds
    them. *)
Theorem export_twice opts p f err r f1 p1 opts' f' err' :
  cl4_prof_export_info opts (Some p) (Some f) err = (r, f1) →
  (∀ e, err ≠ Some (Some e)) → prof_after r = Some p1 →
  writes_left f' = None → (∀ e, err' ≠ Some (Some e)) →
  cl4_prof_export_info opts' (Some p1) (Some f') err' =
    ({| status := CL_TRUE; prof_after := Some p1; err_after := err'; log := [] |},
     Some {| written := export_text opts' (written f') (events p1);
             writes_left := None |}).
Proof.
  intros Hrun Herr Hp1 Hf' Herr'.
  assert (Hev : p1 = set_events (g_list_sort_with_data (events p)
                       (cl4_prof_event_comp CL4_PROF_EVENT_SORT_T_START)) p).
  { revert Hrun. unfold cl4_prof_export_info.
    destruct err as [[e|]|]; [by destruct (Herr e) |..];
      destruct (export_events _ _ _ _) as [[st f2] err2];
      intros [= <- _]; simpl in Hp1; by injection Hp1 as <-. }
  unfold cl4_prof_export_info.
  assert (Hsort : g_list_sort_with_data (events p1)
                    (cl4_prof_event_comp CL4_PROF_EVENT_SORT_T_START) = events p1).
  { rewrite Hev. simpl. apply sort_t_start_idem. }
  rewrite Hsort.
  assert (Hp : set_events (events p1) p1 = p1) by by destruct p1.
  rewrite Hp.
  destruct err' as [[e|]|]; [by destruct (Herr' e) |..];
    by rewrite export_events_unlimited.
Qed.

Lemma export_twice_witness :
  let p1 := set_events
              (g_list_sort_with_data (events (calc_prof scenario_S3))
                 (cl4_prof_event_comp CL4_PROF_EVENT_SORT_T_START))
              (calc_prof scenario_S3) in
  cl4_prof_export_info export_options (Some p1) (Some stdout_like) (Some None) =
    ({| status := CL_TRUE; prof_after := Some p1; err_after := Some None; log := [] |},
     Some {| written := export_text export_options (written stdout_like) (events p1);
             writes_left := None |}).
Proof.
  intros p1.
  apply (export_twice export_options (calc_prof scenario_S3) stdout_like (Some None)
           (cl4_prof_export_info export_options (Some (calc_prof scenario_S3))
              (Some stdout_like) (Some None)).1
           (cl4_prof_export_info export_options (Some (calc_prof scenario_S3))
              (Some stdout_like) (Some None)).2).
  - vm_compute. reflexivity.
  - intros e. discriminate.
  - vm_compute. reflexivity.
  - reflexivity.
  - intros e. discriminate.
Defined.

(** ** The rows of the report *)

Lemma ascii_compare_trans (a b c : ascii) :
  Ascii.compare a b = Lt → Ascii.compare b c = Lt → Ascii.compare a c = Lt.
Proof.
  unfold Ascii.compare. rewrite !N.compare_lt_iff. lia.
Qed.

Lemma string_compare_lt_trans (s1 s2 s3 : string) :
  String.compare s1 s2 = Lt → String.compare s2 s3 = Lt → String.compare s1 s3 = Lt.
Proof.
  revert s2 s3. induction s1 as [|a1 s1 IH]; intros [|a2 s2] [|a3 s3]; simpl; try done.
  destruct (Ascii.compare a1 a2) eqn:H12; [|clear IH|done].
  - apply Ascii.compare_eq_iff in H12 as ->.
    destruct (Ascii.compare a2 a3) eqn:H23; [|done..]. apply IH.
  - intros _. destruct (Ascii.compare a2 a3) eqn:H23; [| |done].
    + apply Ascii.compare_eq_iff in H23 as <-. by rewrite H12.
    + by rewrite (ascii_compare_trans _ _ _ H12 H23).
Qed.

Lemma strcmp_le_total : Total strcmp_le.
Proof.
  intros s1 s2. unfold strcmp_le. rewrite (String.compare_antisym s2 s1).
  destruct (String.compare s1 s2); simpl; auto.
Qed.

Lemma strcmp_le_trans : Transitive strcmp_le.
Proof.
  intros s1 s2 s3. unfold strcmp_le.
  destruct (String.compare s1 s2) eqn:H12; [| |done].
  - apply String.compare_eq_iff in H12 as ->. done.
  - destruct (String.compare s2 s3) eqn:H23; [| |done].
    + apply String.compare_eq_iff in H23 as <-. by rewrite H12.
    + by rewrite (string_compare_lt_trans _ _ _ H12 H23).
Qed.

Lemma eventagg_comp_le sort a b :
  cmp_le (cl4_prof_eventagg_comp sort) a b ↔ eventagg_order sort a b.
Proof.
  unfold cmp_le. destruct sort; simpl.
  - unfold g_strcmp0, strcmp_le. destruct (String.compare _ _); split; (done || lia).
  - apply CL4_PROF_CMP_le.
Qed.

Lemma sort_eventagg_ordered sort (l : list CL4ProfEventAgg) :
  StronglySorted (eventagg_order sort)
    (g_list_sort_with_data l (cl4_prof_eventagg_comp sort)).
Proof.
  set (c := cl4_prof_eventagg_comp sort).
  assert (Htot : Total (cmp_le c)).
  { intros a b. unfold c. rewrite !eventagg_comp_le. destruct sort; simpl.
    - apply strcmp_le_total.
    - lia. }
  assert (Htrans : Transitive (cmp_le c)).
  { intros a b d. unfold c. rewrite !eventagg_comp_le. destruct sort; simpl.
    - apply strcmp_le_trans.
    - lia. }
  pose proof (Sorted_StronglySorted _ _ (g_list_sort_with_data_Sorted c l)) as Hs.
  revert Hs. generalize (g_list_sort_with_data l c). intros l'.
  induction 1 as [|x l'' _ IH Hx]; constructor; [done|].
  eapply Forall_impl; [exact Hx|]. intros y. apply eventagg_comp_le.
Qed.

Lemma printed_rows_app out1 out2 :
  printed_rows (out1 ++ out2) = printed_rows out1 ++ printed_rows out2.
Proof. apply omap_app. Qed.

Lemma printed_rows_fmap (rows : list CL4ProfEventAgg) :
  printed_rows ((λ a, G_PRINT (PR_AGG_ROW (agg_event_name a) (relative_time a)
                                  (absolute_time a))) <$> rows)
  = row_of <$> rows.
Proof. induction rows as [|a rows IH]; [done|]. simpl. by f_equal. Qed.

Lemma printed_rows_criticals {B} (rows : list B) :
  printed_rows
    (rows ≫= (λ _, [G_CRITICAL "g_hash_table_lookup" "hash_table != NULL";
                    G_CRITICAL "g_hash_table_lookup" "hash_table != NULL"])) = [].
Proof. induction rows as [|a rows IH]; [done|]. simpl. exact IH. Qed.

(** Whenever [cl4_prof_print_info] returns, on a profile that has a table
    of aggregate times, the rows it has printed are the entries of the
    table, each one once, in the order asked for: by name in the order of
    [strcmp], or by time, the larger time first. *)
Theorem print_info_rows now p sort m res :
  aggregate p = Some m →
  cl4_prof_print_info now (Some p) sort = Some res →
  ∃ rows,
    printed_rows res.2 = row_of <$> rows ∧
    rows ≡ₚ (map_to_list m).*2 ∧
    StronglySorted (eventagg_order sort) rows.
Proof.
  intros Hm. unfold cl4_prof_print_info. rewrite Hm.
  destruct (overlap_rows _ _) as [orows|]; [|done]. intros [= <-]. cbn [snd].
  exists (g_list_sort_with_data (map_to_list m).*2 (cl4_prof_eventagg_comp sort)).
  split; [|split; [apply g_list_sort_with_data_Permutation
                  | apply sort_eventagg_ordered]].
  match goal with
  | |- printed_rows (_ :: ?l) = ?r => change (printed_rows l = r)
  end.
  rewrite !printed_rows_app.
  assert (H1 : printed_rows
            match timer p with
            | Some t => [G_PRINT (PR_ELAPSED (g_timer_elapsed now t))]
            | None => []
            end = []) by by destruct (timer p).
  assert (H2 : printed_rows
            (if total_events_time p >? 0
             then [G_PRINT (PR_TOTAL_EVENTS (total_events_time p))] else []) = [])
    by by destruct (_ >? _).
  assert (H3 : printed_rows
            match event_names p with
            | None => [G_CRITICAL "g_hash_table_size" "hash_table != NULL"]
            | Some _ => []
            end = []) by by destruct (event_names p).
  assert (H4 : printed_rows
            match event_name_ids p with
            | None =>
                orows ≫= (λ _, [G_CRITICAL "g_hash_table_lookup" "hash_table != NULL";
                                G_CRITICAL "g_hash_table_lookup" "hash_table != NULL"])
            | Some _ => []
            end = []).
  { destruct (event_name_ids p); [done|]. apply printed_rows_criticals. }
  assert (H5 : printed_rows
            match orows with
            | [] => []
            | _ =>
                [G_PRINT (PR_EFF_TOTAL (total_events_eff_time p));
                 G_PRINT (PR_SAVED (u64 (total_events_time p - total_events_eff_time p)));
                 G_PRINT PR_OVERLAP_TITLE; G_PRINT PR_RULE;
                 G_PRINT PR_OVERLAP_HEADER; G_PRINT PR_RULE;
                 G_PRINT (PR_OVERLAP_ROWS orows); G_PRINT PR_RULE]
            end = []) by by destruct orows.
  rewrite H1, H2, H3, H4, H5. simpl. rewrite !app_nil_r.
  destruct (Z.of_nat (size m) >? 0) eqn:Hsz.
  - repeat match goal with
           | |- printed_rows (_ :: ?l) = ?r => change (printed_rows l = r)
           end.
    rewrite !printed_rows_app, printed_rows_fmap. simpl. by rewrite app_nil_r.
  - assert (m = ∅) as ->.
    { apply map_size_empty_iff. lia. }
    by rewrite map_to_list_empty.
Qed.

Lemma print_info_rows_witness :
  ∃ rows,
    printed_rows
      (default (None, [])
         (cl4_prof_print_info 7 (Some (calc_prof scenario_S3))
            CL4_PROF_EVENTAGG_SORT_NAME)).2 = row_of <$> rows ∧
    rows ≡ₚ (map_to_list (default ∅ (aggregate (calc_prof scenario_S3)))).*2 ∧
    StronglySorted (eventagg_order CL4_PROF_EVENTAGG_SORT_NAME) rows.
Proof.
  apply (print_info_rows 7 (calc_prof scenario_S3) CL4_PROF_EVENTAGG_SORT_NAME).
  - vm_compute. reflexivity.
  - vm_compute. reflexivity.
Defined.

(** ** Queues without events *)

(** [cl4_prof_calc] on a profile not yet calculated whose queues hold no
    event returns [CL_TRUE] and leaves empty tables, no overlap matrix
    ([g_new0] of zero elements is [NULL]), times that are zero, and
    [start_time] at [CL_ULONG_MAX]. *)
Theorem calc_no_events p err :
  before_calc p → is_Some (cqueues p) → tagged_stream p = [] →
  (∀ e, err ≠ Some (Some e)) →
  ∃ r p',
    cl4_prof_calc (Some p) err = Some r ∧ status r = CL_TRUE ∧
    prof_after r = Some p' ∧
    events p' = [] ∧ event_instants p' = [] ∧
    event_names p' = Some ∅ ∧ event_name_ids p' = Some ∅ ∧
    aggregate p' = Some ∅ ∧ overmat p' = None ∧
    total_events_time p' = 0 ∧ total_events_eff_time p' = 0 ∧
    start_time p' = CL_ULONG_MAX.
Proof.
  intros Hbc [qs Hq] Hstream Herr.
  rewrite (calc_unfold _ _ Hbc Herr), process_queues_flat, tagged_stream_calc_tables.
  rewrite Hstream. simpl. rewrite Hq.
  unfold cl4_prof_calc_agg, cl4_prof_calc_overmat. simpl.
  rewrite (bc_event_instants _ Hbc), (bc_total_events_time _ Hbc).
  unfold init_aggregate, reverse_event_names. rewrite map_to_list_empty. simpl.
  rewrite fmap_empty.
  eexists _, _. split; [reflexivity|]. split; [reflexivity|]. split; [reflexivity|].
  simpl. rewrite (bc_events _ Hbc), (bc_start_time _ Hbc). by repeat split.
Qed.

Lemma calc_no_events_witness :
  ∃ r p',
    cl4_prof_calc (Some (profile_of [])) (Some None) = Some r ∧ status r = CL_TRUE ∧
    prof_after r = Some p' ∧
    events p' = [] ∧ event_instants p' = [] ∧
    event_names p' = Some ∅ ∧ event_name_ids p' = Some ∅ ∧
    aggregate p' = Some ∅ ∧ overmat p' = None ∧
    total_events_time p' = 0 ∧ total_events_eff_time p' = 0 ∧
    start_time p' = CL_ULONG_MAX.
Proof.
  apply (calc_no_events (profile_of []) (Some None)).
  - by constructor.
  - by eexists.
  - reflexivity.
  - intros e. discriminate.
Defined.
